(** * The dice_roll_requests worker of SolanaHelperBot

    A shallow embedding of the three database-polling variants of
    [helper_index.js] (the animated-emoji worker, the animated-dice worker
    and the plain polling worker) and of the properties their
    claim / process / record cycle is expected to have.

    Layout:
    - the persisted table and the row objects the queries return;
    - the operations a worker performs on its environment (pool, client,
      bot, console, timers, module-level variables), as the nodes of a
      finite interaction tree;
    - JavaScript statements with a local frame and completions
      (normal, [return], thrown), so that [try]/[catch]/[finally] and
      [let] variables are modelled the way the source uses them;
    - the three [checkAndProcessRollRequests], [startHelperBot] and the
      shutdown handlers;
    - a sequential interpretation against a model of the store and a
      small event loop for overlapping invocations;
    - the process-level handlers, the message-triggered bots and the
      pool's TLS options;
    - the properties. *)

From Stdlib Require Import ZArith List String Ascii Bool Lia Arith Sorted
  Permutation DecimalString.
Import ListNotations.
Local Open Scope string_scope.
Local Open Scope list_scope.
Local Open Scope Z_scope.

Set Implicit Arguments.

(** ** Persisted rows *)

(** The [status] column: the three values the workers read or write. *)
Inductive Status : Type := pending | completed | error.

Definition Status_eqb (a b : Status) : bool :=
  match a, b with
  | pending, pending | completed, completed | error, error => true
  | _, _ => false
  end.

(** The row object a [SELECT] hands to the loop ([request] in the source):
    the selected columns only. *)
Module request.
Record t : Type := mk {
  request_id : Z;
  game_id : Z;
  chat_id : Z;
  user_id : Z;
  emoji_type : option string   (* NULL, or not selected: [None] *)
}.
End request.

(** A tuple of the table [dice_roll_requests]. *)
Record Tuple : Type := mkTuple {
  cols : request.t;
  status : Status;
  roll_value : option Z;
  requested_at : Z;
  processed_at : option Z
}.

Definition Table := list Tuple.

Definition id_of (t : Tuple) : Z := request.request_id (cols t).

Definition is_pending (t : Tuple) : bool := Status_eqb (status t) pending.

(** ** Values exchanged with the environment *)

(** What [parseInt] yields. *)
Inductive JsInt : Type := NaN | Int (z : Z).

(** A rejected promise or thrown exception: an [Error] object, with the
    [response.body] the Telegram client attaches to API failures. *)
Record Error : Type := mkError {
  message : string;
  response_body : option string
}.

(** The [dice] member of a sent message. *)
Record Dice : Type := mkDice { emoji : string; value : Z }.
Record Message : Type := mkMessage { dice : option Dice }.

Definition Client := nat.
Definition TimerId := nat.

Record QueryResult : Type := mkResult {
  rows : list request.t;
  rowCount : nat
}.

(** The SQL statements that occur in the sources. *)
Inductive Sql : Type :=
| BEGIN
| COMMIT
| ROLLBACK
| SELECT_NOW
| selectQuery (with_emoji : bool) (limit : JsInt)
    (* SELECT request_id, game_id, chat_id, user_id [, emoji_type]
       FROM dice_roll_requests WHERE status = 'pending'
       ORDER BY requested_at ASC LIMIT $1 FOR UPDATE SKIP LOCKED *)
| updateQuery (new_status : Status) (new_value : option Z) (id : Z).
    (* UPDATE dice_roll_requests
       SET status = $1, roll_value = $2, processed_at = NOW()
       WHERE request_id = $3 AND status = 'pending' *)

Inductive Level : Type := console_log | console_warn | console_error.

(** ** Operations on the environment *)

Inductive Op : Type -> Type :=
| pool_connect : Op Client
| client_query (c : Client) (q : Sql) : Op QueryResult
| client_release (c : Client) : Op unit
| pool_end : Op unit
| bot_sendDice (chat : Z) (emoji_opt : option string) : Op (option Message)
| bot_getMe : Op unit
| bot_isPolling : Op bool
| bot_stopPolling : Op unit
| Math_random : Op Z
| console (l : Level) (tag : string) : Op unit
| set_Interval : Op TimerId
| clear_Interval (id : TimerId) : Op unit
| read_IntervalId : Op (option TimerId)
| write_IntervalId (v : option TimerId) : Op unit
| read_isShuttingDownHelper : Op bool
| write_isShuttingDownHelper (b : bool) : Op unit.

(** A finite interaction tree: the run of one function invocation, one
    node per operation, the continuation taking what the operation
    settles with (a rejection or a value). [Halt] is [process.exit]. *)
Inductive IO (A : Type) : Type :=
| Done (a : A)
| Halt (code : Z)
| Call (R : Type) (op : Op R) (k : Error + R -> IO A).

Arguments Done {A} a.
Arguments Halt {A} code.
Arguments Call {A R} op k.

Fixpoint io_bind {A B : Type} (m : IO A) (f : A -> IO B) : IO B :=
  match m with
  | Done a => f a
  | Halt c => Halt c
  | Call op k => Call op (fun r => io_bind (k r) f)
  end.

(** ** Statements *)

(** How a statement completes. The functions modelled here only
    [return;] without a value. *)
Inductive Completion (A : Type) : Type :=
| Normal (a : A)
| Return
| Thrown (e : Error).

Arguments Normal {A} a.
Arguments Return {A}.
Arguments Thrown {A} e.

(** A statement runs in a frame [F] of local variables. *)
Definition Stmt (F A : Type) : Type := F -> IO (F * Completion A).

Section Statements.
Context {F : Type}.

Definition ret {A} (a : A) : Stmt F A := fun f => Done (f, Normal a).

Definition throw {A} (e : Error) : Stmt F A := fun f => Done (f, Thrown e).

Definition return_ {A} : Stmt F A := fun f => Done (f, Return).

Definition bind {A B} (m : Stmt F A) (k : A -> Stmt F B) : Stmt F B :=
  fun f =>
    io_bind (m f) (fun fc =>
      match snd fc with
      | Normal a => k a (fst fc)
      | Return => Done (fst fc, Return)
      | Thrown e => Done (fst fc, Thrown e)
      end).

(** An operation, awaited or called synchronously: a rejection (or a
    synchronous throw) becomes a thrown completion. *)
Definition await {R} (op : Op R) : Stmt F R :=
  fun f => Call op (fun r =>
    Done (f, match r with inl e => Thrown e | inr v => Normal v end)).

Definition process_exit {A} (code : Z) : Stmt F A := fun _ => Halt code.

Definition get : Stmt F F := fun f => Done (f, Normal f).

Definition modify (g : F -> F) : Stmt F unit := fun f => Done (g f, Normal tt).

(** [try { body } catch (e) { handler e }] *)
Definition try_catch {A} (body : Stmt F A) (handler : Error -> Stmt F A)
  : Stmt F A :=
  fun f =>
    io_bind (body f) (fun fc =>
      match snd fc with
      | Thrown e => handler e (fst fc)
      | c => Done (fst fc, c)
      end).

(** [try { body } finally { fin }]: the finalizer runs on every
    completion of the body, and an abrupt completion of the finalizer
    replaces the body's. *)
Definition try_finally {A} (body : Stmt F A) (fin : Stmt F unit)
  : Stmt F A :=
  fun f =>
    io_bind (body f) (fun fc =>
      io_bind (fin (fst fc)) (fun fc' =>
        match snd fc' with
        | Normal _ => Done (fst fc', snd fc)
        | Return => Done (fst fc', Return)
        | Thrown e => Done (fst fc', Thrown e)
        end)).

Definition try_catch_finally {A} (body : Stmt F A)
    (handler : Error -> Stmt F A) (fin : Stmt F unit) : Stmt F A :=
  try_finally (try_catch body handler) fin.

(** [for (const x of xs) { body x }] (no [break] or [continue] in the
    sources). *)
Fixpoint for_of {X} (xs : list X) (body : X -> Stmt F unit) : Stmt F unit :=
  match xs with
  | [] => ret tt
  | x :: xs' => bind (body x) (fun _ => for_of xs' body)
  end.
End Statements.

Declare Scope js_scope.
Delimit Scope js_scope with js.
Notation "x <- m ;; k" := (bind m (fun x => k))
  (at level 61, m at next level, right associativity) : js_scope.
Notation "m ;; k" := (bind m (fun _ => k))
  (at level 61, right associativity) : js_scope.
Local Open Scope js_scope.

(** [a || d] on a nullable string: the empty string is falsy. *)
Definition js_or (a : option string) (d : string) : string :=
  match a with
  | Some s => if String.eqb s EmptyString then d else s
  | None => d
  end.

(** The error raised by a member access on [null]. *)
Definition TypeError : Error := mkError "TypeError" None.

(** ** The environment a worker runs against *)

(** What the environment decides: whether the [k]-th store call
    (connect, query, pool end) fails, what the [k]-th [sendDice] settles
    with, whether [getMe] and [stopPolling] fail, the value of
    [Math.random()] as a numerator over [2^53], the time [NOW()] reports
    and the rows other in-flight transactions hold locked. *)
Record Env : Type := mkEnv {
  store_fault : nat -> option Error;
  channel : nat -> Error + option Message;
  getMe_fault : option Error;
  stopPolling_fault : option Error;
  random : nat -> Z;
  now : Z;
  leased_elsewhere : list Z
}.

Inductive Event : Type :=
| Ev (R : Type) (op : Op R) (r : Error + R)
| EvExit (code : Z).

Arguments Ev {R} op r.

Record World : Type := mkWorld {
  table : Table;                (* committed rows *)
  txn : option Table;           (* the connection's open transaction *)
  client_released : bool;       (* the checked-out client was released *)
  pool_ended : bool;
  polling : bool;               (* the bot's inbound listener *)
  active_timers : list TimerId;
  dbPollingIntervalId : option TimerId;
  isShuttingDownHelper : bool;
  n_store : nat;                (* store calls so far *)
  n_sent : nat;                 (* sendDice calls so far *)
  clock : nat;                  (* operations so far *)
  trace : list Event
}.

Definition set_table (v : Table) (w : World) : World :=
  mkWorld v (txn w) (client_released w) (pool_ended w) (polling w)
    (active_timers w) (dbPollingIntervalId w) (isShuttingDownHelper w)
    (n_store w) (n_sent w) (clock w) (trace w).
Definition set_txn (v : option Table) (w : World) : World :=
  mkWorld (table w) v (client_released w) (pool_ended w) (polling w)
    (active_timers w) (dbPollingIntervalId w) (isShuttingDownHelper w)
    (n_store w) (n_sent w) (clock w) (trace w).
Definition set_client_released (v : bool) (w : World) : World :=
  mkWorld (table w) (txn w) v (pool_ended w) (polling w)
    (active_timers w) (dbPollingIntervalId w) (isShuttingDownHelper w)
    (n_store w) (n_sent w) (clock w) (trace w).
Definition set_pool_ended (v : bool) (w : World) : World :=
  mkWorld (table w) (txn w) (client_released w) v (polling w)
    (active_timers w) (dbPollingIntervalId w) (isShuttingDownHelper w)
    (n_store w) (n_sent w) (clock w) (trace w).
Definition set_polling (v : bool) (w : World) : World :=
  mkWorld (table w) (txn w) (client_released w) (pool_ended w) v
    (active_timers w) (dbPollingIntervalId w) (isShuttingDownHelper w)
    (n_store w) (n_sent w) (clock w) (trace w).
Definition set_active_timers (v : list TimerId) (w : World) : World :=
  mkWorld (table w) (txn w) (client_released w) (pool_ended w) (polling w)
    v (dbPollingIntervalId w) (isShuttingDownHelper w)
    (n_store w) (n_sent w) (clock w) (trace w).
Definition set_dbPollingIntervalId (v : option TimerId) (w : World) : World :=
  mkWorld (table w) (txn w) (client_released w) (pool_ended w) (polling w)
    (active_timers w) v (isShuttingDownHelper w)
    (n_store w) (n_sent w) (clock w) (trace w).
Definition set_isShuttingDownHelper (v : bool) (w : World) : World :=
  mkWorld (table w) (txn w) (client_released w) (pool_ended w) (polling w)
    (active_timers w) (dbPollingIntervalId w) v
    (n_store w) (n_sent w) (clock w) (trace w).

(** One more store call, one more [sendDice]. *)
Definition count_store (w : World) : World :=
  mkWorld (table w) (txn w) (client_released w) (pool_ended w) (polling w)
    (active_timers w) (dbPollingIntervalId w) (isShuttingDownHelper w)
    (S (n_store w)) (n_sent w) (clock w) (trace w).
Definition count_sent (w : World) : World :=
  mkWorld (table w) (txn w) (client_released w) (pool_ended w) (polling w)
    (active_timers w) (dbPollingIntervalId w) (isShuttingDownHelper w)
    (n_store w) (S (n_sent w)) (clock w) (trace w).

(** Every operation is recorded and advances the clock. *)
Definition record (e : Event) (w : World) : World :=
  mkWorld (table w) (txn w) (client_released w) (pool_ended w) (polling w)
    (active_timers w) (dbPollingIntervalId w) (isShuttingDownHelper w)
    (n_store w) (n_sent w) (S (clock w)) (trace w ++ [e]).

(** *** The store *)

(** What the connection sees: its open transaction, else the committed
    rows. *)
Definition view (w : World) : Table :=
  match txn w with Some t => t | None => table w end.

(** A write goes to the open transaction, else straight to the table. *)
Definition set_view (t : Table) (w : World) : World :=
  mkWorld
    (match txn w with Some _ => table w | None => t end)
    (match txn w with Some _ => Some t | None => None end)
    (client_released w) (pool_ended w) (polling w)
    (active_timers w) (dbPollingIntervalId w) (isShuttingDownHelper w)
    (n_store w) (n_sent w) (clock w) (trace w).

Fixpoint insert_by_requested_at (t : Tuple) (l : Table) : Table :=
  match l with
  | [] => [t]
  | x :: l' =>
      if requested_at t <=? requested_at x then t :: l
      else x :: insert_by_requested_at t l'
  end.

(** [ORDER BY requested_at ASC]; rows with equal keys keep their order. *)
Definition order_by_requested_at (l : Table) : Table :=
  fold_right insert_by_requested_at [] l.

Definition mem_id (i : Z) (l : list Z) : bool := existsb (Z.eqb i) l.

(** The tuples [selectQuery] locks and returns: the pending ones, oldest
    first, those locked elsewhere skipped, at most [limit] of them. *)
Definition claimed_tuples (leased : list Z) (limit : nat) (t : Table) : Table :=
  firstn limit
    (filter (fun x => negb (mem_id (id_of x) leased))
       (order_by_requested_at (filter is_pending t))).

(** The selected columns of a tuple. *)
Definition project (with_emoji : bool) (t : Tuple) : request.t :=
  request.mk (request.request_id (cols t)) (request.game_id (cols t))
    (request.chat_id (cols t)) (request.user_id (cols t))
    (if with_emoji then request.emoji_type (cols t) else None).

Definition update_matches (id : Z) (t : Tuple) : bool :=
  (id_of t =? id) && is_pending t.

Definition update_tuple (st : Status) (v : option Z) (id : Z) (at_ : Z)
    (t : Tuple) : Tuple :=
  if update_matches id t
  then mkTuple (cols t) st v (requested_at t) (Some at_)
  else t.

Definition no_rows (n : nat) : QueryResult := mkResult [] n.

Definition bad_limit : Error := mkError "invalid LIMIT" None.
Definition double_release : Error :=
  mkError "Release called on client which has already been released to the pool." None.
Definition pool_closed : Error :=
  mkError "Cannot use a pool after calling end on the pool" None.

Section Handle.
Variable env : Env.

Definition exec_sql (q : Sql) (w : World) : (Error + QueryResult) * World :=
  match q with
  | BEGIN =>
      (* inside an open transaction BEGIN changes nothing *)
      (inr (no_rows 0), set_txn (Some (view w)) w)
  | COMMIT => (inr (no_rows 0), set_txn None (set_table (view w) w))
  | ROLLBACK => (inr (no_rows 0), set_txn None w)
  | SELECT_NOW => (inr (no_rows 1), w)
  | selectQuery with_emoji limit =>
      match limit with
      | NaN => (inl bad_limit, w)
      | Int n =>
          if n <? 0 then (inl bad_limit, w)
          else
            let got :=
              claimed_tuples (leased_elsewhere env) (Z.to_nat n) (view w) in
            (inr (mkResult (map (project with_emoji) got) (List.length got)), w)
      end
  | updateQuery st v id =>
      (inr (no_rows (List.length (filter (update_matches id) (view w)))),
       set_view (map (update_tuple st v id (now env)) (view w)) w)
  end.

(** A store call: the environment may fail it; otherwise [ok] decides. *)
Definition store_call {R} (ok : World -> (Error + R) * World) (w : World)
  : (Error + R) * World :=
  match store_fault env (n_store w) with
  | Some e => (inl e, count_store w)
  | None => ok (count_store w)
  end.

(** What the promise of an operation settles with, and what the
    operation does to the world. Two things the libraries do besides
    are kept apart: a query that fails by losing the connection also
    makes the client emit ['error'], which is the matter of
    [run_in_process] below; and [pool.end()] is taken to settle at once,
    as it does when no client is checked out. *)
Definition perform {R} (op : Op R) (w : World) : (Error + R) * World :=
  match op in Op R return (Error + R) * World with
  | pool_connect =>
      if pool_ended w then (inl pool_closed, w)
      else store_call (fun w' => (inr (clock w'), set_client_released false w')) w
  | client_query _ q => store_call (exec_sql q) w
  | client_release _ =>
      if client_released w then (inl double_release, w)
      else (inr tt, set_client_released true w)
  | pool_end =>
      if pool_ended w then (inl pool_closed, w)
      else store_call (fun w' => (inr tt, set_pool_ended true w')) w
  | bot_sendDice _ _ => (channel env (n_sent w), count_sent w)
  | bot_getMe =>
      match getMe_fault env with
      | Some e => (inl e, w)
      | None => (inr tt, w)
      end
  | bot_isPolling => (inr (polling w), w)
  | bot_stopPolling =>
      match stopPolling_fault env with
      | Some e => (inl e, w)
      | None => (inr tt, set_polling false w)
      end
  | Math_random => (inr (random env (clock w) mod 2 ^ 53), w)
  | console _ _ => (inr tt, w)
  | set_Interval =>
      (inr (clock w), set_active_timers (clock w :: active_timers w) w)
  | clear_Interval id =>
      (inr tt,
       set_active_timers
         (filter (fun i => negb (Nat.eqb i id)) (active_timers w)) w)
  | read_IntervalId => (inr (dbPollingIntervalId w), w)
  | write_IntervalId v => (inr tt, set_dbPollingIntervalId v w)
  | read_isShuttingDownHelper => (inr (isShuttingDownHelper w), w)
  | write_isShuttingDownHelper b => (inr tt, set_isShuttingDownHelper b w)
  end.

Definition handle {R} (op : Op R) (w : World) : (Error + R) * World :=
  let rw := perform op w in (fst rw, record (Ev op (fst rw)) (snd rw)).

(** How an invocation ends: it settles, or the process exits. *)
Inductive Outcome (A : Type) : Type :=
| Settled (a : A)
| Exited (code : Z).

Fixpoint run {A} (m : IO A) (w : World) : Outcome A * World :=
  match m with
  | Done a => (Settled a, w)
  | Halt c => (Exited A c, record (EvExit c) w)
  | Call op k => let rw := handle op w in run (k (fst rw)) (snd rw)
  end.
End Handle.

Arguments Settled {A} a.
Arguments Exited {A} code.

(** ** The workers *)

(** The local variables of [checkAndProcessRollRequests]: [client],
    declared before the [try], and the per-row [rollValue] and
    [updateStatus]. *)
Record Frame : Type := mkFrame {
  client : option Client;
  rollValue : option Z;
  updateStatus : Status
}.

Definition set_client (v : option Client) (f : Frame) : Frame :=
  mkFrame v (rollValue f) (updateStatus f).
Definition set_rollValue (v : option Z) (f : Frame) : Frame :=
  mkFrame (client f) v (updateStatus f).
Definition set_updateStatus (v : Status) (f : Frame) : Frame :=
  mkFrame (client f) (rollValue f) v.

(** The frame on entry; [rollValue] and [updateStatus] are declared anew
    by each iteration. *)
Definition entry : Frame := mkFrame None None error.

(** A synchronous call: same tree node as an awaited one. *)
Definition call {F R} (op : Op R) : Stmt F R := await op.

(** [client.m(...)]: a method call through the variable [client]. *)
Definition client_do {R} (m : Client -> Op R) : Stmt Frame R :=
  f <- get ;;
  match client f with
  | Some c => await (m c)
  | None => throw TypeError
  end.

(** The [catch] and [finally] blocks, the same in the three variants. *)
Definition on_cycle_error (_ : Error) : Stmt Frame unit :=
  call (console console_error "[DB_POLL_ERROR]") ;;
  f <- get ;;
  match client f with
  | Some c =>
      try_catch
        (await (client_query c ROLLBACK) ;;
         call (console console_log "[DB_POLL_ERROR]"))
        (fun _ => call (console console_error "[DB_POLL_ERROR]"))
  | None => ret tt
  end.

Definition release_client : Stmt Frame unit :=
  f <- get ;;
  match client f with
  | Some c => call (client_release c)
  | None => ret tt
  end.

(** *** Doubles, as far as [Math.floor(Math.random() * 6) + 1] needs them

    [Math.random()] is a double [k / 2^53] with [0 <= k < 2^53]. Its
    product with 6 is the exact product rounded to 53 significant bits,
    ties to even; a value is represented by its numerator over [2^53]. *)
Definition round_to_53_bits (n : Z) : Z :=
  let bits := Z.log2 n + 1 in
  if bits <=? 53 then n
  else
    let s := bits - 53 in
    let q := Z.shiftr n s in
    let r := n - Z.shiftl q s in
    let half := Z.shiftl 1 (s - 1) in
    let up := (half <? r) || ((r =? half) && Z.odd q) in
    Z.shiftl (if up then q + 1 else q) s.

Definition times_6 (k : Z) : Z := round_to_53_bits (6 * k).

Definition Math_floor (n : Z) : Z := n / 2 ^ 53.

(** *** part_005: the animated-emoji worker *)
Module AnimatedEmoji.
Section Worker.
Variable MAX_REQUESTS_PER_CYCLE : JsInt.

Definition emojiToSend (request : request.t) : string :=
  js_or (request.emoji_type request) "🎲".

Definition processRequest (request : request.t) : Stmt Frame unit :=
  call (console console_log "[DB_PROCESS]") ;;
  modify (set_rollValue None) ;;
  modify (set_updateStatus error) ;;
  try_catch
    (call (console console_log "[HELPER_SEND_EMOJI]") ;;
     sentMessage <- await (bot_sendDice (request.chat_id request)
                             (Some (emojiToSend request))) ;;
     match sentMessage with
     | Some (mkMessage (Some d)) =>
         modify (set_rollValue (Some (value d))) ;;
         modify (set_updateStatus completed) ;;
         call (console console_log "[HELPER_SEND_EMOJI]")
     | _ => call (console console_error "[HELPER_SEND_EMOJI_ERROR]")
     end)
    (fun sendError =>
       call (console console_error "[HELPER_SEND_EMOJI_ERROR]") ;;
       match response_body sendError with
       | Some _ => call (console console_error "[HELPER_SEND_EMOJI_ERROR]")
       | None => ret tt
       end) ;;
  f <- get ;;
  updateResult <- client_do (fun c =>
    client_query c (updateQuery (updateStatus f) (rollValue f)
                      (request.request_id request))) ;;
  if (0 <? rowCount updateResult)%nat
  then call (console console_log "[DB_PROCESS]")
  else call (console console_warn "[DB_PROCESS_WARN]").

Definition checkAndProcessRollRequests : Stmt Frame unit :=
  modify (set_client None) ;;
  try_catch_finally
    (c <- await pool_connect ;;
     modify (set_client (Some c)) ;;
     client_do (fun c => client_query c BEGIN) ;;
     result <- client_do (fun c =>
       client_query c (selectQuery true MAX_REQUESTS_PER_CYCLE)) ;;
     (if (List.length (rows result) =? 0)%nat
      then client_do (fun c => client_query c COMMIT) ;;
           client_do client_release ;;
           return_
      else ret tt) ;;
     call (console console_log "[DB_POLL]") ;;
     for_of (rows result) processRequest ;;
     client_do (fun c => client_query c COMMIT) ;;
     ret tt)
    on_cycle_error
    release_client.
End Worker.

Definition startHelperBot : Stmt unit unit :=
  call (console console_log "Initializing Animated Emoji Helper Bot") ;;
  call (console console_log "Timestamp:") ;;
  try_catch
    (call (console console_log "Helper Bot: Testing DB connection...") ;;
     dbClient <- await pool_connect ;;
     call (console console_log "Helper Bot: DB connected.") ;;
     await (client_query dbClient SELECT_NOW) ;;
     call (console console_log "Helper Bot: DB query test OK.") ;;
     call (client_release dbClient) ;;
     call (console console_log "Helper Bot: Connecting to Telegram...") ;;
     await bot_getMe ;;
     call (console console_log "Helper Bot: Connected to Telegram!") ;;
     id <- call set_Interval ;;
     call (write_IntervalId (Some id)) ;;
     call (console console_log "Helper Bot: DB polling started") ;;
     call (console console_log "Helper Bot operational!"))
    (fun _ =>
       call (console console_error "CRITICAL STARTUP ERROR (Helper Bot):") ;;
       try_catch (await pool_end) (fun _ => ret tt) ;;
       process_exit 1).

Definition shutdownHelper (signal : string) : Stmt unit unit :=
  already <- call read_isShuttingDownHelper ;;
  (if already : bool
   then call (console console_log "Shutdown already in progress.") ;; return_
   else ret tt) ;;
  call (write_isShuttingDownHelper true) ;;
  call (console console_log "Shutting down Helper Bot...") ;;
  id <- call read_IntervalId ;;
  match id with
  | Some i => call (clear_Interval i)
  | None => ret tt
  end ;;
  call (console console_log "DB polling stopped.") ;;
  isPolling <- call bot_isPolling ;;
  (if isPolling : bool
   then try_catch
          (await bot_stopPolling ;;
           call (console console_log "Telegram polling stopped."))
          (fun _ => call (console console_error "Error stopping Telegram polling:"))
   else ret tt) ;;
  try_catch
    (await pool_end ;;
     call (console console_log "PostgreSQL pool closed."))
    (fun _ => call (console console_error "Error closing PostgreSQL pool:")) ;;
  call (console console_log "Shutdown complete. Exiting.") ;;
  process_exit 0.
End AnimatedEmoji.

(** *** part_001: the animated-dice worker *)
Module AnimatedDice.
Section Worker.
Variable MAX_REQUESTS_PER_CYCLE : JsInt.

Definition processRequest (request : request.t) : Stmt Frame unit :=
  call (console console_log "[DB_PROCESS]") ;;
  modify (set_rollValue None) ;;
  modify (set_updateStatus error) ;;
  try_catch
    (call (console console_log "[HELPER_SEND_DICE]") ;;
     sentDiceMessage <- await (bot_sendDice (request.chat_id request) None) ;;
     match sentDiceMessage with
     | Some (mkMessage (Some d)) =>
         modify (set_rollValue (Some (value d))) ;;
         modify (set_updateStatus completed) ;;
         call (console console_log "[HELPER_SEND_DICE]")
     | _ => call (console console_error "[HELPER_SEND_DICE_ERROR]")
     end)
    (fun sendError =>
       call (console console_error "[HELPER_SEND_DICE_ERROR]") ;;
       match response_body sendError with
       | Some _ => call (console console_error "[HELPER_SEND_DICE_ERROR]")
       | None => ret tt
       end) ;;
  f <- get ;;
  updateResult <- client_do (fun c =>
    client_query c (updateQuery (updateStatus f) (rollValue f)
                      (request.request_id request))) ;;
  if (0 <? rowCount updateResult)%nat
  then call (console console_log "[DB_PROCESS]")
  else call (console console_warn "[DB_PROCESS_WARN]").

Definition checkAndProcessRollRequests : Stmt Frame unit :=
  modify (set_client None) ;;
  try_catch_finally
    (c <- await pool_connect ;;
     modify (set_client (Some c)) ;;
     client_do (fun c => client_query c BEGIN) ;;
     result <- client_do (fun c =>
       client_query c (selectQuery false MAX_REQUESTS_PER_CYCLE)) ;;
     (if (List.length (rows result) =? 0)%nat
      then client_do (fun c => client_query c COMMIT) ;;
           return_
      else ret tt) ;;
     call (console console_log "[DB_POLL]") ;;
     for_of (rows result) processRequest ;;
     client_do (fun c => client_query c COMMIT) ;;
     ret tt)
    on_cycle_error
    release_client.
End Worker.

(** [pollingIntervalId] of part_001 is the variable the world calls
    [dbPollingIntervalId]. *)
Definition startHelperBot : Stmt unit unit :=
  call (console console_log "Initializing Dice Helper Bot (Animated Dice Mode)") ;;
  call (console console_log "Timestamp:") ;;
  try_catch
    (call (console console_log "Helper Bot: Attempting initial database connection test...") ;;
     dbClient <- await pool_connect ;;
     call (console console_log "Helper Bot: Successfully connected to PostgreSQL.") ;;
     await (client_query dbClient SELECT_NOW) ;;
     call (console console_log "Helper Bot: Database query test successful.") ;;
     call (client_release dbClient) ;;
     call (console console_log "Helper Bot: Connecting to Telegram...") ;;
     await bot_getMe ;;
     call (console console_log "Helper Bot: Successfully connected to Telegram!") ;;
     id <- call set_Interval ;;
     call (write_IntervalId (Some id)) ;;
     call (console console_log "Helper Bot: Database polling started.") ;;
     call (console console_log "Helper Bot operational!"))
    (fun _ =>
       call (console console_error "CRITICAL STARTUP ERROR (Helper Bot): Failed to initialize.") ;;
       try_catch (await pool_end) (fun _ => ret tt) ;;
       process_exit 1).

(** [shutdown] of part_001 (and, verbatim, of part_002). *)
Definition shutdown (signal : string) : Stmt unit unit :=
  already <- call read_isShuttingDownHelper ;;
  (if already : bool
   then call (console console_log "Shutdown already in progress.") ;; return_
   else ret tt) ;;
  call (write_isShuttingDownHelper true) ;;
  call (console console_log "Shutting down Helper Bot gracefully...") ;;
  id <- call read_IntervalId ;;
  match id with
  | Some i =>
      call (clear_Interval i) ;;
      call (console console_log "Database polling stopped.")
  | None => ret tt
  end ;;
  isPolling <- call bot_isPolling ;;
  (if isPolling : bool
   then try_catch
          (await bot_stopPolling ;;
           call (console console_log "Telegram polling stopped."))
          (fun _ => call (console console_error "Error stopping Telegram polling:"))
   else ret tt) ;;
  try_catch
    (await pool_end ;;
     call (console console_log "PostgreSQL pool has been closed."))
    (fun _ => call (console console_error "Error closing PostgreSQL pool:")) ;;
  call (console console_log "Shutdown complete. Exiting.") ;;
  process_exit 0.
End AnimatedDice.

(** *** part_002: the plain polling worker *)
Module DbPoll.
Section Worker.
Variable MAX_REQUESTS_PER_CYCLE : JsInt.

Definition processRequest (request : request.t) : Stmt Frame unit :=
  call (console console_log "[DB_PROCESS]") ;;
  x <- call Math_random ;;
  modify (set_rollValue (Some (Math_floor (times_6 x) + 1))) ;;
  call (console console_log "[DB_PROCESS]") ;;
  f <- get ;;
  updateResult <- client_do (fun c =>
    client_query c (updateQuery completed (rollValue f)
                      (request.request_id request))) ;;
  if (0 <? rowCount updateResult)%nat
  then call (console console_log "[DB_PROCESS]")
  else call (console console_warn "[DB_PROCESS_WARN]").

Definition checkAndProcessRollRequests : Stmt Frame unit :=
  modify (set_client None) ;;
  try_catch_finally
    (c <- await pool_connect ;;
     modify (set_client (Some c)) ;;
     client_do (fun c => client_query c BEGIN) ;;
     result <- client_do (fun c =>
       client_query c (selectQuery false MAX_REQUESTS_PER_CYCLE)) ;;
     (if (List.length (rows result) =? 0)%nat
      then client_do (fun c => client_query c COMMIT) ;;
           return_
      else ret tt) ;;
     call (console console_log "[DB_POLL]") ;;
     for_of (rows result) processRequest ;;
     client_do (fun c => client_query c COMMIT) ;;
     ret tt)
    on_cycle_error
    release_client.
End Worker.
End DbPoll.

(** ** The cycle, once for the three variants

    The three [checkAndProcessRollRequests] differ in the columns they
    select, in whether the empty branch releases the client before
    returning, and in the loop body. The properties of the cycle are
    proved on this common shape; [AnimatedEmoji_cycle],
    [AnimatedDice_cycle] and [DbPoll_cycle] below state that each worker
    is an instance of it. *)

Definition process_batch (early_release : bool)
    (body : request.t -> Stmt Frame unit) (result : QueryResult)
  : Stmt Frame unit :=
  (if (List.length (rows result) =? 0)%nat
   then client_do (fun c => client_query c COMMIT) ;;
        (if early_release
         then client_do client_release ;; return_
         else return_)
   else ret tt) ;;
  call (console console_log "[DB_POLL]") ;;
  for_of (rows result) body ;;
  client_do (fun c => client_query c COMMIT) ;;
  ret tt.

Definition try_block (with_emoji early_release : bool)
    (body : request.t -> Stmt Frame unit) (MAX_REQUESTS_PER_CYCLE : JsInt)
  : Stmt Frame unit :=
  c <- await pool_connect ;;
  modify (set_client (Some c)) ;;
  client_do (fun c => client_query c BEGIN) ;;
  result <- client_do (fun c =>
    client_query c (selectQuery with_emoji MAX_REQUESTS_PER_CYCLE)) ;;
  process_batch early_release body result.

Definition cycle (with_emoji early_release : bool)
    (body : request.t -> Stmt Frame unit) (MAX_REQUESTS_PER_CYCLE : JsInt)
  : Stmt Frame unit :=
  modify (set_client None) ;;
  try_catch_finally
    (try_block with_emoji early_release body MAX_REQUESTS_PER_CYCLE)
    on_cycle_error
    release_client.

(** ** Notions the properties are stated with *)

(** The outcome recorded for a channel answer. *)
Definition outcome_of (a : Error + option Message) : Status * option Z :=
  match a with
  | inr (Some (mkMessage (Some d))) => (completed, Some (value d))
  | _ => (error, None)
  end.

(** What a cycle leaves alone. *)
Definition same_process (w w' : World) : Prop :=
  pool_ended w' = pool_ended w /\
  polling w' = polling w /\
  active_timers w' = active_timers w /\
  dbPollingIntervalId w' = dbPollingIntervalId w /\
  isShuttingDownHelper w' = isShuttingDownHelper w.

(** One iteration of the loop: it issues one store call, the update.
    When that call fails the iteration throws and the connection's view
    is as it was; otherwise the update is applied to the view. [Q] tells
    what is recorded, in terms of the number of [sendDice] calls made
    before the iteration, [sends] how many such calls an iteration
    makes. *)
Definition row_step (env : Env) (Q : nat -> Status -> option Z -> Prop)
    (sends : nat) (body : request.t -> Stmt Frame unit) : Prop :=
  forall row f w c, client f = Some c ->
  exists f1 cpl w1 st v,
    run env (body row f) w = (Settled (f1, cpl), w1) /\
    client f1 = Some c /\
    Q (n_sent w) st v /\
    n_store w1 = S (n_store w) /\
    n_sent w1 = (sends + n_sent w)%nat /\
    client_released w1 = client_released w /\
    same_process w w1 /\
    match store_fault env (n_store w) with
    | Some e => cpl = Thrown e /\ table w1 = table w /\ txn w1 = txn w
    | None =>
        let V' := map (update_tuple st v (request.request_id row) (now env))
                    (view w) in
        cpl = Normal tt /\
        table w1 = table (set_view V' w) /\ txn w1 = txn (set_view V' w)
    end.

(** The effect of the loop on the transaction's view [V], from the
    [s]-th [sendDice] and the [q]-th store call on: it stops at the
    first failing update. *)
Inductive loop_post (env : Env) (Q : nat -> Status -> option Z -> Prop)
    (sends : nat) :
  list request.t -> nat -> nat -> Table -> Table -> Completion unit -> nat -> Prop :=
| loop_done s q V : loop_post env Q sends [] s q V V (Normal tt) q
| loop_fault row rest s q V e :
    store_fault env q = Some e ->
    loop_post env Q sends (row :: rest) s q V V (Thrown e) (S q)
| loop_next row rest s q V V1 st v cpl q1 :
    store_fault env q = None ->
    Q s st v ->
    loop_post env Q sends rest (sends + s)%nat (S q)
      (map (update_tuple st v (request.request_id row) (now env)) V)
      V1 cpl q1 ->
    loop_post env Q sends (row :: rest) s q V V1 cpl q1.

(** What an iteration of the animated workers records: the outcome of
    the channel's answer to its own [sendDice]. *)
Definition channel_outcome (env : Env) (s : nat) (st : Status) (v : option Z)
  : Prop :=
  (st, v) = outcome_of (channel env s).

(** What an iteration of the plain worker records. *)
Definition local_roll (_ : nat) (st : Status) (v : option Z) : Prop :=
  st = completed /\ exists z, v = Some z /\ 1 <= z <= 6.

Definition limit_of (MAX : JsInt) : option nat :=
  match MAX with
  | NaN => None
  | Int n => if n <? 0 then None else Some (Z.to_nat n)
  end.

(** The cycle went through: connect, [BEGIN], the claim and the commit
    succeeded, and the loop recorded every row of the batch; [w1] is the
    world after the commit. *)
Definition committed (env : Env) (Q : nat -> Status -> option Z -> Prop)
    (sends : nat) (with_emoji : bool) (MAX : JsInt)
    (w : World) (n : nat) (w1 : World) : Prop :=
  limit_of MAX = Some n /\
  pool_ended w = false /\
  let claimed := claimed_tuples (leased_elsewhere env) n (view w) in
  let len := List.length claimed in
  store_fault env (n_store w) = None /\
  store_fault env (n_store w + 1) = None /\
  store_fault env (n_store w + 2) = None /\
  store_fault env (n_store w + 3 + len) = None /\
  loop_post env Q sends (map (project with_emoji) claimed)
    (n_sent w) (n_store w + 3) (view w) (table w1) (Normal tt)
    (n_store w + 3 + len) /\
  txn w1 = None.

(** *** The claim query *)

Definition oldest_first (a b : Tuple) : Prop := requested_at a <= requested_at b.

(** A tuple the claim may take: pending and not locked elsewhere. *)
Definition claimable (leased : list Z) (t : Tuple) : bool :=
  is_pending t && negb (mem_id (id_of t) leased).

(** *** What a cycle writes *)

(** [t'] is [t], or [t] was pending and [t'] is [t] with a terminal
    status and value allowed by [P], stamped [at_]. *)
Definition recorded (P : Status -> option Z -> Prop) (at_ : Z) (t t' : Tuple)
  : Prop :=
  t' = t \/
  (status t = pending /\
   exists st v, P st v /\ st <> pending /\
     t' = mkTuple (cols t) st v (requested_at t) (Some at_)).

(** The outcomes the specification allows. *)
Definition outcome_in_range (st : Status) (v : option Z) : Prop :=
  (st = completed /\ exists z, v = Some z /\ 1 <= z <= 6) \/
  (st = error /\ v = None).

(** The outcomes the animated workers record: the value is the one the
    channel answered with. *)
Definition outcome_from_channel (env : Env) (st : Status) (v : option Z)
  : Prop :=
  (st = completed /\
   exists k d, channel env k = inr (Some (mkMessage (Some d))) /\
               v = Some (value d)) \/
  (st = error /\ v = None).

(** The outcomes the plain worker records. *)
Definition outcome_local (st : Status) (v : option Z) : Prop :=
  st = completed /\ exists z, v = Some z /\ 1 <= z <= 6.

Definition channel_failed (a : Error + option Message) : Prop :=
  match a with
  | inl _ => True
  | inr None => True
  | inr (Some m) => dice m = None
  end.

(** The tuple [t] of the batch as the cycle left it in [final], for the
    channel's answer [a] to its [sendDice]. *)
Definition recorded_per_row (env : Env) (final : Table) (t : Tuple)
    (a : Error + option Message) : Prop :=
  In (mkTuple (cols t) (fst (outcome_of a)) (snd (outcome_of a))
        (requested_at t) (Some (now env))) final /\
  (channel_failed a ->
   In (mkTuple (cols t) error None (requested_at t) (Some (now env))) final).

(** Some store call of the cycle after the connect fails: [BEGIN], the
    claim, an update of a claimed row, or the commit. *)
Definition cycle_fails (env : Env) (MAX : JsInt) (w : World) : Prop :=
  limit_of MAX = None \/
  exists n k,
    limit_of MAX = Some n /\
    (1 <= k <= 3 + List.length
                   (claimed_tuples (leased_elsewhere env) n (view w)))%nat /\
    store_fault env (n_store w + k) <> None.

Definition rolled_back (w : World) (r : Outcome (Frame * Completion unit) * World)
  : Prop :=
  table (snd r) = table w /\
  (exists f, fst r = Settled (f, Normal tt)) /\
  same_process w (snd r) /\
  client_released (snd r) = true /\
  exists q, In (Ev (client_query (clock w) ROLLBACK) q) (trace (snd r)) /\
            (forall x, q = inr x -> txn (snd r) = None).

(** *** Recording one outcome *)

(** The log line after an update that reported [n] rows. *)
Definition update_log (n : nat) : Event :=
  if (0 <? n)%nat
  then Ev (console console_log "[DB_PROCESS]") (inr tt)
  else Ev (console console_warn "[DB_PROCESS_WARN]") (inr tt).

(** An iteration whose update the store accepts: it ends normally, its
    last two operations are the update, answered with the number of
    tuples that matched, and the log line for that number; the view is
    the old one with the update applied. *)
Definition records_outcome (env : Env) (body : request.t -> Stmt Frame unit)
  : Prop :=
  forall row f w c,
    client f = Some c ->
    store_fault env (n_store w) = None ->
    exists f1 w1 st v tr,
      run env (body row f) w = (Settled (f1, Normal tt), w1) /\
      client f1 = Some c /\
      view w1
      = map (update_tuple st v (request.request_id row) (now env)) (view w) /\
      trace w1
      = tr ++ [Ev (client_query c
                     (updateQuery st v (request.request_id row)))
                  (inr (no_rows
                     (List.length
                        (filter (update_matches (request.request_id row))
                           (view w)))));
               update_log
                 (List.length
                    (filter (update_matches (request.request_id row))
                       (view w)))].

(** What the update touches, what it reports, and how the loop goes on. *)
Definition outcome_recorded_if_pending (env : Env)
    (body : request.t -> Stmt Frame unit)
    (row : request.t) (f : Frame) (w : World) (c : Client) : Prop :=
  let id := request.request_id row in
  let n := List.length (filter (update_matches id) (view w)) in
  exists f1 w1 st v tr,
    (* the iteration ends normally, whatever the update reported *)
    run env (body row f) w = (Settled (f1, Normal tt), w1) /\
    (forall rest,
       run env (for_of (row :: rest) body f) w
       = run env (for_of rest body f1) w1) /\
    (* only tuples with this id that are still pending are written *)
    view w1 = map (update_tuple st v id (now env)) (view w) /\
    (forall t, id_of t <> id \/ status t <> pending ->
               update_tuple st v id (now env) t = t) /\
    (forall t, id_of t = id -> status t = pending ->
               update_tuple st v id (now env) t
               = mkTuple (cols t) st v (requested_at t) (Some (now env))) /\
    (* the update reports the number of tuples written, then the log *)
    trace w1 = tr ++ [Ev (client_query c (updateQuery st v id))
                        (inr (no_rows n)); update_log n] /\
    (* nothing matched: a warning, and the view is as it was *)
    (n = 0%nat ->
     view w1 = view w /\
     update_log n = Ev (console console_warn "[DB_PROCESS_WARN]") (inr tt)).

(** *** What is sent to the channel, and releases *)

(** The chat and the [emoji] option of a [sendDice] call. *)
Definition sent_to (e : Event) : list (Z * option string) :=
  match e with
  | Ev op _ =>
      match op with
      | bot_sendDice chat emoji_opt => [(chat, emoji_opt)]
      | _ => []
      end
  | EvExit _ => []
  end.

Definition sends_of (tr : list Event) : list (Z * option string) :=
  flat_map sent_to tr.

Definition is_release (e : Event) : bool :=
  match e with
  | Ev op _ =>
      match op with
      | client_release _ => true
      | _ => false
      end
  | EvExit _ => false
  end.

Definition release_calls (tr : list Event) : nat :=
  List.length (filter is_release tr).

(** *** Startup *)

(** The worker is up: [startHelperBot] returned, one more timer runs and
    its id is the one the shutdown handler will clear. *)
Definition polling_started (w : World)
    (r : Outcome (unit * Completion unit) * World) : Prop :=
  fst r = Settled (tt, Normal tt) /\
  dbPollingIntervalId (snd r) = Some (clock w + 11)%nat /\
  active_timers (snd r) = (clock w + 11)%nat :: active_timers w /\
  client_released (snd r) = true /\
  table (snd r) = table w /\
  isShuttingDownHelper (snd r) = isShuttingDownHelper w.

(** *** Shutdown *)

(** What a shutdown does to the process. *)
Inductive Action : Type :=
| StopTimer (id : TimerId)
| StopListener
| ClosePool
| ExitProcess (code : Z).

Definition action_of (e : Event) : list Action :=
  match e with
  | Ev op _ =>
      match op with
      | clear_Interval id => [StopTimer id]
      | bot_stopPolling => [StopListener]
      | pool_end => [ClosePool]
      | _ => []
      end
  | EvExit code => [ExitProcess code]
  end.

Definition actions_of (tr : list Event) : list Action := flat_map action_of tr.

(** A signal while a shutdown is in progress: the handler returns, and
    nothing was done to the timer, the listener or the pool. *)
Definition no_further_action (w : World) (r : Outcome (unit * Completion unit) * World)
  : Prop :=
  fst r = Settled (tt, Return) /\
  actions_of (trace (snd r)) = actions_of (trace w) /\
  active_timers (snd r) = active_timers w /\
  polling (snd r) = polling w /\
  pool_ended (snd r) = pool_ended w /\
  isShuttingDownHelper (snd r) = true.

(** The first signal: the timer is cleared if it was set, the listener
    stopped if it was polling, the pool closed, failures of the last two
    caught, and the process exits with code 0. *)
Definition shuts_down (env : Env) (w : World)
    (r : Outcome (unit * Completion unit) * World) : Prop :=
  fst r = Exited 0 /\
  actions_of (trace (snd r))
  = actions_of (trace w)
    ++ match dbPollingIntervalId w with Some i => [StopTimer i] | None => [] end
    ++ (if polling w then [StopListener] else [])
    ++ [ClosePool; ExitProcess 0] /\
  isShuttingDownHelper (snd r) = true /\
  (forall i, dbPollingIntervalId w = Some i -> ~ In i (active_timers (snd r))) /\
  (stopPolling_fault env = None -> polling (snd r) = false) /\
  (store_fault env (n_store w) = None -> pool_ended (snd r) = true).

(** ** The timer and the invocations in flight

    [setInterval(checkAndProcessRollRequests, POLLING_INTERVAL_MS)] calls
    the function at every tick. An invocation runs until its first
    [await] and is then in flight, suspended at an operation, until that
    operation settles; other callbacks run in between. *)

Definition Task := IO (Frame * Completion unit).

Record Loop : Type := mkLoop {
  timer_on : bool;            (* the interval is set and not cleared *)
  in_flight : list Task       (* invocations not yet settled *)
}.

(** The operation a task is suspended at. *)
Definition awaited (t : Task) : option {R : Type & Op R} :=
  match t with
  | Call op _ => Some (existT Op _ op)
  | _ => None
  end.

Definition suspended (t : Task) : bool :=
  match t with Call _ _ => true | _ => false end.

(** The timer fires: the callback is called, whatever is in flight. *)
Definition tick (callback : Stmt Frame unit) (l : Loop) : Loop :=
  if timer_on l
  then mkLoop true (in_flight l ++ [callback entry])
  else l.

(** How the environment settles the operations. *)
Definition Answer := forall R, Op R -> Error + R.

Definition resume (ans : Answer) (t : Task) : Task :=
  match t with
  | Call op k => k (ans _ op)
  | _ => t
  end.

Fixpoint resume_nth (ans : Answer) (i : nat) (ts : list Task) : list Task :=
  match ts, i with
  | [], _ => []
  | t :: ts', O => resume ans t :: ts'
  | t :: ts', S j => t :: resume_nth ans j ts'
  end.

(** The operation the [i]-th invocation waits for settles; invocations
    that have ended leave the list. *)
Definition settle (ans : Answer) (i : nat) (l : Loop) : Loop :=
  mkLoop (timer_on l) (filter suspended (resume_nth ans i (in_flight l))).

(** Every operation succeeds. *)
Definition all_succeed : Answer :=
  fun R op =>
    match op in Op R return Error + R with
    | pool_connect => inr 0%nat
    | client_query _ _ => inr (no_rows 0)
    | client_release _ => inr tt
    | pool_end => inr tt
    | bot_sendDice _ _ => inr (Some (mkMessage (Some (mkDice "🎲" 4))))
    | bot_getMe => inr tt
    | bot_isPolling => inr true
    | bot_stopPolling => inr tt
    | Math_random => inr 0
    | console _ _ => inr tt
    | set_Interval => inr 0%nat
    | clear_Interval _ => inr tt
    | read_IntervalId => inr None
    | write_IntervalId _ => inr tt
    | read_isShuttingDownHelper => inr false
    | write_isShuttingDownHelper _ => inr tt
    end.

(** The claim as the specification words it: a tick while a cycle is in
    flight changes nothing. *)
Definition tick_is_noop_while_running (callback : Stmt Frame unit) : Prop :=
  forall l, timer_on l = true -> in_flight l <> [] -> tick callback l = l.

(** What a tick does. *)
Definition starts_invocation (callback : Stmt Frame unit) (l : Loop) : Prop :=
  in_flight (tick callback l) = in_flight l ++ [callback entry] /\
  List.length (in_flight (tick callback l)) = S (List.length (in_flight l)) /\
  awaited (callback entry) = Some (existT Op _ pool_connect).

(** ** Scenarios *)

(** A store and a channel that never fail. *)
Definition no_faults : Env :=
  mkEnv (fun _ => None)
        (fun _ => inr (Some (mkMessage (Some (mkDice "🎲" 4)))))
        None None (fun _ => 0) 1000 [].

(** A table without pending rows, a fresh pool. *)
Definition nothing_pending : World :=
  mkWorld [mkTuple (request.mk 1 10 21 30 None) completed (Some 2) 5 (Some 900)]
          None false false true [] None false 0 0 0 [].

(** The channel of the counterexample: every [sendDice] lands on 64, as
    the slot machine emoji can. *)
Definition slot_machine : Env :=
  mkEnv (fun _ => None)
        (fun _ => inr (Some (mkMessage (Some (mkDice "🎰" 64)))))
        None None (fun _ => 0) 1000 [].

Definition one_pending_slot : World :=
  mkWorld [mkTuple (request.mk 1 10 20 30 (Some "🎰")) pending None 5 None]
          None false false true [] None false 0 0 0 [].

(** Three pending rows, the channel fails for the second. *)
Definition second_send_fails : Env :=
  mkEnv (fun _ => None)
        (fun k => if Nat.eqb k 1
                  then inl (mkError "ETELEGRAM: 403 Forbidden" (Some "{}"))
                  else inr (Some (mkMessage (Some (mkDice "🎲" 4)))))
        None None (fun _ => 0) 1000 [].

Definition three_pending : World :=
  mkWorld [mkTuple (request.mk 1 10 21 30 None) pending None 5 None;
           mkTuple (request.mk 2 10 22 30 None) pending None 6 None;
           mkTuple (request.mk 3 10 23 30 None) pending None 7 None]
          None false false true [] None false 0 0 0 [].


Definition local_env : Env :=
  mkEnv (fun _ => None) (fun _ => inl (mkError "unused" None)) None None
        (fun k => Z.of_nat k * 2 ^ 51) 1000 [].

(** The claimed row was completed behind the cycle's back. *)
Definition altered_behind : World :=
  mkWorld [mkTuple (request.mk 1 10 21 30 None) pending None 5 None]
          (Some [mkTuple (request.mk 1 10 21 30 None) completed (Some 3) 5
                   (Some 900)])
          false false true [] None false 3 0 3 [].

Definition claimed_row : request.t := request.mk 1 10 21 30 None.

Definition with_client : Frame := mkFrame (Some 0%nat) None error.

(** A started worker: the poll timer 7 is set, the listener polls. *)
Definition started : World :=
  mkWorld [] None true false true [7%nat] (Some 7%nat) false 2 0 9 [].

(** The same worker once a first signal has set the flag and is waiting
    for the listener to stop. *)
Definition shutting_down : World :=
  mkWorld [] None true false true [] (Some 7%nat) true 2 0 14 [].

(** A first cycle has connected and begun its transaction and waits for
    its claim query when the timer fires again. *)
Definition mid_cycle : Loop :=
  settle all_succeed 0 (settle all_succeed 0
    (tick (AnimatedEmoji.checkAndProcessRollRequests (Int 5))
       (mkLoop true []))).

(** ** What an invocation can call *)

(** Every operation the tree can perform, whatever the environment
    answers, and its exit if it has one, pass [ok]. *)
Inductive calls_only (ok : Event -> bool) (A : Type) : IO A -> Prop :=
| only_Done a : calls_only ok (Done a)
| only_Halt c : ok (EvExit c) = true -> calls_only ok (Halt c)
| only_Call R (op : Op R) k :
    (forall r, ok (Ev op r) = true) ->
    (forall r, calls_only ok (k r)) ->
    calls_only ok (Call op k).

Definition stmt_only (ok : Event -> bool) {F A} (s : Stmt F A) : Prop :=
  forall f, calls_only ok (s f).

(** A call of [bot.sendDice]. *)
Definition is_sendDice (e : Event) : bool :=
  match e with
  | Ev op _ =>
      match op with
      | bot_sendDice _ _ => true
      | _ => false
      end
  | EvExit _ => false
  end.

(** The calls of a cycle of the plain worker: the pool, the client, the
    console and [Math.random]. *)
Definition plain_cycle_call (e : Event) : bool :=
  match e with
  | Ev op _ =>
      match op with
      | pool_connect | client_query _ _ | client_release _
      | Math_random | console _ _ => true
      | _ => false
      end
  | EvExit _ => false
  end.

(** The calls of a cycle of the animated workers: the pool, the client,
    the console and [bot.sendDice]. *)
Definition animated_cycle_call (e : Event) : bool :=
  match e with
  | Ev op _ =>
      match op with
      | pool_connect | client_query _ _ | client_release _
      | bot_sendDice _ _ | console _ _ => true
      | _ => false
      end
  | EvExit _ => false
  end.

(** The calls of a cycle before its [finally]: no [release], no exit. *)
Definition before_release (e : Event) : bool :=
  match e with
  | Ev op _ =>
      match op with
      | pool_connect | client_query _ _ | bot_sendDice _ _
      | Math_random | console _ _ => true
      | _ => false
      end
  | EvExit _ => false
  end.

(** Events that are no call of [bot.sendDice]. *)
Definition no_sendDice (e : Event) : bool := negb (is_sendDice e).

(** *** How a cycle ends *)

(** The invocation settled, its promise fulfilled, and the process state
    outside the store is as it was. *)
Definition fulfilled (w : World)
    (r : Outcome (Frame * Completion unit) * World) : Prop :=
  exists f cpl,
    fst r = Settled (f, cpl) /\ (cpl = Normal tt \/ cpl = Return) /\
    same_process w (snd r).

(** The error [pool.connect()] fails with in [w]. *)
Definition connect_error (env : Env) (w : World) : option Error :=
  if pool_ended w then Some pool_closed else store_fault env (n_store w).

(** A cycle that got no client: it logged the error and did nothing
    else. *)
Definition gave_up (w : World) (e : Error)
    (r : Outcome (Frame * Completion unit) * World) : Prop :=
  fst r = Settled (entry, Normal tt) /\
  trace (snd r)
  = trace w ++ [Ev pool_connect (inl e);
                Ev (console console_error "[DB_POLL_ERROR]") (inr tt)] /\
  table (snd r) = table w /\ txn (snd r) = txn w /\
  client_released (snd r) = client_released w.

(** *** Startup and process-level handlers *)

(** [startHelperBot] gave up: the process exits with code 1 after an
    attempt to close the pool, and no timer was set. *)
Definition startup_failed (w : World)
    (r : Outcome (unit * Completion unit) * World) : Prop :=
  fst r = Exited 1 /\
  actions_of (trace (snd r)) = actions_of (trace w) ++ [ClosePool; ExitProcess 1] /\
  active_timers (snd r) = active_timers w /\
  dbPollingIntervalId (snd r) = dbPollingIntervalId w /\
  table (snd r) = table w.

(** A call of an async function whose promise the caller handles: the
    callee's [return] ends the callee, not the caller. *)
Definition invoke {F} (callee : Stmt unit unit) : Stmt F unit :=
  fun f =>
    io_bind (callee tt) (fun fc =>
      Done (f, match snd fc with
               | Return => Normal tt
               | c => c
               end)).

(** part_005, the [uncaughtException] handler:
    [shutdownHelper('uncaughtException_exit').catch(() => process.exit(1))]. *)
Definition AnimatedEmoji_on_uncaughtException : Stmt unit unit :=
  call (console console_error "HELPER BOT UNCAUGHT EXCEPTION AT:") ;;
  try_catch
    (invoke (AnimatedEmoji.shutdownHelper "uncaughtException_exit"))
    (fun _ => process_exit 1).

(** part_001, the [uncaughtException] handler. *)
Definition AnimatedDice_on_uncaughtException : Stmt unit unit :=
  call (console console_error "HELPER BOT UNCAUGHT EXCEPTION AT:") ;;
  process_exit 1.

(** *** More scenarios *)

(** Telegram rejects the token. *)
Definition telegram_down : Env :=
  mkEnv (fun _ => None)
        (fun _ => inl (mkError "ETELEGRAM: 401 Unauthorized" None))
        (Some (mkError "ETELEGRAM: 401 Unauthorized" None)) None
        (fun _ => 0) 1000 [].

(** The database refuses connections. *)
Definition db_down : Env :=
  mkEnv (fun _ => Some (mkError "connect ECONNREFUSED" None))
        (fun _ => inr (Some (mkMessage (Some (mkDice "🎲" 4)))))
        None None (fun _ => 0) 1000 [].

(** A process about to start: nothing scheduled, no client out. *)
Definition not_started : World :=
  mkWorld [] None true false true [] None false 0 0 0 [].

(** Three pending rows; every store call succeeds but the commit. *)
Definition commit_fails : Env :=
  mkEnv (fun k => if Nat.eqb k 6
                  then Some (mkError "connection terminated" None)
                  else None)
        (fun _ => inr (Some (mkMessage (Some (mkDice "🎲" 4)))))
        None None (fun _ => 0) 1000 [].

(** ** The message-triggered helper bots

    The second script of part_001 and the scripts of part_003, part_000
    and part_004 answer chat messages instead of polling the database.
    A handler reads the incoming message, decides on at most one
    [bot.sendMessage] and returns; the promise of the send is only
    logged. Log texts are not modelled, so the sender's name, which
    only the logs use, is left out. *)

Module Trigger.

(** The fields of an incoming message the handlers read. [from] is the
    sender's id; Telegram leaves [msg.from] out for some messages. *)
Record Msg : Type := mkMsg {
  chat_id : Z;
  from : option Z;
  message_id : Z;
  msg_dice : option Dice;
  text : option string
}.

(** [bot.sendMessage(chatId, text, options)]. *)
Record Send : Type := mkSend {
  to : Z;
  body : string;
  reply_to_message_id : option Z
}.

(** A template literal on an integer. *)
Definition decimal (z : Z) : string := NilZero.string_of_int (Z.to_int z).

(** [Math.floor(Math.random() * 6) + 1], where [x] is the numerator of
    the double [Math.random()] returned, over [2^53]. *)
Definition roll (x : Z) : Z := Math_floor (times_6 x) + 1.

Definition lower (c : ascii) : ascii :=
  let n := nat_of_ascii c in
  if ((65 <=? n) && (n <=? 90))%nat then ascii_of_nat (n + 32) else c.

(** The ASCII capitals of a text lowered, the other bytes kept. The
    handlers compare the result with ASCII words only. JavaScript's
    [toLowerCase] turns just two characters outside ASCII into text
    with an ASCII letter, the Kelvin sign (k) and the dotted capital I
    (i), letters that none of these words has; and the [i] flag of a
    regular expression never lets a character outside ASCII match an
    ASCII one. So lowering the ASCII capitals decides those
    comparisons. *)
Fixpoint ascii_lower (s : string) : string :=
  match s with
  | EmptyString => EmptyString
  | String c s' => String (lower c) (ascii_lower s')
  end.

(** [p] occurs in [s]. *)
Fixpoint occurs (p s : string) : bool :=
  prefix p s ||
  match s with
  | EmptyString => false
  | String _ s' => occurs p s'
  end.

(** A regular expression that is one lower-case ASCII word, with the
    [i] flag, tested against a text. *)
Definition matches_word (word s : string) : bool := occurs word (ascii_lower s).

(** [msg.dice && msg.dice.emoji === '🎲'], with [msg.dice.value]. *)
Definition standard_die (msg : Msg) : option Z :=
  match msg_dice msg with
  | Some d => if String.eqb (emoji d) "🎲" then Some (value d) else None
  | None => None
  end.

(** [msg.text && msg.text.toLowerCase() === '/roll'] *)
Definition is_roll_command (msg : Msg) : bool :=
  match text msg with
  | Some t => String.eqb (ascii_lower t) "/roll"
  | None => false
  end.

(** [/\/start|\/help/i] against the message's text. *)
Definition is_help_request (msg : Msg) : bool :=
  match text msg with
  | Some t => matches_word "/start" t || matches_word "/help" t
  | None => false
  end.

Definition MAIN_CASINO_BOT_USERNAME : string := "SolanaChatBot".

(** [`@${MAIN_CASINO_BOT_USERNAME} ${rollValue}`] *)
Definition mention (rollValue : Z) : string :=
  "@" ++ MAIN_CASINO_BOT_USERNAME ++ " " ++ decimal rollValue.

(** part_001, second script: the ['message'] listener. [msg.from.id] is
    read first and throws when [msg.from] is missing. *)
Definition EmojiMode_on_message (msg : Msg) (x : Z) : Error + option Send :=
  match from msg with
  | None => inl TypeError
  | Some _ =>
      match standard_die msg with
      | Some rollValue =>
          inr (Some (mkSend (chat_id msg) (decimal rollValue) None))
      | None =>
          if is_roll_command msg
          then inr (Some (mkSend (chat_id msg) (decimal (roll x)) None))
          else inr None
      end
  end.

(** part_003: the same listener, answering with a mention of the main
    bot. *)
Definition Mention_on_message (msg : Msg) (x : Z) : Error + option Send :=
  match from msg with
  | None => inl TypeError
  | Some _ =>
      match standard_die msg with
      | Some rollValue =>
          inr (Some (mkSend (chat_id msg) (mention rollValue) None))
      | None =>
          if is_roll_command msg
          then inr (Some (mkSend (chat_id msg) (mention (roll x)) None))
          else inr None
      end
  end.

(** part_000: [rollValue] starts as [null]; the answer is a reply to the
    triggering message. *)
Definition Reply_on_message (msg : Msg) (x : Z) : Error + option Send :=
  match from msg with
  | None => inl TypeError
  | Some _ =>
      let rollValue :=
        match standard_die msg with
        | Some v => Some v
        | None => if is_roll_command msg then Some (roll x) else None
        end in
      match rollValue with
      | Some v =>
          inr (Some (mkSend (chat_id msg) (mention v) (Some (message_id msg))))
      | None => inr None
      end
  end.

(** part_004: [bot.onText(/\/roll/i, ...)]; the library calls the
    handler for a message whose text the expression matches. *)
Definition Simple_on_text (msg : Msg) (x : Z) : Error + option Send :=
  match text msg with
  | Some t =>
      if matches_word "/roll" t
      then match from msg with
           | None => inl TypeError
           | Some _ =>
               inr (Some (mkSend (chat_id msg) (decimal (roll x)) None))
           end
      else inr None
  | None => inr None
  end.

(** An answer with its message rewritten. *)
Definition answer_map (g : Send -> Send) (r : Error + option Send)
  : Error + option Send :=
  match r with
  | inr (Some s) => inr (Some (g s))
  | _ => r
  end.

(** A [/RoLl] from user 7 in chat 5; a die that landed on 3. *)
Definition roll_message : Msg := mkMsg 5 (Some 7) 41 None (Some "/RoLl").

Definition die_message : Msg :=
  mkMsg 5 (Some 7) 42 (Some (mkDice "🎲" 3)) None.

Definition rollback_message : Msg :=
  mkMsg 5 (Some 7) 43 None (Some "please /ROLLback now").

End Trigger.

(** *** The pool's TLS options *)

(** [process.env.DB_SSL === undefined ? true : (process.env.DB_SSL === 'true')] *)
Definition useSslHelper (DB_SSL : option string) : bool :=
  match DB_SSL with
  | None => true
  | Some s => String.eqb s "true"
  end.

Definition rejectUnauthorizedSslHelper (DB_REJECT_UNAUTHORIZED : option string)
  : bool :=
  match DB_REJECT_UNAUTHORIZED with
  | None => false
  | Some s => String.eqb s "true"
  end.

(** The [ssl] option handed to [new Pool]: [false], or
    [{ rejectUnauthorized }]. *)
Definition ssl_option (DB_SSL DB_REJECT_UNAUTHORIZED : option string)
  : option bool :=
  if useSslHelper DB_SSL
  then Some (rejectUnauthorizedSslHelper DB_REJECT_UNAUTHORIZED)
  else None.

(** ** The outcome of a row's own call *)

(** The batch a cycle claims in [w]: the rows its claim query returns
    when it gets that far. *)
Definition batch (env : Env) (MAX : JsInt) (w : World) : Table :=
  match limit_of MAX with
  | Some n => claimed_tuples (leased_elsewhere env) n (view w)
  | None => []
  end.

(** [t'] is [t], or [t] was pending, is the [i]-th row of the batch
    [claimed], and [t'] is [t] with the outcome of the [i]-th [sendDice]
    of the cycle, the call made for that row, stamped [now]. *)
Definition recorded_own_send (env : Env) (w : World) (claimed : Table)
    (t t' : Tuple) : Prop :=
  t' = t \/
  (status t = pending /\
   exists i, nth_error claimed i = Some t /\
     t' = mkTuple (cols t)
            (fst (outcome_of (channel env (n_sent w + i))))
            (snd (outcome_of (channel env (n_sent w + i))))
            (requested_at t) (Some (now env))).

(** ** Giving up at startup *)

(** [startHelperBot] gave up with no client checked out: [pool.end()]
    had nothing to wait for. *)
Definition exits_without_client (w : World)
    (r : Outcome (unit * Completion unit) * World) : Prop :=
  startup_failed w r /\ client_released (snd r) = true.

(** ** The command's spellings *)

(** The spellings of the [/roll] command. *)
Definition roll_spellings : list string :=
  ["/roll"; "/rolL"; "/roLl"; "/roLL"; "/rOll"; "/rOlL"; "/rOLl"; "/rOLL";
   "/Roll"; "/RolL"; "/RoLl"; "/RoLL"; "/ROll"; "/ROlL"; "/ROLl"; "/ROLL"].

(** ** Losing the connection

    [perform] gives what the promise of an operation settles with. When
    a query fails because the connection is lost, [pg] does one more
    thing: the client emits ['error']. A client that is checked out has
    no listener for that event in any of the scripts, so the event is an
    uncaught exception of the process, raised before the rejected
    promise is handled: the invocation's [catch] and [finally] have not
    run when the script's [uncaughtException] handler takes over. *)

(** How an invocation fares in its process. *)
Inductive Fate (A : Type) : Type :=
| Ran (o : Outcome A)
| Uncaught (e : Error).

Arguments Ran {A} o.
Arguments Uncaught {A} e.

(** [lost k]: the [k]-th store call, if it fails, fails by losing the
    connection. Only a query on a checked-out client can: a failed
    [pool.connect()] hands out no client. *)
Definition loses_connection (env : Env) (lost : nat -> bool) {R} (op : Op R)
    (w : World) : option Error :=
  match op with
  | client_query _ _ =>
      if lost (n_store w) then store_fault env (n_store w) else None
  | _ => None
  end.

Fixpoint run_in_process (env : Env) (lost : nat -> bool) {A} (m : IO A)
    (w : World) : Fate A * World :=
  match m with
  | Done a => (Ran (Settled a), w)
  | Halt c => (Ran (Exited c), record (EvExit c) w)
  | Call op k =>
      match loses_connection env lost op w with
      | Some e => (Uncaught e, snd (handle env op w))
      | None =>
          let rw := handle env op w in
          run_in_process env lost (k (fst rw)) (snd rw)
      end
  end.

(** No store call fails by losing the connection. *)
Definition connection_kept (env : Env) (lost : nat -> bool) : Prop :=
  forall k, store_fault env k <> None -> lost k = false.

(** The invocation ran to its end in the process, as [r]. *)
Definition ran_as {A} (p : Fate A * World) (r : Outcome A * World) : Prop :=
  p = (Ran (fst r), snd r).




(** Three pending rows, the second update is refused by the server, the
    connection stays. *)
Definition second_update_refused : Env :=
  mkEnv (fun k => if Nat.eqb k 4
                  then Some (mkError "deadlock detected" None)
                  else None)
        (fun _ => inr (Some (mkMessage (Some (mkDice "🎲" 4)))))
        None None (fun _ => 0) 1000 [].

Definition never_lost (_ : nat) : bool := false.

(** * Proofs *)

Lemma Status_eqb_eq a b : Status_eqb a b = true <-> a = b.
Proof. destruct a, b; simpl; split; congruence. Qed.

(** ** Reasoning about runs *)

Section Runs.
Variable env : Env.

(** Running a sequence is running its parts in turn; an exit stops it. *)
Lemma run_io_bind {A B} (m : IO A) (k : A -> IO B) (w : World) :
  run env (io_bind m k) w =
  match run env m w with
  | (Settled a, w') => run env (k a) w'
  | (Exited c, w') => (Exited c, w')
  end.
Proof.
  revert w. induction m as [a | c | R op k' IH]; intros w; simpl.
  - reflexivity.
  - reflexivity.
  - apply IH.
Qed.

Context {F : Type}.

(** Sequencing of statements: only a normal completion goes on. *)
Lemma run_bind {A B} (m : Stmt F A) (k : A -> Stmt F B) f w :
  run env (bind m k f) w =
  match run env (m f) w with
  | (Settled (f', Normal a), w') => run env (k a f') w'
  | (Settled (f', Return), w') => (Settled (f', Return), w')
  | (Settled (f', Thrown e), w') => (Settled (f', Thrown e), w')
  | (Exited c, w') => (Exited c, w')
  end.
Proof.
  unfold bind. rewrite run_io_bind.
  destruct (run env (m f) w) as [[[f' [a| |e]]|c] w']; reflexivity.
Qed.

(** The handler runs on a thrown completion of the body, and only then. *)
Lemma run_try_catch {A} (body : Stmt F A) handler f w :
  run env (try_catch body handler f) w =
  match run env (body f) w with
  | (Settled (f', Thrown e), w') => run env (handler e f') w'
  | r => r
  end.
Proof.
  unfold try_catch. rewrite run_io_bind.
  destruct (run env (body f) w) as [[[f' [a| |e]]|c] w']; reflexivity.
Qed.

(** The finalizer runs after the body, however it completed. *)
Lemma run_try_finally {A} (body : Stmt F A) fin f w :
  run env (try_finally body fin f) w =
  match run env (body f) w with
  | (Settled (f', c), w') =>
      match run env (fin f') w' with
      | (Settled (f'', Normal _), w'') => (Settled (f'', c), w'')
      | (Settled (f'', Return), w'') => (Settled (f'', Return), w'')
      | (Settled (f'', Thrown e), w'') => (Settled (f'', Thrown e), w'')
      | (Exited x, w'') => (Exited x, w'')
      end
  | (Exited x, w') => (Exited x, w')
  end.
Proof.
  unfold try_finally. rewrite run_io_bind.
  destruct (run env (body f) w) as [[[f' c]|x] w']; [|reflexivity].
  simpl. rewrite run_io_bind.
  destruct (run env (fin f') w') as [[[f'' [a| |e]]|x] w'']; reflexivity.
Qed.

Lemma run_await {R} (op : Op R) (f : F) w :
  run env (await op f) w =
  (Settled (f, match fst (perform env op w) with
               | inl e => Thrown e
               | inr v => Normal v
               end),
   record (Ev op (fst (perform env op w))) (snd (perform env op w))).
Proof. reflexivity. Qed.

Lemma run_ret {A} (a : A) (f : F) w :
  run env (ret a f) w = (Settled (f, Normal a), w).
Proof. reflexivity. Qed.

Lemma run_return {A} (f : F) w :
  run env (@return_ F A f) w = (Settled (f, Return), w).
Proof. reflexivity. Qed.

Lemma run_throw {A} e (f : F) w :
  run env (@throw F A e f) w = (Settled (f, Thrown e), w).
Proof. reflexivity. Qed.

Lemma run_get (f : F) w : run env (get f) w = (Settled (f, Normal f), w).
Proof. reflexivity. Qed.

Lemma run_modify g (f : F) w :
  run env (modify g f) w = (Settled (g f, Normal tt), w).
Proof. reflexivity. Qed.

Lemma run_console l t (f : F) w :
  run env (call (console l t) f) w =
  (Settled (f, Normal tt), record (Ev (console l t) (inr tt)) w).
Proof. reflexivity. Qed.

Lemma run_exit {A} c (f : F) w :
  run env (@process_exit F A c f) w = (Exited c, record (EvExit c) w).
Proof. reflexivity. Qed.

(** A store call on the client: the environment's fault, or the
    statement's own result. *)
Lemma run_query c q (f : F) w :
  run env (await (client_query c q) f) w =
  match store_fault env (n_store w) with
  | Some e =>
      (Settled (f, Thrown e),
       record (Ev (client_query c q) (inl e)) (count_store w))
  | None =>
      (Settled (f, match fst (exec_sql env q (count_store w)) with
                   | inl e => Thrown e
                   | inr v => Normal v
                   end),
       record (Ev (client_query c q) (fst (exec_sql env q (count_store w))))
         (snd (exec_sql env q (count_store w))))
  end.
Proof.
  rewrite run_await. cbn [perform]. unfold store_call.
  destruct (store_fault env (n_store w)); reflexivity.
Qed.

(** [release] on a client that was released already throws. *)
Lemma run_release c (f : F) w :
  run env (call (client_release c) f) w =
  if client_released w
  then (Settled (f, Thrown double_release),
        record (Ev (client_release c) (inl double_release)) w)
  else (Settled (f, Normal tt),
        record (Ev (client_release c) (inr tt)) (set_client_released true w)).
Proof.
  unfold call. rewrite run_await. cbn [perform].
  destruct (client_released w); reflexivity.
Qed.
End Runs.

(** A method call through [client]: a [TypeError] when it is null. *)
Lemma run_client_do env {R} (m : Client -> Op R) f w :
  run env (client_do m f) w =
  match client f with
  | Some c => run env (await (m c) f) w
  | None => (Settled (f, Thrown TypeError), w)
  end.
Proof.
  unfold client_do. rewrite run_bind, run_get.
  destruct (client f); reflexivity.
Qed.

(** Projections of an updated world or frame. *)
Ltac proj :=
  cbn [table txn client_released pool_ended polling active_timers
       dbPollingIntervalId isShuttingDownHelper n_store n_sent clock trace
       record count_store count_sent set_table set_txn set_client_released
       set_pool_ended set_polling set_active_timers set_dbPollingIntervalId
       set_isShuttingDownHelper set_view
       client rollValue updateStatus set_client set_rollValue set_updateStatus
       fst snd].

(** ** Each worker is an instance of the common cycle *)

Lemma AnimatedEmoji_cycle MAX :
  AnimatedEmoji.checkAndProcessRollRequests MAX =
  cycle true true AnimatedEmoji.processRequest MAX.
Proof. reflexivity. Qed.

Lemma AnimatedDice_cycle MAX :
  AnimatedDice.checkAndProcessRollRequests MAX =
  cycle false false AnimatedDice.processRequest MAX.
Proof. reflexivity. Qed.

Lemma DbPoll_cycle MAX :
  DbPoll.checkAndProcessRollRequests MAX =
  cycle false false DbPoll.processRequest MAX.
Proof. reflexivity. Qed.

(** [same_process] is reflexive and transitive. *)
Lemma same_process_refl w : same_process w w.
Proof. repeat split. Qed.

Lemma same_process_trans w1 w2 w3 :
  same_process w1 w2 -> same_process w2 w3 -> same_process w1 w3.
Proof.
  unfold same_process. intros (a1 & a2 & a3 & a4 & a5) (b1 & b2 & b3 & b4 & b5).
  repeat split; congruence.
Qed.

Section Loop.
Variable env : Env.
Variable Q : nat -> Status -> option Z -> Prop.
Variable sends : nat.
Variable body : request.t -> Stmt Frame unit.
Hypothesis body_step : row_step env Q sends body.

(** The [for] loop over the claimed rows, from any view [V] of the open
    transaction: it ends normally or with the first failing update, and
    its effect on the view is [loop_post]. *)
Lemma loop_run rows : forall f w c V,
  client f = Some c -> txn w = Some V ->
  exists f1 cpl w1 V1,
    run env (for_of rows body f) w = (Settled (f1, cpl), w1) /\
    client f1 = Some c /\
    txn w1 = Some V1 /\
    table w1 = table w /\
    client_released w1 = client_released w /\
    same_process w w1 /\
    loop_post env Q sends rows (n_sent w) (n_store w) V V1 cpl (n_store w1).
Proof.
  induction rows as [|row rest IH]; intros f w c V Hc Ht.
  - exists f, (Normal tt), w, V. simpl.
    split; [reflexivity|]. split; [assumption|]. split; [assumption|].
    split; [reflexivity|]. split; [reflexivity|].
    split; [apply same_process_refl|]. constructor.
  - simpl for_of. rewrite run_bind.
    destruct (body_step row f w Hc)
      as (f1 & cpl & w1 & st & v & Hrun & Hc1 & HQ & Hq & Hs & Hr & Hp & Hcase).
    rewrite Hrun.
    destruct (store_fault env (n_store w)) as [e|] eqn:Hf.
    + destruct Hcase as (-> & Htab & Htx).
      exists f1, (Thrown e), w1, V.
      split; [reflexivity|]. split; [assumption|]. split; [congruence|].
      split; [assumption|]. split; [assumption|]. split; [assumption|].
      rewrite Hq. now constructor.
    + cbv zeta in Hcase. destruct Hcase as (-> & Htab & Htx).
      unfold set_view, view in Htab, Htx. simpl in Htab, Htx.
      rewrite Ht in Htab, Htx.
      destruct (IH f1 w1 c _ Hc1 Htx)
        as (f2 & cpl & w2 & V2 & Hrun2 & Hc2 & Htx2 & Htab2 & Hr2 & Hp2 & Hpost).
      exists f2, cpl, w2, V2. rewrite Hrun2.
      split; [reflexivity|]. split; [assumption|]. split; [assumption|].
      split; [congruence|]. split; [congruence|].
      split; [eapply same_process_trans; eauto|].
      econstructor; eauto. rewrite Hs, Hq in Hpost. exact Hpost.
Qed.
End Loop.

(** ** The loop bodies *)

Ltac case_rowCount :=
  match goal with
  | |- context [(0 <? ?x)%nat] => destruct (0 <? x)%nat
  end.

Ltac step_done Hc HQ :=
  do 5 eexists; (split; [reflexivity|]); proj;
  split; [exact Hc|];
  split; [HQ|];
  split; [reflexivity|];
  split; [reflexivity|];
  split; [reflexivity|];
  split; [unfold same_process; proj; repeat split|];
  split; [reflexivity|]; split; reflexivity.

Ltac update_and_log env w Hc HQ :=
  rewrite run_bind, run_get, run_bind, run_client_do; proj; rewrite Hc;
  rewrite run_query; proj;
  destruct (store_fault env (n_store w)) eqn:?;
  [ step_done Hc HQ
  | cbn [exec_sql fst snd rowCount no_rows];
    case_rowCount; rewrite run_console; step_done Hc HQ ].

(** The three loop bodies are iterations in the sense of [row_step]. *)
Lemma AnimatedEmoji_row_step env :
  row_step env (channel_outcome env) 1 AnimatedEmoji.processRequest.
Proof.
  intros row f w c Hc. unfold AnimatedEmoji.processRequest, channel_outcome.
  rewrite run_bind, run_console.
  rewrite run_bind, run_modify.
  rewrite run_bind, run_modify.
  rewrite run_bind, run_try_catch.
  rewrite run_bind, run_console.
  rewrite run_bind, run_await. cbn [perform fst snd]. proj.
  destruct (channel env (n_sent w)) as [e|[[[d|]]|]] eqn:Hch.
  - rewrite run_bind, run_console.
    destruct (response_body e).
    + rewrite run_console. update_and_log env w Hc ltac:(reflexivity).
    + rewrite run_ret. update_and_log env w Hc ltac:(reflexivity).
  - rewrite run_bind, run_modify, run_bind, run_modify, run_console.
    update_and_log env w Hc ltac:(reflexivity).
  - rewrite run_console. update_and_log env w Hc ltac:(reflexivity).
  - rewrite run_console. update_and_log env w Hc ltac:(reflexivity).
Qed.

Lemma AnimatedDice_row_step env :
  row_step env (channel_outcome env) 1 AnimatedDice.processRequest.
Proof.
  intros row f w c Hc. unfold AnimatedDice.processRequest, channel_outcome.
  rewrite run_bind, run_console.
  rewrite run_bind, run_modify.
  rewrite run_bind, run_modify.
  rewrite run_bind, run_try_catch.
  rewrite run_bind, run_console.
  rewrite run_bind, run_await. cbn [perform fst snd]. proj.
  destruct (channel env (n_sent w)) as [e|[[[d|]]|]] eqn:Hch.
  - rewrite run_bind, run_console.
    destruct (response_body e).
    + rewrite run_console. update_and_log env w Hc ltac:(reflexivity).
    + rewrite run_ret. update_and_log env w Hc ltac:(reflexivity).
  - rewrite run_bind, run_modify, run_bind, run_modify, run_console.
    update_and_log env w Hc ltac:(reflexivity).
  - rewrite run_console. update_and_log env w Hc ltac:(reflexivity).
  - rewrite run_console. update_and_log env w Hc ltac:(reflexivity).
Qed.

(** *** The locally generated roll *)

(** Rounding the product to a double cannot reach 6: below [6 * 2^53]
    the exact product is at most [6 * 2^53 - 6], and the doubles just
    below 6 are 4 apart on this scale. *)
Lemma round_to_53_bits_below_6 n :
  0 <= n <= 6 * 2 ^ 53 - 6 -> 0 <= round_to_53_bits n < 6 * 2 ^ 53.
Proof.
  intros Hn. unfold round_to_53_bits.
  destruct (Z.leb_spec (Z.log2 n + 1) 53) as [Hb|Hb].
  - lia.
  - assert (H0 : 0 < n).
    { destruct (Z.eq_dec n 0) as [->|]; [simpl in Hb; lia | lia]. }
    assert (Hhi : Z.log2 n < 56).
    { apply Z.log2_lt_pow2; [lia|]. change (2 ^ 56) with (8 * 2 ^ 53). lia. }
    assert (Hs : Z.log2 n = 53 \/ Z.log2 n = 54 \/ Z.log2 n = 55) by lia.
    assert (Hup : n < 2 ^ (Z.log2 n + 1)).
    { apply Z.log2_spec. lia. }
    cbv zeta.
    destruct Hs as [Hs|[Hs|Hs]]; rewrite Hs in *.
    + change (53 + 1 - 53) with 1. change (1 - 1) with 0.
      rewrite Z.shiftr_div_pow2 by lia.
      rewrite !Z.shiftl_mul_pow2 by lia.
      change (2 ^ 1) with 2. change (2 ^ 0) with 1. change (2 ^ (53 + 1)) with (2 * 2 ^ 53) in Hup.
      pose proof (Z.div_mod n 2 ltac:(lia)) as Hdm.
      pose proof (Z.mod_pos_bound n 2 ltac:(lia)) as Hmod.
      destruct (_ || _); lia.
    + change (54 + 1 - 53) with 2. change (2 - 1) with 1.
      rewrite Z.shiftr_div_pow2 by lia.
      rewrite !Z.shiftl_mul_pow2 by lia.
      change (2 ^ 2) with 4. change (2 ^ 1) with 2. change (2 ^ (54 + 1)) with (4 * 2 ^ 53) in Hup.
      pose proof (Z.div_mod n 4 ltac:(lia)) as Hdm.
      pose proof (Z.mod_pos_bound n 4 ltac:(lia)) as Hmod.
      destruct (_ || _); lia.
    + change (55 + 1 - 53) with 3. change (3 - 1) with 2.
      rewrite Z.shiftr_div_pow2 by lia.
      rewrite !Z.shiftl_mul_pow2 by lia.
      change (2 ^ 3) with 8. change (2 ^ 2) with 4.
      pose proof (Z.div_mod n 8 ltac:(lia)) as Hdm.
      pose proof (Z.mod_pos_bound n 8 ltac:(lia)) as Hmod.
      destruct (_ || _) eqn:Hb'; [|lia].
      apply orb_true_iff in Hb'. destruct Hb' as [Hb'|Hb'].
      * apply Z.ltb_lt in Hb'. lia.
      * apply andb_true_iff in Hb'. destruct Hb' as [Hb' _].
        apply Z.eqb_eq in Hb'. lia.
Qed.

(** [Math.floor(Math.random() * 6) + 1] is one of 1..6. *)
Lemma local_roll_range x :
  1 <= Math_floor (times_6 (x mod 2 ^ 53)) + 1 <= 6.
Proof.
  unfold Math_floor, times_6.
  pose proof (Z.mod_pos_bound x (2 ^ 53) ltac:(lia)) as Hx.
  pose proof (round_to_53_bits_below_6 (n := 6 * (x mod 2 ^ 53)) ltac:(lia))
    as [Hlo Hhi].
  assert (0 <= round_to_53_bits (6 * (x mod 2 ^ 53)) / 2 ^ 53 < 6).
  { split; [apply Z.div_pos; lia | apply Z.div_lt_upper_bound; lia]. }
  lia.
Qed.

Lemma DbPoll_row_step env : row_step env local_roll 0 DbPoll.processRequest.
Proof.
  intros row f w c Hc. unfold DbPoll.processRequest.
  rewrite run_bind, run_console.
  rewrite run_bind. unfold call at 1. rewrite run_await. cbn [perform fst snd].
  rewrite run_bind, run_modify.
  rewrite run_bind, run_console.
  update_and_log env w Hc
    ltac:(split; [reflexivity|]; eexists; split; [reflexivity|];
          apply local_roll_range).
  Unshelve. exact 0.
Qed.

(** ** The cycle *)

(** Bookkeeping does not change what the connection sees. *)
Lemma view_record e w : view (record e w) = view w.
Proof. reflexivity. Qed.
Lemma view_count_store w : view (count_store w) = view w.
Proof. reflexivity. Qed.
Lemma view_set_txn t w : view (set_txn (Some t) w) = t.
Proof. reflexivity. Qed.

Lemma view_count_sent w : view (count_sent w) = view w.
Proof. reflexivity. Qed.
Lemma view_set_client_released b w : view (set_client_released b w) = view w.
Proof. reflexivity. Qed.

(** The claim query: a failure without a usable limit, the claimed rows
    otherwise. *)
Lemma exec_select env e MAX w :
  exec_sql env (selectQuery e MAX) w =
  match limit_of MAX with
  | None => (inl bad_limit, w)
  | Some n =>
      let got := claimed_tuples (leased_elsewhere env) n (view w) in
      (inr (mkResult (map (project e) got) (List.length got)), w)
  end.
Proof.
  destruct MAX as [|n]; simpl; [reflexivity|].
  destruct (n <? 0); reflexivity.
Qed.

Ltac views :=
  repeat first
    [ rewrite view_record | rewrite view_count_store | rewrite view_count_sent
    | rewrite view_set_client_released | rewrite view_set_txn ].

Tactic Notation "proj" "in" hyp(H) :=
  cbn [table txn client_released pool_ended polling active_timers
       dbPollingIntervalId isShuttingDownHelper n_store n_sent clock trace
       record count_store count_sent set_table set_txn set_client_released
       set_pool_ended set_polling set_active_timers set_dbPollingIntervalId
       set_isShuttingDownHelper set_view
       client rollValue updateStatus set_client set_rollValue set_updateStatus
       fst snd] in H.

Ltac same := unfold same_process; proj; repeat split; assumption.

(** The [catch] block with a client at hand: it issues [ROLLBACK], and
    completes normally whether the rollback succeeds or not. *)
Lemma on_cycle_error_run env e f w c :
  client f = Some c ->
  exists w1 r,
    run env (on_cycle_error e f) w = (Settled (f, Normal tt), w1) /\
    same_process w w1 /\ table w1 = table w /\
    client_released w1 = client_released w /\
    In (Ev (client_query c ROLLBACK) r) (trace w1) /\
    (forall x, r = inr x -> txn w1 = None).
Proof.
  intros Hc. unfold on_cycle_error.
  rewrite run_bind, run_console, run_bind, run_get, Hc.
  rewrite run_try_catch, run_bind, run_query. proj.
  destruct (store_fault env (n_store w)) as [e'|].
  - rewrite run_console.
    do 2 eexists. split; [reflexivity|].
    split; [same|]. proj.
    split; [reflexivity|]. split; [reflexivity|]. split.
    + apply in_or_app. left. apply in_or_app. right. left. reflexivity.
    + intros x Hx. discriminate Hx.
  - cbn [exec_sql fst snd]. rewrite run_console.
    do 2 eexists. split; [reflexivity|].
    split; [same|]. proj.
    split; [reflexivity|]. split; [reflexivity|]. split.
    + apply in_or_app. left. apply in_or_app. right. left. reflexivity.
    + intros x Hx. reflexivity.
Qed.

Section Cycle.
Variable env : Env.
Variable Q : nat -> Status -> option Z -> Prop.
Variable sends : nat.
Variable body : request.t -> Stmt Frame unit.
Hypothesis body_step : row_step env Q sends body.
Variables with_emoji early : bool.
Variable MAX : JsInt.

(** A loop ends normally or with a thrown exception. *)
Lemma loop_post_cpl rows s q V V1 cpl q1 :
  loop_post env Q sends rows s q V V1 cpl q1 ->
  (cpl = Normal tt /\ q1 = (q + List.length rows)%nat) \/
  (exists e k, cpl = Thrown e /\ (k < List.length rows)%nat /\
               store_fault env (q + k) = Some e /\ V1 = V1).
Proof.
  induction 1 as [s q V|row rest s q V e Hf|row rest s q V V1 st v cpl q1 Hf HQ Hp IH].
  - left. simpl. split; [reflexivity|lia].
  - right. exists e, 0%nat. simpl. rewrite Nat.add_0_r. repeat split; auto; lia.
  - destruct IH as [[-> ->]|(e & k & -> & Hk & Hfk & _)].
    + left. simpl. split; [reflexivity|lia].
    + right. exists e, (S k). simpl. replace (q + S k)%nat with (S q + k)%nat by lia.
      repeat split; auto; lia.
Qed.

(** From the claim's answer to the commit, inside the open transaction. *)
Lemma process_batch_run claimed f W c V :
  client f = Some c -> txn W = Some V -> client_released W = false ->
  exists f1 cpl1 w1,
    run env (process_batch early body
               (mkResult (map (project with_emoji) claimed)
                  (List.length claimed)) f) W
    = (Settled (f1, cpl1), w1) /\
    same_process W w1 /\ client f1 = Some c /\
    ( ((exists e, cpl1 = Thrown e) /\ table w1 = table W /\
       client_released w1 = false /\
       exists k, store_fault env (n_store W + k) <> None)
    \/ (store_fault env (n_store W + List.length claimed) = None /\
        loop_post env Q sends (map (project with_emoji) claimed)
          (n_sent W) (n_store W) V (table w1) (Normal tt)
          (n_store W + List.length claimed) /\
        txn w1 = None /\
        ((List.length claimed = 0%nat /\ cpl1 = Return /\
          client_released w1 = early) \/
         (List.length claimed <> 0%nat /\ cpl1 = Normal tt /\
          client_released w1 = false))) ).
Proof.
  intros Hc Htx Hr. unfold process_batch. cbn [rows].
  rewrite run_bind, length_map.
  destruct (List.length claimed =? 0)%nat eqn:Hlen.
  - (* an empty batch *)
    apply Nat.eqb_eq in Hlen.
    rewrite run_bind, run_client_do, Hc, run_query.
    destruct (store_fault env (n_store W)) as [e3|] eqn:Hf3.
    { do 3 eexists. split; [reflexivity|].
      split; [same|]. split; [exact Hc|].
      left. proj. repeat split; eauto. exists 0%nat.
      rewrite Nat.add_0_r. congruence. }
    cbn [exec_sql fst snd].
    assert (Hpost : loop_post env Q sends (map (project with_emoji) claimed)
              (n_sent W) (n_store W) V (view (count_store W)) (Normal tt)
              (n_store W + List.length claimed)).
    { destruct claimed; [|discriminate]. simpl. rewrite Nat.add_0_r.
      rewrite view_count_store. unfold view. rewrite Htx. constructor. }
    rewrite Hlen, Nat.add_0_r in *.
    destruct early.
    + rewrite run_bind, run_client_do, Hc.
      fold (@call Frame unit (client_release c)).
      rewrite run_release. proj. rewrite Hr.
      rewrite run_return.
      do 3 eexists. split; [reflexivity|].
      split; [same|]. split; [exact Hc|].
      right. proj. repeat split; auto.
    + rewrite run_return.
      do 3 eexists. split; [reflexivity|].
      split; [same|]. split; [exact Hc|].
      right. proj. repeat split; auto.
  - (* rows to process *)
    apply Nat.eqb_neq in Hlen.
    rewrite run_ret, run_bind, run_console, run_bind.
    destruct (loop_run body_step (map (project with_emoji) claimed)
                f (record (Ev (console console_log "[DB_POLL]") (inr tt)) W)
                Hc Htx)
      as (f3 & cpl3 & W3 & V3 & Hrun3 & Hc3 & Htx3 & Htab3 & Hr3 & Hp3 & Hpost).
    rewrite Hrun3. proj in Hpost. proj in Htab3. proj in Hr3.
    assert (HpW : same_process W W3).
    { eapply same_process_trans; [|exact Hp3]. same. }
    destruct (loop_post_cpl Hpost) as [[-> Hq3]|(e & k & -> & Hk & Hfk & _)].
    2:{ do 3 eexists. split; [reflexivity|].
        split; [exact HpW|]. split; [exact Hc3|].
        left. repeat split; eauto; try congruence.
        exists k. congruence. }
    rewrite length_map in Hq3.
    rewrite run_bind, run_client_do, Hc3, run_query, Hq3.
    destruct (store_fault env (n_store W + List.length claimed)) as [e4|] eqn:Hf4.
    { do 3 eexists. split; [reflexivity|].
      split; [eapply same_process_trans; [exact HpW|same]|].
      split; [exact Hc3|].
      left. proj. repeat split; eauto; try congruence.
      exists (List.length claimed). congruence. }
    cbn [exec_sql fst snd]. rewrite run_ret.
    do 3 eexists. split; [reflexivity|].
    split; [eapply same_process_trans; [exact HpW|same]|].
    split; [exact Hc3|].
    right. proj. rewrite view_count_store. unfold view. rewrite Htx3.
    rewrite Hq3 in Hpost.
    repeat split; auto. right. repeat split; auto. congruence.
Qed.

(** The [try] block: no client when the connect fails; a thrown
    completion with the table untouched when a later store call fails;
    the committed batch otherwise. *)
Lemma try_block_run f w :
  client f = None ->
  exists f1 cpl1 w1,
    run env (try_block with_emoji early body MAX f) w = (Settled (f1, cpl1), w1) /\
    same_process w w1 /\
    ( (client f1 = None /\ (exists e, cpl1 = Thrown e) /\
       table w1 = table w /\ txn w1 = txn w /\
       client_released w1 = client_released w /\
       (pool_ended w = true \/ store_fault env (n_store w) <> None))
    \/ (client f1 = Some (clock w) /\ (exists e, cpl1 = Thrown e) /\
        table w1 = table w /\ client_released w1 = false /\
        pool_ended w = false /\ store_fault env (n_store w) = None /\
        (limit_of MAX = None \/
         exists k, store_fault env (n_store w + k) <> None))
    \/ (exists n, client f1 = Some (clock w) /\ committed env Q sends with_emoji MAX w n w1 /\
        let len := List.length (claimed_tuples (leased_elsewhere env) n (view w)) in
        ((len = 0%nat /\ cpl1 = Return /\ client_released w1 = early) \/
         (len <> 0%nat /\ cpl1 = Normal tt /\ client_released w1 = false))) ).
Proof.
  intros Hc0. unfold try_block.
  rewrite run_bind, run_await. cbn [perform].
  destruct (pool_ended w) eqn:Hpe.
  { cbn [fst snd]. do 3 eexists. split; [reflexivity|]. proj.
    split; [same|].
    left. repeat split; eauto. }
  unfold store_call.
  destruct (store_fault env (n_store w)) as [e0|] eqn:Hf0.
  { cbn [fst snd]. do 3 eexists. split; [reflexivity|]. proj.
    split; [same|].
    left. repeat split; eauto. right. congruence. }
  cbn [fst snd]. proj.
  rewrite run_bind, run_modify.
  rewrite run_bind, run_client_do. proj.
  rewrite run_query. proj.
  destruct (store_fault env (S (n_store w))) as [e1|] eqn:Hf1.
  { do 3 eexists. split; [reflexivity|]. proj.
    split; [same|].
    right; left. repeat split; eauto. right. exists 1%nat.
    rewrite Nat.add_1_r. congruence. }
  cbn [exec_sql fst snd]. proj. views.
  rewrite run_bind, run_client_do. proj. rewrite run_query. proj.
  destruct (store_fault env (S (S (n_store w)))) as [e2|] eqn:Hf2.
  { do 3 eexists. split; [reflexivity|]. proj.
    split; [same|].
    right; left. repeat split; eauto. right. exists 2%nat.
    replace (n_store w + 2)%nat with (S (S (n_store w))) by lia. congruence. }
  rewrite exec_select. views.
  destruct (limit_of MAX) as [n|] eqn:Hlim.
  2:{ cbn [fst snd]. do 3 eexists. split; [reflexivity|]. proj.
      split; [same|].
      right; left. repeat split; eauto. }
  cbv zeta. cbn [fst snd].
  match goal with
  | |- context [run env (process_batch _ _ _ ?F) ?W] =>
      destruct (process_batch_run
                  (claimed_tuples (leased_elsewhere env) n (view w))
                  F W (c := clock w) (V := view w)
                  eq_refl eq_refl eq_refl)
        as (f1 & cpl1 & w1 & Hrun & Hp & Hc1 & Hcase)
  end.
  rewrite Hrun. proj in Hp. proj in Hcase.
  exists f1, cpl1, w1. split; [reflexivity|].
  split; [eapply same_process_trans; [|exact Hp]; same|].
  right.
  destruct Hcase as [(He & Htab & Hr & k & Hk)|(Hf3 & Hpost & Htx & Hlen)].
  - left. repeat split; auto. right. exists (3 + k)%nat.
    replace (n_store w + (3 + k))%nat with (S (S (S (n_store w + k)))) by lia.
    exact Hk.
  - right. exists n. split; [exact Hc1|]. split; [|exact Hlen].
    red. cbv zeta.
    replace (n_store w + 1)%nat with (S (n_store w)) by lia.
    replace (n_store w + 2)%nat with (S (S (n_store w))) by lia.
    replace (n_store w + 3)%nat with (S (S (S (n_store w)))) by lia.
    repeat split; auto.
Qed.

(** A cycle always settles. Either some call failed and the table is as
    it was, the promise fulfilled, the transaction rolled back and the
    client released; or the batch was committed and the client
    released, the cycle ending with the second release's exception when
    the empty branch had released it already. *)
Lemma cycle_run w :
  exists f1 cpl w1,
    run env (cycle with_emoji early body MAX entry) w = (Settled (f1, cpl), w1) /\
    same_process w w1 /\
    ( (table w1 = table w /\ cpl = Normal tt /\
       (pool_ended w = true \/ limit_of MAX = None \/
        exists k, store_fault env (n_store w + k) <> None) /\
       (pool_ended w = false -> store_fault env (n_store w) = None ->
        client_released w1 = true /\
        exists r, In (Ev (client_query (clock w) ROLLBACK) r) (trace w1) /\
                  (forall x, r = inr x -> txn w1 = None)))
    \/ (exists n, committed env Q sends with_emoji MAX w n w1 /\ client_released w1 = true /\
        cpl = if (List.length (claimed_tuples (leased_elsewhere env) n (view w))
                  =? 0)%nat
              then (if early then Thrown double_release else Return)
              else Normal tt) ).
Proof.
  unfold cycle, try_catch_finally.
  rewrite run_bind, run_modify, run_try_finally, run_try_catch.
  destruct (try_block_run (set_client None entry) w eq_refl)
    as (f1 & cpl1 & w1 & Hrun & Hp & Hcase).
  rewrite Hrun.
  destruct Hcase as [(Hc & (e & ->) & Htab & Htx & Hr & Hev)
                    |[(Hc & (e & ->) & Htab & Hr & Hpe & Hf0 & Hev)
                     |(n & Hc & Hcom & Hlen)]].
  - (* no client *)
    cbv beta iota. unfold on_cycle_error.
    rewrite run_bind, run_console, run_bind, run_get, Hc, run_ret.
    unfold release_client. rewrite run_bind, run_get, Hc, run_ret.
    do 3 eexists. split; [reflexivity|].
    split; [eapply same_process_trans; [exact Hp|same]|].
    left. proj. split; [exact Htab|]. split; [reflexivity|]. split.
    + destruct Hev as [Hev|Hev]; [left; exact Hev|].
      right; right. exists 0%nat. rewrite Nat.add_0_r. exact Hev.
    + intros Hpe Hf0. destruct Hev; congruence.
  - (* rolled back *)
    cbv beta iota.
    destruct (on_cycle_error_run env e f1 w1 Hc)
      as (w2 & r & Hrun2 & Hp2 & Htab2 & Hr2 & Hin & Htx2).
    rewrite Hrun2.
    unfold release_client. rewrite run_bind, run_get, Hc.
    rewrite run_release, Hr2, Hr.
    do 3 eexists. split; [reflexivity|].
    split; [eapply same_process_trans; [exact Hp|];
            eapply same_process_trans; [exact Hp2|same]|].
    left. proj. split; [congruence|]. split; [reflexivity|]. split.
    + destruct Hev as [Hev|Hev]; auto.
    + intros _ _. split; [reflexivity|]. exists r. split.
      * apply in_or_app. left. exact Hin.
      * exact Htx2.
  - (* committed *)
    cbv zeta in Hlen.
    unfold release_client.
    destruct Hlen as [(Hlen & -> & Hr)|(Hlen & -> & Hr)]; cbv beta iota;
      rewrite run_bind, run_get, Hc, run_release, Hr.
    + destruct early.
      * do 3 eexists. split; [reflexivity|].
        split; [eapply same_process_trans; [exact Hp|same]|].
        right. exists n. proj. split; [exact Hcom|]. split; [exact Hr|].
        rewrite Hlen. reflexivity.
      * do 3 eexists. split; [reflexivity|].
        split; [eapply same_process_trans; [exact Hp|same]|].
        right. exists n. proj. split; [exact Hcom|]. split; [reflexivity|].
        rewrite Hlen. reflexivity.
    + do 3 eexists. split; [reflexivity|].
      split; [eapply same_process_trans; [exact Hp|same]|].
      right. exists n. proj. split; [exact Hcom|]. split; [reflexivity|].
      destruct (List.length _); [congruence|reflexivity].
Qed.
End Cycle.

(** ** The claim query *)

(** Ordering by [requested_at] permutes and sorts. *)
Lemma insert_by_requested_at_perm t l :
  Permutation (insert_by_requested_at t l) (t :: l).
Proof.
  induction l as [|x l IH]; simpl.
  - reflexivity.
  - destruct (requested_at t <=? requested_at x).
    + reflexivity.
    + rewrite IH. apply perm_swap.
Qed.

Lemma order_by_requested_at_perm l : Permutation (order_by_requested_at l) l.
Proof.
  induction l as [|x l IH]; simpl.
  - reflexivity.
  - rewrite insert_by_requested_at_perm. now constructor.
Qed.

Lemma insert_by_requested_at_sorted t l :
  StronglySorted oldest_first l ->
  StronglySorted oldest_first (insert_by_requested_at t l).
Proof.
  induction 1 as [|x l Hs IH Hx]; simpl.
  - repeat constructor.
  - destruct (Z.leb_spec (requested_at t) (requested_at x)) as [Hle|Hgt].
    + constructor; [now constructor|].
      constructor; [exact Hle|].
      eapply Forall_impl; [|exact Hx]. unfold oldest_first. intros; lia.
    + constructor; [exact IH|].
      rewrite (insert_by_requested_at_perm t l).
      constructor; [unfold oldest_first; lia | exact Hx].
Qed.

Lemma order_by_requested_at_sorted l :
  StronglySorted oldest_first (order_by_requested_at l).
Proof.
  induction l as [|x l IH]; simpl.
  - constructor.
  - now apply insert_by_requested_at_sorted.
Qed.

Lemma StronglySorted_filter {A} (R : A -> A -> Prop) f l :
  StronglySorted R l -> StronglySorted R (filter f l).
Proof.
  induction 1 as [|x l Hs IH Hx]; simpl.
  - constructor.
  - destruct (f x); [|exact IH].
    constructor; [exact IH|].
    rewrite Forall_forall in *. intros y Hy. apply Hx.
    now apply filter_In in Hy.
Qed.

Lemma StronglySorted_firstn {A} (R : A -> A -> Prop) n l :
  StronglySorted R l -> StronglySorted R (firstn n l).
Proof.
  intros H. revert n. induction H as [|x l Hs IH Hx]; intros [|n]; simpl;
    try constructor.
  - apply IH.
  - rewrite Forall_forall in *. intros y Hy. apply Hx.
    rewrite <- (firstn_skipn n l). apply in_or_app. now left.
Qed.

Lemma In_firstn_in {A} n (l : list A) x : In x (firstn n l) -> In x l.
Proof.
  intros H. rewrite <- (firstn_skipn n l). apply in_or_app. now left.
Qed.

Lemma mem_id_In i l : mem_id i l = true <-> In i l.
Proof.
  unfold mem_id. rewrite existsb_exists. split.
  - intros (x & Hx & Heq). apply Z.eqb_eq in Heq. now subst.
  - intros H. exists i. split; [exact H | apply Z.eqb_refl].
Qed.

Lemma is_pending_status t : is_pending t = true <-> status t = pending.
Proof. apply Status_eqb_eq. Qed.

Lemma filter_length_perm {A} (f : A -> bool) l l' :
  Permutation l l' -> List.length (filter f l) = List.length (filter f l').
Proof.
  induction 1 as [|x l l' H IH|x y l|l l' l'' H1 IH1 H2 IH2]; simpl.
  - reflexivity.
  - destruct (f x); simpl; congruence.
  - destruct (f x), (f y); reflexivity.
  - congruence.
Qed.

(** The claimed tuples: at most [n], each in the table, pending and not
    locked elsewhere, oldest first, and as many as the limit and the
    claimable tuples allow. *)
Lemma claimed_tuples_spec leased n t :
  let got := claimed_tuples leased n t in
  (List.length got <= n)%nat /\
  Forall (fun x => In x t /\ status x = pending /\ ~ In (id_of x) leased) got /\
  StronglySorted oldest_first got /\
  List.length got = Nat.min n (List.length (filter (claimable leased) t)).
Proof.
  unfold claimed_tuples. cbv zeta. repeat split.
  - apply firstn_le_length.
  - apply Forall_forall. intros x Hx.
    apply In_firstn_in in Hx. apply filter_In in Hx. destruct Hx as [Hx Hl].
    apply (Permutation_in _ (order_by_requested_at_perm _)) in Hx.
    apply filter_In in Hx. destruct Hx as [Hx Hp].
    split; [exact Hx|]. split; [now apply is_pending_status|].
    intros Hin. apply mem_id_In in Hin. rewrite Hin in Hl. discriminate.
  - apply StronglySorted_firstn, StronglySorted_filter,
      order_by_requested_at_sorted.
  - rewrite length_firstn. f_equal.
    rewrite (filter_length_perm _ (order_by_requested_at_perm _)).
    unfold claimable. clear. induction t as [|x t IH]; simpl; [reflexivity|].
    destruct (is_pending x); simpl; [|exact IH].
    destruct (negb _); simpl; congruence.
Qed.

(** ** What a cycle writes *)

Lemma Forall2_recorded_refl P at_ V : Forall2 (recorded P at_) V V.
Proof. induction V; constructor; auto. now left. Qed.

(** An update with an allowed terminal outcome keeps [recorded]. *)
Lemma recorded_update P at_ st v id t0 t :
  P st v -> st <> pending ->
  recorded P at_ t0 t -> recorded P at_ t0 (update_tuple st v id at_ t).
Proof.
  intros HP Hst Hrec. unfold update_tuple, update_matches.
  destruct (id_of t =? id); simpl; [|exact Hrec].
  destruct (is_pending t) eqn:Hp; [|exact Hrec].
  apply Status_eqb_eq in Hp.
  destruct Hrec as [->|(Hp0 & st' & v' & HP' & Hst' & ->)].
  - right. split; [exact Hp|]. exists st, v. auto.
  - simpl in Hp. congruence.
Qed.

(** So does the loop. *)
Lemma loop_post_recorded env Q sends P rows s q V V1 cpl q1 V0 :
  (forall s st v, Q s st v -> P st v /\ st <> pending) ->
  loop_post env Q sends rows s q V V1 cpl q1 ->
  Forall2 (recorded P (now env)) V0 V ->
  Forall2 (recorded P (now env)) V0 V1.
Proof.
  intros HQ Hpost. revert V0.
  induction Hpost as [s q V|row rest s q V e Hf
                     |row rest s q V V1 st v cpl q1 Hf Hq Hp IH];
    intros V0 H0; auto.
  apply IH. destruct (HQ _ _ _ Hq) as [HP Hst].
  clear - H0 HP Hst. induction H0; simpl; constructor; auto.
  now apply recorded_update.
Qed.

Lemma channel_outcome_from_channel env s st v :
  channel_outcome env s st v -> outcome_from_channel env st v /\ st <> pending.
Proof.
  unfold channel_outcome, outcome_of, outcome_from_channel.
  destruct (channel env s) as [e|[[[d|]]|]] eqn:Hch; intros [= -> ->];
    split; try discriminate; eauto.
  left. split; [reflexivity|]. eauto.
Qed.

Lemma local_roll_outcome_local s st v :
  local_roll s st v -> outcome_local st v /\ st <> pending.
Proof.
  unfold local_roll, outcome_local. intros (-> & H). split; [auto|discriminate].
Qed.

(** What a cycle leaves in the table, whichever way it ends. *)
Lemma cycle_recorded env Q sends body with_emoji early MAX P w :
  row_step env Q sends body ->
  (forall s st v, Q s st v -> P st v /\ st <> pending) ->
  txn w = None ->
  Forall2 (recorded P (now env)) (table w)
    (table (snd (run env (cycle with_emoji early body MAX entry) w))).
Proof.
  intros Hstep HQ Htx.
  destruct (cycle_run Hstep with_emoji early MAX w)
    as (f1 & cpl & w1 & Hrun & _ & [(Htab & _)|(n & Hcom & _)]);
    rewrite Hrun; simpl.
  - rewrite Htab. apply Forall2_recorded_refl.
  - destruct Hcom as (_ & _ & _ & _ & _ & _ & Hpost & _).
    eapply loop_post_recorded; [exact HQ|exact Hpost|].
    unfold view. rewrite Htx. apply Forall2_recorded_refl.
Qed.

(** ** Every row of a batch gets its own outcome *)

(** An update keeps ids, leaves other tuples alone, and rewrites a
    pending tuple with the id. *)
Lemma id_of_update_tuple st v id at_ t :
  id_of (update_tuple st v id at_ t) = id_of t.
Proof. unfold update_tuple. destruct (update_matches id t); reflexivity. Qed.

Lemma update_tuple_other st v id at_ t :
  id_of t <> id -> update_tuple st v id at_ t = t.
Proof.
  intros H. unfold update_tuple, update_matches.
  destruct (Z.eqb_spec (id_of t) id); [contradiction|reflexivity].
Qed.

Lemma update_tuple_hit st v at_ t :
  status t = pending ->
  update_tuple st v (id_of t) at_ t
  = mkTuple (cols t) st v (requested_at t) (Some at_).
Proof.
  intros H. unfold update_tuple, update_matches.
  rewrite Z.eqb_refl. apply is_pending_status in H. now rewrite H.
Qed.

Lemma request_id_project e t : request.request_id (project e t) = id_of t.
Proof. reflexivity. Qed.

(** A tuple no row of the batch names survives the loop. *)
Lemma loop_post_keeps env Q sends rows s q V V1 cpl q1 T :
  loop_post env Q sends rows s q V V1 cpl q1 ->
  ~ In (id_of T) (map request.request_id rows) ->
  In T V -> In T V1.
Proof.
  induction 1 as [s q V|row rest s q V e Hf
                 |row rest s q V V1 st v cpl q1 Hf Hq Hp IH];
    intros Hid Hin; auto.
  apply IH.
  - intros H. apply Hid. right. exact H.
  - apply in_map_iff. exists T. split; [|exact Hin].
    apply update_tuple_other. intros Heq. apply Hid. left. now symmetry.
Qed.

(** After a loop that ended normally, every claimed tuple is in the view
    with the outcome of its own iteration. *)
Lemma loop_post_each_row env Q sends e claimed : forall s q V V1 q1,
  loop_post env Q sends (map (project e) claimed) s q V V1 (Normal tt) q1 ->
  NoDup (map id_of claimed) ->
  Forall (fun t => In t V /\ status t = pending) claimed ->
  forall i t, nth_error claimed i = Some t ->
  exists st v,
    Q (sends * i + s)%nat st v /\
    In (mkTuple (cols t) st v (requested_at t) (Some (now env))) V1.
Proof.
  induction claimed as [|t0 rest IH]; intros s q V V1 q1 Hpost Hnd Hall i t Hi.
  - destruct i; discriminate.
  - simpl in Hpost. inversion Hpost as [| |row rest' s' q' V' V1' st v cpl q1'
                                         Hf Hq Hp]; subst.
    simpl in Hnd. apply NoDup_cons_iff in Hnd. destruct Hnd as [Hnot Hnd].
    apply Forall_cons_iff in Hall. destruct Hall as [[Hin0 Hp0] Hall].
    rewrite request_id_project in Hp.
    destruct i as [|i]; simpl in Hi.
    + injection Hi as <-. exists st, v.
      rewrite Nat.mul_0_r. split; [exact Hq|].
      eapply loop_post_keeps; [exact Hp| |].
      * rewrite map_map. simpl. exact Hnot.
      * apply in_map_iff. exists t0. split; [|exact Hin0].
        now apply update_tuple_hit.
    + destruct (IH _ _ _ _ _ Hp Hnd) with (i := i) (t := t)
        as (st' & v' & Hq' & Hin'); [|exact Hi|].
      * apply Forall_forall. intros x Hx.
        rewrite Forall_forall in Hall. destruct (Hall x Hx) as [Hxin Hxp].
        split; [|exact Hxp].
        apply in_map_iff. exists x. split; [|exact Hxin].
        apply update_tuple_other. intros Heq. apply Hnot.
        rewrite <- Heq. now apply in_map.
      * exists st', v'. split; [|exact Hin'].
        replace (sends * S i + s)%nat with (sends * i + (sends + s))%nat by lia.
        exact Hq'.
Qed.

Lemma NoDup_map_filter {A B} (f : A -> B) g l :
  NoDup (map f l) -> NoDup (map f (filter g l)).
Proof.
  induction l as [|x l IH]; simpl; intros H; [constructor|].
  apply NoDup_cons_iff in H. destruct H as [Hx H].
  destruct (g x); simpl; auto.
  constructor; auto. intros Hin. apply Hx.
  apply in_map_iff in Hin. destruct Hin as (y & <- & Hy).
  apply in_map. now apply filter_In in Hy.
Qed.

Lemma NoDup_firstn {A} n (l : list A) : NoDup l -> NoDup (firstn n l).
Proof.
  intros H. rewrite <- (firstn_skipn n l) in H.
  now apply NoDup_app_remove_r in H.
Qed.

(** Claimed tuples are distinct when ids are. *)
Lemma claimed_tuples_NoDup leased n t :
  NoDup (map id_of t) -> NoDup (map id_of (claimed_tuples leased n t)).
Proof.
  intros H. unfold claimed_tuples. rewrite <- firstn_map. apply NoDup_firstn.
  apply NoDup_map_filter.
  eapply Permutation_NoDup.
  - apply Permutation_map. symmetry. apply order_by_requested_at_perm.
  - now apply NoDup_map_filter.
Qed.

(** Without store faults the loop ends normally. *)
Lemma loop_post_no_fault env Q sends rows s q V V1 q1 :
  loop_post env Q sends rows s q V V1 (Normal tt) q1 ->
  forall k, (k < List.length rows)%nat -> store_fault env (q + k) = None.
Proof.
  intros H.
  remember (Normal tt) as cpl eqn:Hc.
  induction H as [s q V|row rest s q V e Hf
                 |row rest s q V V1 st v cpl q1 Hf Hq Hp IH];
    intros k Hk; simpl in Hk; try lia; try discriminate.
  destruct k as [|k].
  - now rewrite Nat.add_0_r.
  - replace (q + S k)%nat with (S q + k)%nat by lia. apply IH; [exact Hc|lia].
Qed.

(** What a cycle does when nothing fails on the store side. *)
Lemma cycle_commits env Q sends body with_emoji early MAX n w :
  row_step env Q sends body ->
  pool_ended w = false ->
  limit_of MAX = Some n ->
  (forall k, store_fault env k = None) ->
  exists f1 cpl w1,
    run env (cycle with_emoji early body MAX entry) w = (Settled (f1, cpl), w1) /\
    committed env Q sends with_emoji MAX w n w1 /\
    cpl = if (List.length (claimed_tuples (leased_elsewhere env) n (view w))
              =? 0)%nat
          then (if early then Thrown double_release else Return)
          else Normal tt.
Proof.
  intros Hstep Hpe Hlim Hok.
  destruct (cycle_run Hstep with_emoji early MAX w)
    as (f1 & cpl & w1 & Hrun & _ & [(_ & _ & Hev & _)|(n' & Hcom & _ & Hcpl)]).
  - exfalso. destruct Hev as [Hev|[Hev|(k & Hk)]]; [congruence|congruence|].
    apply Hk, Hok.
  - assert (n' = n) as -> by (destruct Hcom as (Hl & _); congruence).
    eauto 8.
Qed.

Lemma outcome_of_failed a : channel_failed a -> outcome_of a = (error, None).
Proof.
  destruct a as [e|[[[d|]]|]]; simpl; intros H; try reflexivity; discriminate.
Qed.

Section PerRow.
Variable env : Env.
Variable body : request.t -> Stmt Frame unit.
Variables with_emoji early : bool.
Hypothesis body_step : row_step env (channel_outcome env) 1 body.

(** The [i]-th claimed row is recorded with the outcome of the [i]-th
    [sendDice] of the cycle. *)
Lemma animated_cycle_per_row MAX n w :
  txn w = None ->
  pool_ended w = false ->
  limit_of MAX = Some n ->
  (forall k, store_fault env k = None) ->
  NoDup (map id_of (table w)) ->
  forall i t,
    nth_error (claimed_tuples (leased_elsewhere env) n (table w)) i = Some t ->
    recorded_per_row env
      (table (snd (run env (cycle with_emoji early body MAX entry) w)))
      t (channel env (n_sent w + i)).
Proof.
  intros Htx Hpe Hlim Hok Hnd i t Hi.
  destruct (cycle_commits with_emoji early MAX w body_step Hpe Hlim Hok)
    as (f1 & cpl & w1 & Hrun & Hcom & _).
  rewrite Hrun. simpl. unfold recorded_per_row.
  destruct Hcom as (_ & _ & _ & _ & _ & _ & Hpost & _).
  unfold view in Hpost. rewrite Htx in Hpost.
  destruct (claimed_tuples_spec (leased_elsewhere env) n (table w))
    as (_ & Hall & _).
  edestruct loop_post_each_row as (st & v & Hq & Hin);
    [ exact Hpost
    | apply claimed_tuples_NoDup, Hnd
    | eapply Forall_impl; [|exact Hall]; intros x (Hx & Hp & _); auto
    | exact Hi
    | ].
  - unfold channel_outcome in Hq.
    replace (1 * i + n_sent w)%nat with (n_sent w + i)%nat in Hq by lia.
    rewrite <- Hq. simpl. split; [exact Hin|].
    intros Hfail. rewrite (outcome_of_failed _ Hfail) in Hq.
    injection Hq as -> ->. exact Hin.
Qed.
End PerRow.

(** ** A failing store call rolls the batch back *)

(** A store failure after the connect: the cycle rolls back. *)
Lemma cycle_rolls_back env Q sends body with_emoji early MAX w :
  row_step env Q sends body ->
  pool_ended w = false ->
  store_fault env (n_store w) = None ->
  cycle_fails env MAX w ->
  rolled_back w (run env (cycle with_emoji early body MAX entry) w).
Proof.
  intros Hstep Hpe Hf0 Hfail.
  destruct (cycle_run Hstep with_emoji early MAX w)
    as (f1 & cpl & w1 & Hrun & Hp
        & [(Htab & -> & _ & Hrb)|(n' & Hcom & _)]);
    rewrite Hrun.
  - destruct (Hrb Hpe Hf0) as (Hr & q & Hin & Htx).
    red. simpl. repeat split; eauto; apply Hp.
  - exfalso. destruct Hcom as (Hlim & _ & _ & Hf1 & Hf2 & Hf3 & Hpost & _).
    destruct Hfail as [Hnone|(n & k & Hn & Hk & Hfk)]; [congruence|].
    assert (n' = n) as -> by congruence.
    apply Hfk. clear Hfk.
    pose proof (loop_post_no_fault Hpost) as Hloop.
    rewrite length_map in Hloop.
    destruct (Nat.eq_dec k 1) as [->|]; [exact Hf1|].
    destruct (Nat.eq_dec k 2) as [->|]; [exact Hf2|].
    destruct (Nat.eq_dec k
                (3 + List.length
                       (claimed_tuples (leased_elsewhere env) n (view w))))
      as [->|].
    + rewrite Nat.add_assoc. exact Hf3.
    + replace (n_store w + k)%nat with (n_store w + 3 + (k - 3))%nat by lia.
      apply Hloop. lia.
Qed.

(** ** The plain worker only ever writes [completed] *)

Lemma Forall2_In_r {A B} (R : A -> B -> Prop) l l' y :
  Forall2 R l l' -> In y l' -> exists x, In x l /\ R x y.
Proof.
  induction 1 as [|a b l l' Hab H IH]; simpl; intros Hin; [contradiction|].
  destruct Hin as [->|Hin]; [eauto|].
  destruct (IH Hin) as (x & Hx & HR). eauto.
Qed.

(** ** Recording one outcome *)

Lemma view_set_view V w : view (set_view V w) = V.
Proof. unfold view, set_view. simpl. destruct (txn w); reflexivity. Qed.

Ltac update_then_log env w Hc Hf :=
  rewrite run_bind, run_get, run_bind, run_client_do; proj; rewrite Hc;
  rewrite run_query; proj; rewrite Hf;
  cbn [exec_sql fst snd rowCount no_rows]; views;
  match goal with
  | |- context [(0 <? ?n)%nat] =>
      let Hn := fresh "Hn" in
      destruct (0 <? n)%nat eqn:Hn; rewrite run_console;
      do 5 eexists; (split; [reflexivity|]); proj;
      (split; [exact Hc|]);
      (split; [views; rewrite view_set_view; views; reflexivity|]);
      unfold update_log; rewrite Hn; rewrite <- app_assoc; reflexivity
  end.

(** The loop bodies end with the update and the log line for its count. *)
Lemma AnimatedEmoji_records_outcome env :
  records_outcome env AnimatedEmoji.processRequest.
Proof.
  intros row f w c Hc Hf. unfold AnimatedEmoji.processRequest.
  rewrite run_bind, run_console.
  rewrite run_bind, run_modify.
  rewrite run_bind, run_modify.
  rewrite run_bind, run_try_catch.
  rewrite run_bind, run_console.
  rewrite run_bind, run_await. cbn [perform fst snd]. proj.
  destruct (channel env (n_sent w)) as [e|[[[d|]]|]] eqn:Hch.
  - rewrite run_bind, run_console.
    destruct (response_body e).
    + rewrite run_console. update_then_log env w Hc Hf.
    + rewrite run_ret. update_then_log env w Hc Hf.
  - rewrite run_bind, run_modify, run_bind, run_modify, run_console.
    update_then_log env w Hc Hf.
  - rewrite run_console. update_then_log env w Hc Hf.
  - rewrite run_console. update_then_log env w Hc Hf.
Qed.

Lemma DbPoll_records_outcome env : records_outcome env DbPoll.processRequest.
Proof.
  intros row f w c Hc Hf. unfold DbPoll.processRequest.
  rewrite run_bind, run_console.
  rewrite run_bind. unfold call at 1. rewrite run_await. cbn [perform fst snd].
  rewrite run_bind, run_modify.
  rewrite run_bind, run_console.
  update_then_log env w Hc Hf.
Qed.

Lemma update_tuple_unchanged st v id at_ t :
  id_of t <> id \/ status t <> pending -> update_tuple st v id at_ t = t.
Proof.
  intros H. unfold update_tuple, update_matches.
  destruct (Z.eqb_spec (id_of t) id) as [Heq|]; [|reflexivity].
  destruct (is_pending t) eqn:Hp; [|reflexivity].
  apply is_pending_status in Hp. destruct H; contradiction.
Qed.

(** An update that matches no tuple leaves the view as it was. *)
Lemma no_match_no_change st v id at_ V :
  filter (update_matches id) V = [] -> map (update_tuple st v id at_) V = V.
Proof.
  induction V as [|t V IH]; simpl; [reflexivity|].
  unfold update_tuple at 1. destruct (update_matches id t); [discriminate|].
  intros H. now rewrite IH.
Qed.

(** After an iteration that ended normally the loop takes the next row. *)
Lemma loop_goes_on env (body : request.t -> Stmt Frame unit) row rest f w f1 w1 :
  run env (body row f) w = (Settled (f1, Normal tt), w1) ->
  run env (for_of (row :: rest) body f) w = run env (for_of rest body f1) w1.
Proof. intros H. simpl for_of. rewrite run_bind, H. reflexivity. Qed.

Lemma records_outcome_if_pending env body row f w c :
  records_outcome env body ->
  client f = Some c ->
  store_fault env (n_store w) = None ->
  outcome_recorded_if_pending env body row f w c.
Proof.
  intros Hbody Hc Hf.
  destruct (Hbody row f w c Hc Hf)
    as (f1 & w1 & st & v & tr & Hrun & Hc1 & Hview & Htr).
  exists f1, w1, st, v, tr.
  split; [exact Hrun|].
  split; [intros rest; now apply loop_goes_on|].
  split; [exact Hview|].
  split; [intros t; apply update_tuple_unchanged|].
  split; [intros t <- Hp; now apply update_tuple_hit|].
  split; [exact Htr|].
  intros Hn. split.
  - rewrite Hview. apply no_match_no_change.
    now apply length_zero_iff_nil.
  - now rewrite Hn.
Qed.

(** ** What is sent to the channel *)

Lemma sends_of_app tr tr' : sends_of (tr ++ tr') = sends_of tr ++ sends_of tr'.
Proof. apply flat_map_app. Qed.

(** [a || d] is never empty for a non-empty default, and is the default
    for a falsy [a]. *)
Lemma js_or_nonempty a d : d <> EmptyString -> js_or a d <> EmptyString.
Proof.
  intros Hd. unfold js_or. destruct a as [s|]; [|exact Hd].
  destruct (String.eqb_spec s EmptyString); auto.
Qed.

Lemma js_or_falsy a d : a = None \/ a = Some EmptyString -> js_or a d = d.
Proof. intros [->| ->]; reflexivity. Qed.

Ltac sends_done :=
  proj; rewrite !sends_of_app; cbn [sends_of flat_map sent_to app];
  rewrite ?app_nil_r; reflexivity.

Ltac update_any env w :=
  rewrite run_bind, run_get, run_bind, run_client_do; proj;
  match goal with
  | |- context [client ?f] => destruct (client f)
  end;
  [ rewrite run_query; proj;
    destruct (store_fault env (n_store w));
    [ sends_done
    | cbn [exec_sql fst snd rowCount no_rows];
      case_rowCount; rewrite run_console; sends_done ]
  | sends_done ].

(** An iteration of the animated-emoji worker calls [sendDice] once,
    with [emojiToSend]. *)
Lemma AnimatedEmoji_sends env row f w :
  sends_of (trace (snd (run env (AnimatedEmoji.processRequest row f) w)))
  = sends_of (trace w)
    ++ [(request.chat_id row, Some (AnimatedEmoji.emojiToSend row))].
Proof.
  unfold AnimatedEmoji.processRequest.
  rewrite run_bind, run_console.
  rewrite run_bind, run_modify.
  rewrite run_bind, run_modify.
  rewrite run_bind, run_try_catch.
  rewrite run_bind, run_console.
  rewrite run_bind, run_await. cbn [perform fst snd]. proj.
  destruct (channel env (n_sent w)) as [e|[[[d|]]|]] eqn:Hch.
  - rewrite run_bind, run_console.
    destruct (response_body e).
    + rewrite run_console. update_any env w.
    + rewrite run_ret. update_any env w.
  - rewrite run_bind, run_modify, run_bind, run_modify, run_console.
    update_any env w.
  - rewrite run_console. update_any env w.
  - rewrite run_console. update_any env w.
Qed.

(** ** Releasing the client *)

(** On every run that claims nothing and meets no failure the
    animated-emoji cycle ends with the exception of the second release. *)
Lemma empty_batch_double_release env MAX n w :
  pool_ended w = false ->
  limit_of MAX = Some n ->
  (forall k, store_fault env k = None) ->
  claimed_tuples (leased_elsewhere env) n (view w) = [] ->
  exists f,
    fst (run env (AnimatedEmoji.checkAndProcessRollRequests MAX entry) w)
    = Settled (f, Thrown double_release).
Proof.
  intros Hpe Hlim Hok Hnone. rewrite AnimatedEmoji_cycle.
  destruct (@cycle_commits env (channel_outcome env) 1%nat
              AnimatedEmoji.processRequest true true MAX n w
              (AnimatedEmoji_row_step env) Hpe Hlim Hok)
    as (f1 & cpl & w1 & Hrun & _ & Hcpl).
  rewrite Hrun, Hcpl, Hnone. simpl. eauto.
Qed.

(** ** Startup *)

Lemma run_connect env F (f : F) w :
  run env (await pool_connect f) w =
  if pool_ended w
  then (Settled (f, Thrown pool_closed),
        record (Ev pool_connect (inl pool_closed)) w)
  else match store_fault env (n_store w) with
       | Some e =>
           (Settled (f, Thrown e), record (Ev pool_connect (inl e)) (count_store w))
       | None =>
           (Settled (f, Normal (clock w)),
            record (Ev pool_connect (inr (clock w)))
              (set_client_released false (count_store w)))
       end.
Proof.
  rewrite run_await. cbn [perform]. unfold store_call.
  destruct (pool_ended w); [reflexivity|].
  destruct (store_fault env (n_store w)); reflexivity.
Qed.

Lemma run_getMe env F (f : F) w :
  run env (await bot_getMe f) w =
  match getMe_fault env with
  | Some e => (Settled (f, Thrown e), record (Ev bot_getMe (inl e)) w)
  | None => (Settled (f, Normal tt), record (Ev bot_getMe (inr tt)) w)
  end.
Proof.
  rewrite run_await. cbn [perform]. destruct (getMe_fault env); reflexivity.
Qed.

Lemma run_set_interval env F (f : F) w :
  run env (call set_Interval f) w =
  (Settled (f, Normal (clock w)),
   record (Ev set_Interval (inr (clock w)))
     (set_active_timers (clock w :: active_timers w) w)).
Proof. reflexivity. Qed.

Lemma run_write_interval env F v (f : F) w :
  run env (call (write_IntervalId v) f) w =
  (Settled (f, Normal tt),
   record (Ev (write_IntervalId v) (inr tt)) (set_dbPollingIntervalId v w)).
Proof. reflexivity. Qed.

Ltac start_up env w Hpe Hf0 Hf1 Hme :=
  rewrite run_bind, run_console;
  rewrite run_bind, run_console;
  rewrite run_try_catch;
  rewrite run_bind, run_console;
  rewrite run_bind, run_connect; proj; rewrite Hpe, Hf0;
  rewrite run_bind, run_console;
  rewrite run_bind, run_query; proj; rewrite Hf1;
  cbn [exec_sql fst snd]; proj;
  rewrite run_bind, run_console;
  rewrite run_bind, run_release; proj;
  rewrite run_bind, run_console;
  rewrite run_bind, run_getMe, Hme;
  rewrite run_bind, run_console;
  rewrite run_bind, run_set_interval; proj;
  rewrite run_bind, run_write_interval;
  rewrite run_bind, run_console;
  rewrite run_console;
  red; proj; repeat split;
  rewrite ?Nat.add_succ_r, ?Nat.add_0_r; reflexivity.

(** With the store and Telegram reachable, [startHelperBot] sets the
    poll timer and keeps its id. *)
Lemma startHelperBot_starts_polling env w :
  pool_ended w = false ->
  store_fault env (n_store w) = None ->
  store_fault env (S (n_store w)) = None ->
  getMe_fault env = None ->
  polling_started w (run env (AnimatedEmoji.startHelperBot tt) w) /\
  polling_started w (run env (AnimatedDice.startHelperBot tt) w).
Proof.
  intros Hpe Hf0 Hf1 Hme. split.
  - unfold AnimatedEmoji.startHelperBot. start_up env w Hpe Hf0 Hf1 Hme.
  - unfold AnimatedDice.startHelperBot. start_up env w Hpe Hf0 Hf1 Hme.
Qed.

(** ** Shutdown *)

Section ShutdownRuns.
Variable env : Env.
Context {F : Type}.

Lemma run_read_flag (f : F) w :
  run env (call read_isShuttingDownHelper f) w =
  (Settled (f, Normal (isShuttingDownHelper w)),
   record (Ev read_isShuttingDownHelper (inr (isShuttingDownHelper w))) w).
Proof. reflexivity. Qed.

Lemma run_write_flag b (f : F) w :
  run env (call (write_isShuttingDownHelper b) f) w =
  (Settled (f, Normal tt),
   record (Ev (write_isShuttingDownHelper b) (inr tt))
     (set_isShuttingDownHelper b w)).
Proof. reflexivity. Qed.

Lemma run_read_interval (f : F) w :
  run env (call read_IntervalId f) w =
  (Settled (f, Normal (dbPollingIntervalId w)),
   record (Ev read_IntervalId (inr (dbPollingIntervalId w))) w).
Proof. reflexivity. Qed.

Lemma run_clear_interval i (f : F) w :
  run env (call (clear_Interval i) f) w =
  (Settled (f, Normal tt),
   record (Ev (clear_Interval i) (inr tt))
     (set_active_timers
        (filter (fun j => negb (Nat.eqb j i)) (active_timers w)) w)).
Proof. reflexivity. Qed.

Lemma run_isPolling (f : F) w :
  run env (call bot_isPolling f) w =
  (Settled (f, Normal (polling w)), record (Ev bot_isPolling (inr (polling w))) w).
Proof. reflexivity. Qed.

Lemma run_stopPolling (f : F) w :
  run env (await bot_stopPolling f) w =
  match stopPolling_fault env with
  | Some e => (Settled (f, Thrown e), record (Ev bot_stopPolling (inl e)) w)
  | None =>
      (Settled (f, Normal tt),
       record (Ev bot_stopPolling (inr tt)) (set_polling false w))
  end.
Proof.
  rewrite run_await. cbn [perform].
  destruct (stopPolling_fault env); reflexivity.
Qed.

Lemma run_pool_end (f : F) w :
  run env (await pool_end f) w =
  if pool_ended w
  then (Settled (f, Thrown pool_closed), record (Ev pool_end (inl pool_closed)) w)
  else match store_fault env (n_store w) with
       | Some e =>
           (Settled (f, Thrown e), record (Ev pool_end (inl e)) (count_store w))
       | None =>
           (Settled (f, Normal tt),
            record (Ev pool_end (inr tt)) (set_pool_ended true (count_store w)))
       end.
Proof.
  rewrite run_await. cbn [perform]. unfold store_call.
  destruct (pool_ended w); [reflexivity|].
  destruct (store_fault env (n_store w)); reflexivity.
Qed.
End ShutdownRuns.

Lemma actions_of_app tr tr' :
  actions_of (tr ++ tr') = actions_of tr ++ actions_of tr'.
Proof. apply flat_map_app. Qed.

Lemma not_in_cleared i l : ~ In i (filter (fun j => negb (Nat.eqb j i)) l).
Proof.
  intros H. apply filter_In in H. destruct H as [_ H].
  rewrite Nat.eqb_refl in H. discriminate.
Qed.

Ltac actions :=
  proj; rewrite !actions_of_app; cbn [actions_of flat_map action_of app];
  rewrite ?app_nil_r, <- ?app_assoc; cbn [app]; reflexivity.

(** A signal while the flag is set: log and return. *)
Lemma shutdownHelper_in_progress env signal w :
  isShuttingDownHelper w = true ->
  no_further_action w (run env (AnimatedEmoji.shutdownHelper signal tt) w).
Proof.
  intros Hflag. unfold AnimatedEmoji.shutdownHelper.
  rewrite run_bind, run_read_flag, Hflag.
  rewrite run_bind, run_bind, run_console, run_return.
  red. cbn [fst snd]. split; [reflexivity|].
  split; [actions|]. proj. repeat split; auto.
Qed.

Lemma shutdown_in_progress env signal w :
  isShuttingDownHelper w = true ->
  no_further_action w (run env (AnimatedDice.shutdown signal tt) w).
Proof.
  intros Hflag. unfold AnimatedDice.shutdown.
  rewrite run_bind, run_read_flag, Hflag.
  rewrite run_bind, run_bind, run_console, run_return.
  red. cbn [fst snd]. split; [reflexivity|].
  split; [actions|]. proj. repeat split; auto.
Qed.

Ltac shut_done Hid Hpoll :=
  rewrite run_bind, run_console, run_exit;
  red; cbn [fst snd]; split; [reflexivity|];
  split; [rewrite Hid, Hpoll; actions|];
  proj; split; [reflexivity|];
  split; [let j := fresh "j" in let Hj := fresh "Hj" in
          intros j Hj; rewrite Hid in Hj;
          first [discriminate Hj
                | injection Hj as <-; apply not_in_cleared]|];
  split; [intros H; first [reflexivity | congruence | exact Hpoll]|];
  intros H; first [reflexivity | congruence].

Ltac close_pool env w Hid Hpoll :=
  rewrite run_bind, run_try_catch, run_bind, run_pool_end; proj;
  destruct (pool_ended w) eqn:Hpe;
  [ rewrite run_console; shut_done Hid Hpoll
  | destruct (store_fault env (n_store w)) eqn:Hf;
    rewrite run_console; shut_done Hid Hpoll ].

(** The first signal. *)
Lemma shutdownHelper_first env signal w :
  isShuttingDownHelper w = false ->
  shuts_down env w (run env (AnimatedEmoji.shutdownHelper signal tt) w).
Proof.
  intros Hflag. unfold AnimatedEmoji.shutdownHelper.
  rewrite run_bind, run_read_flag, Hflag.
  rewrite run_bind, run_ret.
  rewrite run_bind, run_write_flag.
  rewrite run_bind, run_console.
  rewrite run_bind, run_read_interval. proj.
  rewrite run_bind.
  destruct (dbPollingIntervalId w) as [i|] eqn:Hid.
  - rewrite run_clear_interval.
    rewrite run_bind, run_console.
    rewrite run_bind, run_isPolling. proj.
    rewrite run_bind.
    destruct (polling w) eqn:Hpoll.
    + rewrite run_try_catch, run_bind, run_stopPolling.
      destruct (stopPolling_fault env) eqn:Hsp; rewrite run_console;
        close_pool env w Hid Hpoll.
    + rewrite run_ret. close_pool env w Hid Hpoll.
  - rewrite run_ret.
    rewrite run_bind, run_console.
    rewrite run_bind, run_isPolling. proj.
    rewrite run_bind.
    destruct (polling w) eqn:Hpoll.
    + rewrite run_try_catch, run_bind, run_stopPolling.
      destruct (stopPolling_fault env) eqn:Hsp; rewrite run_console;
        close_pool env w Hid Hpoll.
    + rewrite run_ret. close_pool env w Hid Hpoll.
Qed.

Lemma shutdown_first env signal w :
  isShuttingDownHelper w = false ->
  shuts_down env w (run env (AnimatedDice.shutdown signal tt) w).
Proof.
  intros Hflag. unfold AnimatedDice.shutdown.
  rewrite run_bind, run_read_flag, Hflag.
  rewrite run_bind, run_ret.
  rewrite run_bind, run_write_flag.
  rewrite run_bind, run_console.
  rewrite run_bind, run_read_interval. proj.
  rewrite run_bind.
  destruct (dbPollingIntervalId w) as [i|] eqn:Hid.
  - rewrite run_bind, run_clear_interval, run_console.
    rewrite run_bind, run_isPolling. proj.
    rewrite run_bind.
    destruct (polling w) eqn:Hpoll.
    + rewrite run_try_catch, run_bind, run_stopPolling.
      destruct (stopPolling_fault env) eqn:Hsp; rewrite run_console;
        close_pool env w Hid Hpoll.
    + rewrite run_ret. close_pool env w Hid Hpoll.
  - rewrite run_ret.
    rewrite run_bind, run_isPolling. proj.
    rewrite run_bind.
    destruct (polling w) eqn:Hpoll.
    + rewrite run_try_catch, run_bind, run_stopPolling.
      destruct (stopPolling_fault env) eqn:Hsp; rewrite run_console;
        close_pool env w Hid Hpoll.
    + rewrite run_ret. close_pool env w Hid Hpoll.
Qed.

(** ** Each row gets the outcome of its own call *)

(** [recorded], with what is allowed depending on the tuple. *)
Lemma recorded_update_hit (P : Tuple -> Status -> option Z -> Prop)
    at_ st v id t0 t :
  (id_of t0 = id -> P t0 st v) -> st <> pending ->
  recorded (P t0) at_ t0 t ->
  recorded (P t0) at_ t0 (update_tuple st v id at_ t).
Proof.
  intros HP Hst Hrec. unfold update_tuple, update_matches.
  destruct (Z.eqb_spec (id_of t) id) as [Hid|Hid]; simpl; [|exact Hrec].
  destruct (is_pending t) eqn:Hp; [|exact Hrec].
  apply Status_eqb_eq in Hp.
  destruct Hrec as [->|(Hp0 & st' & v' & HP' & Hst' & ->)].
  - right. split; [exact Hp|]. exists st, v. auto.
  - simpl in Hp. congruence.
Qed.

Lemma Forall2_recorded_row_refl (P : Tuple -> Status -> option Z -> Prop)
    at_ V :
  Forall2 (fun t t' => recorded (P t) at_ t t') V V.
Proof. induction V; constructor; auto. now left. Qed.

(** What the loop writes into a tuple is what [Q] gives for the
    iteration of a row with the tuple's id. *)
Lemma loop_post_recorded_row env Q sends
    (P : Tuple -> Status -> option Z -> Prop) rows s q V V1 cpl q1 :
  (forall s st v, Q s st v -> st <> pending) ->
  loop_post env Q sends rows s q V V1 cpl q1 ->
  (forall i row st v t,
     nth_error rows i = Some row -> request.request_id row = id_of t ->
     Q (sends * i + s)%nat st v -> P t st v) ->
  forall V0,
    Forall2 (fun t t' => recorded (P t) (now env) t t') V0 V ->
    Forall2 (fun t t' => recorded (P t) (now env) t t') V0 V1.
Proof.
  intros HQ Hpost.
  induction Hpost as [s q V|row rest s q V e Hf
                     |row rest s q V V1 st v cpl q1 Hf Hq Hp IH];
    intros HP V0 H0; auto.
  apply IH.
  - intros i row' st' v' t Hi Hid Hq'.
    apply (HP (S i) row' st' v' t Hi Hid).
    replace (sends * S i + s)%nat with (sends * i + (sends + s))%nat by lia.
    exact Hq'.
  - assert (Hst := HQ _ _ _ Hq).
    assert (Hrow : forall t, id_of t = request.request_id row -> P t st v).
    { intros t Hid. apply (HP 0%nat row st v t eq_refl (eq_sym Hid)).
      rewrite Nat.mul_0_r. exact Hq. }
    clear - H0 Hrow Hst. induction H0; simpl; constructor; auto.
    apply recorded_update_hit; auto.
Qed.

Lemma Forall2_impl_In {A B} (R R' : A -> B -> Prop) l l' :
  (forall x y, In x l -> R x y -> R' x y) ->
  Forall2 R l l' -> Forall2 R' l l'.
Proof.
  intros H HF. induction HF as [|x y l l' Hxy HF IH]; constructor.
  - apply H; [left; reflexivity|exact Hxy].
  - apply IH. intros a b Ha. apply H. right. exact Ha.
Qed.

Lemma NoDup_map_same {A B} (f : A -> B) l x y :
  NoDup (map f l) -> In x l -> In y l -> f x = f y -> x = y.
Proof.
  induction l as [|a l IH]; intros Hnd Hx Hy Hf; [destruct Hx|].
  cbn [map] in Hnd. apply NoDup_cons_iff in Hnd. destruct Hnd as [Hna Hnd].
  destruct Hx as [->|Hx], Hy as [->|Hy]; auto.
  - exfalso. apply Hna. rewrite Hf. now apply in_map.
  - exfalso. apply Hna. rewrite <- Hf. now apply in_map.
Qed.

(** On a table with unique ids a cycle of an animated worker records,
    for each row it changes, the outcome of that row's own
    [sendDice]. *)
Lemma cycle_recorded_own_send env body with_emoji early MAX w :
  row_step env (channel_outcome env) 1 body ->
  txn w = None ->
  NoDup (map id_of (table w)) ->
  Forall2 (recorded_own_send env w (batch env MAX w)) (table w)
    (table (snd (run env (cycle with_emoji early body MAX entry) w))).
Proof.
  intros Hstep Htx Hnd.
  assert (Hrefl : forall env' w' c V, Forall2 (recorded_own_send env' w' c) V V).
  { intros env' w' c V. induction V; constructor; auto. now left. }
  destruct (cycle_run Hstep with_emoji early MAX w)
    as (f1 & cpl & w1 & Hrun & _ & [(Htab & _)|(n & Hcom & _)]);
    rewrite Hrun; cbn [snd].
  - rewrite Htab. apply Hrefl.
  - destruct Hcom as (Hlim & _ & _ & _ & _ & _ & Hpost & _).
    unfold batch. rewrite Hlim.
    unfold view in Hpost |- *. rewrite Htx in Hpost |- *.
    set (claimed := claimed_tuples (leased_elsewhere env) n (table w)) in *.
    pose (P := fun (t : Tuple) (st : Status) (v : option Z) =>
                 exists i ti, nth_error claimed i = Some ti /\
                   id_of ti = id_of t /\
                   (st, v) = outcome_of (channel env (n_sent w + i))).
    assert (H : Forall2 (fun t t' => recorded (P t) (now env) t t')
                  (table w) (table w1)).
    { refine (@loop_post_recorded_row env (channel_outcome env) 1%nat P
                _ _ _ _ _ _ _ _ Hpost _ (table w) _).
      - intros s st v Hq. apply (channel_outcome_from_channel Hq).
      - intros i row st v t Hi Hid Hq.
        rewrite nth_error_map in Hi.
        destruct (nth_error claimed i) as [ti|] eqn:Hti; [|discriminate].
        injection Hi as <-. rewrite request_id_project in Hid.
        exists i, ti. split; [exact Hti|]. split; [exact Hid|].
        replace (n_sent w + i)%nat with (1 * i + n_sent w)%nat by lia.
        exact Hq.
      - apply Forall2_recorded_row_refl. }
    eapply Forall2_impl_In; [|exact H].
    intros t t' Hin [->|(Hp & st & v & (i & ti & Hi & Hid & Hout) & _ & ->)];
      [now left|].
    right. split; [exact Hp|]. exists i.
    assert (ti = t) as ->.
    { apply (NoDup_map_same id_of (table w)); auto.
      destruct (claimed_tuples_spec (leased_elsewhere env) n (table w))
        as (_ & Hall & _).
      rewrite Forall_forall in Hall.
      apply nth_error_In in Hi. apply (Hall _ Hi). }
    split; [exact Hi|]. rewrite <- Hout. reflexivity.
Qed.

(** ** Losing the connection *)

(** While the connection is kept an invocation fares in its process as
    [run] says. *)
Lemma run_in_process_kept env lost A (m : IO A) :
  connection_kept env lost ->
  forall w, ran_as (run_in_process env lost m w) (run env m w).
Proof.
  intros Hkept. unfold ran_as.
  induction m as [a|c|R op k IH]; intros w; cbn [run_in_process run fst snd];
    try reflexivity.
  assert (Hno : loses_connection env lost op w = None).
  { destruct op; cbn [loses_connection]; try reflexivity.
    destruct (lost (n_store w)) eqn:Hl; [|reflexivity].
    destruct (store_fault env (n_store w)) eqn:Hf; [|reflexivity].
    rewrite Hkept in Hl; [discriminate|]. rewrite Hf. discriminate. }
  rewrite Hno. apply IH.
Qed.

(** * The properties *)

(** C1, as stated, fails: the second tick starts a second cycle while
    the first waits for its claim query. *)
Lemma C1_second_tick_overlaps :
  map awaited
    (in_flight (tick (AnimatedEmoji.checkAndProcessRollRequests (Int 5))
                  mid_cycle))
  = [Some (existT Op _ (client_query 0%nat (selectQuery true (Int 5))));
     Some (existT Op _ pool_connect)] /\
  ~ tick_is_noop_while_running
      (AnimatedEmoji.checkAndProcessRollRequests (Int 5)).
Proof.
  split; [reflexivity|].
  intros H. specialize (H mid_cycle eq_refl).
  assert (Hlen : List.length (in_flight
            (tick (AnimatedEmoji.checkAndProcessRollRequests (Int 5)) mid_cycle))
          = List.length (in_flight mid_cycle)).
  { rewrite H; [reflexivity|]. discriminate. }
  discriminate Hlen.
Qed.

(** C1 (amended). Every tick of the poll timer calls
    [checkAndProcessRollRequests], whatever is in flight: there is one
    more invocation in flight after the tick than before, suspended at
    [pool.connect()]. Only a cleared timer stops the ticks. *)
Theorem C1_every_tick_starts_a_cycle MAX l :
  timer_on l = true ->
  starts_invocation (AnimatedEmoji.checkAndProcessRollRequests MAX) l /\
  starts_invocation (AnimatedDice.checkAndProcessRollRequests MAX) l.
Proof.
  intros Hon. unfold starts_invocation, tick. rewrite Hon. simpl in_flight.
  rewrite !length_app. simpl.
  repeat split; lia.
Qed.

Lemma C1_every_tick_starts_a_cycle_witness :
  timer_on mid_cycle = true /\
  starts_invocation (AnimatedEmoji.checkAndProcessRollRequests (Int 5)) mid_cycle /\
  starts_invocation (AnimatedDice.checkAndProcessRollRequests (Int 5)) mid_cycle.
Proof.
  split; [reflexivity|].
  exact (@C1_every_tick_starts_a_cycle (Int 5) mid_cycle eq_refl).
Defined.

(** C2. The claim query with limit [N] returns at most [N] rows, each of
    a tuple that is pending in the connection's view when the query runs
    and not locked by another transaction, oldest [requested_at] first;
    locked tuples are passed over, so the batch is still filled from the
    remaining pending ones, and the query answers at once. A negative
    limit makes the statement fail. *)
Theorem C2_claim_is_bounded_pending_ordered env with_emoji N w :
  match fst (exec_sql env (selectQuery with_emoji (Int N)) w) with
  | inr r =>
      let got := claimed_tuples (leased_elsewhere env) (Z.to_nat N) (view w) in
      rows r = map (project with_emoji) got /\
      Z.of_nat (List.length (rows r)) <= N /\
      Forall (fun x => In x (view w) /\ status x = pending /\
                       ~ In (id_of x) (leased_elsewhere env)) got /\
      StronglySorted oldest_first got /\
      List.length got =
        Nat.min (Z.to_nat N)
          (List.length (filter (claimable (leased_elsewhere env)) (view w))) /\
      snd (exec_sql env (selectQuery with_emoji (Int N)) w) = w
  | inl _ => N < 0
  end.
Proof.
  simpl. destruct (Z.ltb_spec N 0) as [Hneg|Hpos]; simpl; [exact Hneg|].
  destruct (claimed_tuples_spec (leased_elsewhere env) (Z.to_nat N) (view w))
    as (Hlen & Hall & Hsorted & Hmax).
  rewrite length_map.
  repeat split; auto. lia.
Qed.

(** C3, as stated, fails: the animated-emoji worker records the value 64
    the channel answered with. *)
Lemma C3_value_outside_1_6 :
  ~ (forall env MAX w, txn w = None ->
       Forall2 (recorded outcome_in_range (now env)) (table w)
         (table (snd (run env
            (AnimatedEmoji.checkAndProcessRollRequests MAX entry) w)))).
Proof.
  intros H. specialize (H slot_machine (Int 5) one_pending_slot eq_refl).
  replace (table (snd (run slot_machine
             (AnimatedEmoji.checkAndProcessRollRequests (Int 5) entry)
             one_pending_slot)))
    with [mkTuple (request.mk 1 10 20 30 (Some "🎰")) completed (Some 64) 5
            (Some 1000)] in H by (vm_compute; reflexivity).
  inversion H as [|t t' l l' Hrec _]; subst.
  destruct Hrec as [Heq|(_ & st & v & Hout & _ & Heq)]; [discriminate|].
  injection Heq as <- <-.
  destruct Hout as [(_ & z & Hv & Hz)|(Hst & _)]; [|discriminate].
  injection Hv as <-. lia.
Qed.

(** C3 (amended). Every row a cycle drives to a terminal status was
    pending, gets a non-null value exactly when it is recorded as
    completed and a null value when recorded as error; in the plain
    worker the value lies in [1,6]; in the animated workers it is a
    value the channel answered a [sendDice] with, and on a table with
    unique ids it is the answer to the row's own call: the [i]-th row of
    the batch is recorded with the outcome of the [i]-th [sendDice] of
    the cycle, completed with the returned value when that call
    returned a dice, error with a null value otherwise. *)
Theorem C3_recorded_value_iff_completed env MAX w :
  txn w = None ->
  Forall2 (recorded (outcome_from_channel env) (now env)) (table w)
    (table (snd (run env
       (AnimatedEmoji.checkAndProcessRollRequests MAX entry) w))) /\
  Forall2 (recorded (outcome_from_channel env) (now env)) (table w)
    (table (snd (run env
       (AnimatedDice.checkAndProcessRollRequests MAX entry) w))) /\
  Forall2 (recorded outcome_local (now env)) (table w)
    (table (snd (run env (DbPoll.checkAndProcessRollRequests MAX entry) w))) /\
  (NoDup (map id_of (table w)) ->
   Forall2 (recorded_own_send env w (batch env MAX w)) (table w)
     (table (snd (run env
        (AnimatedEmoji.checkAndProcessRollRequests MAX entry) w))) /\
   Forall2 (recorded_own_send env w (batch env MAX w)) (table w)
     (table (snd (run env
        (AnimatedDice.checkAndProcessRollRequests MAX entry) w)))).
Proof.
  intros Htx. split; [|split; [|split]].
  - rewrite AnimatedEmoji_cycle.
    apply cycle_recorded with (Q := channel_outcome env) (sends := 1%nat);
      [ apply AnimatedEmoji_row_step
      | intros s st v; apply channel_outcome_from_channel
      | exact Htx ].
  - rewrite AnimatedDice_cycle.
    apply cycle_recorded with (Q := channel_outcome env) (sends := 1%nat);
      [ apply AnimatedDice_row_step
      | intros s st v; apply channel_outcome_from_channel
      | exact Htx ].
  - rewrite DbPoll_cycle.
    apply cycle_recorded with (Q := local_roll) (sends := 0%nat);
      [ apply DbPoll_row_step
      | intros s st v; apply local_roll_outcome_local
      | exact Htx ].
  - intros Hnd. split.
    + rewrite AnimatedEmoji_cycle.
      exact (@cycle_recorded_own_send env AnimatedEmoji.processRequest
               true true MAX w (AnimatedEmoji_row_step env) Htx Hnd).
    + rewrite AnimatedDice_cycle.
      exact (@cycle_recorded_own_send env AnimatedDice.processRequest
               false false MAX w (AnimatedDice_row_step env) Htx Hnd).
Qed.

Lemma C3_recorded_value_iff_completed_witness :
  txn three_pending = None /\
  NoDup (map id_of (table three_pending)) /\
  Forall2 (recorded (outcome_from_channel second_send_fails)
             (now second_send_fails))
    (table three_pending)
    (table (snd (run second_send_fails
       (AnimatedEmoji.checkAndProcessRollRequests (Int 5) entry)
       three_pending))) /\
  Forall2 (recorded outcome_local (now second_send_fails))
    (table three_pending)
    (table (snd (run second_send_fails
       (DbPoll.checkAndProcessRollRequests (Int 5) entry)
       three_pending))) /\
  Forall2 (recorded_own_send second_send_fails three_pending
             (batch second_send_fails (Int 5) three_pending))
    (table three_pending)
    (table (snd (run second_send_fails
       (AnimatedEmoji.checkAndProcessRollRequests (Int 5) entry)
       three_pending))) /\
  Forall2 (recorded_own_send second_send_fails three_pending
             (batch second_send_fails (Int 5) three_pending))
    (table three_pending)
    (table (snd (run second_send_fails
       (AnimatedDice.checkAndProcessRollRequests (Int 5) entry)
       three_pending))).
Proof.
  assert (Hnd : NoDup (map id_of (table three_pending))).
  { simpl. repeat constructor; simpl; intuition discriminate. }
  refine (let H := @C3_recorded_value_iff_completed second_send_fails (Int 5)
                     three_pending eq_refl in
          conj eq_refl (conj Hnd
            (conj (proj1 H)
               (conj (proj1 (proj2 (proj2 H)))
                  (proj2 (proj2 (proj2 H)) Hnd))))).
Defined.

(** C4. In a cycle of the animated workers whose store calls succeed,
    every row of the claimed batch is recorded with the outcome of the
    channel's answer to its own [sendDice]: when that call raises or
    resolves without a dice the row is recorded as [error] with a null
    value, whatever happens to the calls for the other rows, before or
    after it. *)
Theorem C4_channel_failure_is_per_row env MAX n w :
  txn w = None ->
  pool_ended w = false ->
  limit_of MAX = Some n ->
  (forall k, store_fault env k = None) ->
  NoDup (map id_of (table w)) ->
  forall i t,
    nth_error (claimed_tuples (leased_elsewhere env) n (table w)) i = Some t ->
    recorded_per_row env
      (table (snd (run env
         (AnimatedEmoji.checkAndProcessRollRequests MAX entry) w)))
      t (channel env (n_sent w + i)) /\
    recorded_per_row env
      (table (snd (run env
         (AnimatedDice.checkAndProcessRollRequests MAX entry) w)))
      t (channel env (n_sent w + i)).
Proof.
  intros Htx Hpe Hlim Hok Hnd i t Hi. split.
  - rewrite AnimatedEmoji_cycle.
    now apply (animated_cycle_per_row true true
                 (AnimatedEmoji_row_step env) MAX w Htx Hpe Hlim Hok Hnd).
  - rewrite AnimatedDice_cycle.
    now apply (animated_cycle_per_row false false
                 (AnimatedDice_row_step env) MAX w Htx Hpe Hlim Hok Hnd).
Qed.

Lemma C4_channel_failure_is_per_row_witness :
  txn three_pending = None /\
  pool_ended three_pending = false /\
  limit_of (Int 5) = Some 5%nat /\
  (forall k, store_fault second_send_fails k = None) /\
  NoDup (map id_of (table three_pending)) /\
  nth_error (claimed_tuples (leased_elsewhere second_send_fails) 5
               (table three_pending)) 1
  = Some (mkTuple (request.mk 2 10 22 30 None) pending None 6 None) /\
  recorded_per_row second_send_fails
    (table (snd (run second_send_fails
       (AnimatedEmoji.checkAndProcessRollRequests (Int 5) entry)
       three_pending)))
    (mkTuple (request.mk 2 10 22 30 None) pending None 6 None)
    (channel second_send_fails (n_sent three_pending + 1)) /\
  recorded_per_row second_send_fails
    (table (snd (run second_send_fails
       (AnimatedDice.checkAndProcessRollRequests (Int 5) entry)
       three_pending)))
    (mkTuple (request.mk 2 10 22 30 None) pending None 6 None)
    (channel second_send_fails (n_sent three_pending + 1)).
Proof.
  assert (Hnd : NoDup (map id_of (table three_pending))).
  { simpl. repeat constructor; simpl; intuition discriminate. }
  split; [reflexivity|]. split; [reflexivity|]. split; [reflexivity|].
  split; [intros k; reflexivity|]. split; [exact Hnd|].
  split; [reflexivity|].
  exact (@C4_channel_failure_is_per_row second_send_fails (Int 5) 5%nat
           three_pending eq_refl eq_refl eq_refl (fun _ => eq_refl) Hnd 1%nat
           (mkTuple (request.mk 2 10 22 30 None) pending None 6 None) eq_refl).
Defined.




(** C6. The update of a row's outcome writes the tuple with the row's
    [request_id] only if that tuple is still pending, and answers with
    the number of tuples written; the iteration then logs, a warning
    when that number is zero, ends normally, and the loop goes on with
    the rest of the batch. *)
Theorem C6_update_only_if_pending env row f w c :
  client f = Some c ->
  store_fault env (n_store w) = None ->
  outcome_recorded_if_pending env AnimatedEmoji.processRequest row f w c /\
  outcome_recorded_if_pending env DbPoll.processRequest row f w c.
Proof.
  intros Hc Hf. split.
  - apply records_outcome_if_pending;
      auto using AnimatedEmoji_records_outcome.
  - apply records_outcome_if_pending; auto using DbPoll_records_outcome.
Qed.

Lemma C6_update_only_if_pending_witness :
  client with_client = Some 0%nat /\
  store_fault second_send_fails (n_store altered_behind) = None /\
  outcome_recorded_if_pending second_send_fails AnimatedEmoji.processRequest
    claimed_row with_client altered_behind 0%nat /\
  outcome_recorded_if_pending second_send_fails DbPoll.processRequest
    claimed_row with_client altered_behind 0%nat.
Proof.
  split; [reflexivity|]. split; [reflexivity|].
  exact (@C6_update_only_if_pending second_send_fails claimed_row with_client
           altered_behind 0%nat eq_refl eq_refl).
Defined.

(** C7, on the empty batch of the animated-emoji worker: the client is
    released in the branch and again in the [finally]; the second call
    throws, and the invocation ends with that exception. The
    animated-dice worker, on the same input, releases once. *)
Theorem C7_empty_batch_releases_twice :
  let r := run no_faults
             (AnimatedEmoji.checkAndProcessRollRequests (Int 5) entry)
             nothing_pending in
  let r' := run no_faults
              (AnimatedDice.checkAndProcessRollRequests (Int 5) entry)
              nothing_pending in
  release_calls (trace (snd r)) = 2%nat /\
  fst r = Settled (mkFrame (Some 0%nat) None error, Thrown double_release) /\
  release_calls (trace (snd r')) = 1%nat /\
  fst r' = Settled (mkFrame (Some 0%nat) None error, Return).
Proof. vm_compute. repeat split. Qed.

(** C8. Shutdown is idempotent: in every state in which a shutdown is
    in progress the handler only logs and returns; it does not clear the
    timer, stop the listener, close the pool or exit. Otherwise it sets
    the flag, clears the poll timer, stops the listener, closes the pool
    and exits with code 0. *)
Theorem C8_shutdown_is_idempotent env signal w :
  (isShuttingDownHelper w = true ->
   no_further_action w (run env (AnimatedEmoji.shutdownHelper signal tt) w) /\
   no_further_action w (run env (AnimatedDice.shutdown signal tt) w)) /\
  (isShuttingDownHelper w = false ->
   shuts_down env w (run env (AnimatedEmoji.shutdownHelper signal tt) w) /\
   shuts_down env w (run env (AnimatedDice.shutdown signal tt) w)).
Proof.
  split; intros Hflag; split;
    auto using shutdownHelper_in_progress, shutdown_in_progress,
      shutdownHelper_first, shutdown_first.
Qed.

Lemma C8_shutdown_is_idempotent_witness :
  isShuttingDownHelper shutting_down = true /\
  isShuttingDownHelper started = false /\
  no_further_action shutting_down
    (run no_faults (AnimatedEmoji.shutdownHelper "SIGTERM" tt) shutting_down) /\
  shuts_down no_faults started
    (run no_faults (AnimatedEmoji.shutdownHelper "SIGINT" tt) started).
Proof.
  split; [reflexivity|]. split; [reflexivity|]. split.
  - exact (proj1 (proj1 (@C8_shutdown_is_idempotent no_faults "SIGTERM"
                           shutting_down) eq_refl)).
  - exact (proj1 (proj2 (@C8_shutdown_is_idempotent no_faults "SIGINT"
                           started) eq_refl)).
Defined.

(** C9. For a row whose [emoji_type] is null (or not set) or the empty
    string, the animated-emoji worker calls [sendDice] once, for the
    row's chat, with the emoji option "🎲"; for no row is the empty
    string passed to the channel. *)
Theorem C9_falsy_variant_sends_default_die env row f w :
  sends_of (trace (snd (run env (AnimatedEmoji.processRequest row f) w)))
  = sends_of (trace w)
    ++ [(request.chat_id row, Some (AnimatedEmoji.emojiToSend row))] /\
  AnimatedEmoji.emojiToSend row <> EmptyString /\
  (request.emoji_type row = None \/ request.emoji_type row = Some EmptyString ->
   AnimatedEmoji.emojiToSend row = "🎲").
Proof.
  split; [apply AnimatedEmoji_sends|]. split.
  - apply js_or_nonempty. discriminate.
  - apply js_or_falsy.
Qed.

(** C10. In the plain polling worker a cycle changes a tuple only from
    [pending] to [completed] with a locally generated value in [1,6]; no
    tuple has status [error] after the cycle unless it had it before;
    and when no store call fails every claimed row ends [completed] with
    such a value. *)
Theorem C10_plain_worker_only_completes env MAX w :
  txn w = None ->
  let final :=
    table (snd (run env (DbPoll.checkAndProcessRollRequests MAX entry) w)) in
  Forall2 (recorded outcome_local (now env)) (table w) final /\
  (forall t', In t' final -> status t' = error -> In t' (table w)) /\
  (forall n,
     pool_ended w = false ->
     limit_of MAX = Some n ->
     (forall k, store_fault env k = None) ->
     NoDup (map id_of (table w)) ->
     forall t, In t (claimed_tuples (leased_elsewhere env) n (table w)) ->
     exists z, 1 <= z <= 6 /\
       In (mkTuple (cols t) completed (Some z) (requested_at t)
             (Some (now env))) final).
Proof.
  intros Htx final.
  assert (Hrec : Forall2 (recorded outcome_local (now env)) (table w) final).
  { subst final. rewrite DbPoll_cycle.
    apply cycle_recorded with (Q := local_roll) (sends := 0%nat);
      [ apply DbPoll_row_step
      | intros s st v; apply local_roll_outcome_local
      | exact Htx ]. }
  split; [exact Hrec|]. split.
  - intros t' Hin Herr.
    destruct (@Forall2_In_r _ _ _ _ _ t' Hrec Hin) as (t & Ht & [->|(_ & st & v & Hout & _ & ->)]);
      [exact Ht|].
    destruct Hout as (-> & _). discriminate Herr.
  - intros n Hpe Hlim Hok Hnd t Ht.
    subst final. rewrite DbPoll_cycle.
    destruct (@cycle_commits env local_roll 0%nat DbPoll.processRequest
                false false MAX n w (DbPoll_row_step env) Hpe Hlim Hok)
      as (f1 & cpl & w1 & Hrun & Hcom & _).
    rewrite Hrun. simpl.
    destruct Hcom as (_ & _ & _ & _ & _ & _ & Hpost & _).
    unfold view in Hpost. rewrite Htx in Hpost.
    destruct (claimed_tuples_spec (leased_elsewhere env) n (table w))
      as (_ & Hall & _).
    apply In_nth_error in Ht. destruct Ht as (i & Hi).
    edestruct loop_post_each_row as (st & v & Hq & Hin);
      [ exact Hpost
      | apply claimed_tuples_NoDup, Hnd
      | eapply Forall_impl; [|exact Hall]; intros x (Hx & Hp & _); auto
      | exact Hi
      | ].
    destruct Hq as (-> & z & -> & Hz). eauto.
Qed.

Lemma C10_plain_worker_only_completes_witness :
  txn three_pending = None /\
  Forall2 (recorded outcome_local (now local_env)) (table three_pending)
    (table (snd (run local_env
       (DbPoll.checkAndProcessRollRequests (Int 5) entry) three_pending))).
Proof.
  split; [reflexivity|].
  exact (proj1 (@C10_plain_worker_only_completes local_env (Int 5)
                  three_pending eq_refl)).
Defined.

(** * Further properties of the workers *)

(** ** What an invocation can call *)

(** The environment's part of an operation records nothing itself. *)
Lemma trace_perform env R (op : Op R) w :
  trace (snd (perform env op w)) = trace w.
Proof.
  destruct op; cbn [perform]; unfold store_call;
    repeat match goal with
           | |- context [if ?b then _ else _] => destruct b
           | |- context [match ?x with Some _ => _ | None => _ end] => destruct x
           end;
    try reflexivity.
  destruct q; cbn [exec_sql snd]; try reflexivity;
    repeat match goal with
           | |- context [match ?x with NaN => _ | Int _ => _ end] => destruct x
           | |- context [if ?b then _ else _] => destruct b
           end; reflexivity.
Qed.

(** A run adds to the trace only events that pass [ok]. *)
Lemma run_calls_only env ok A (m : IO A) :
  calls_only ok m ->
  forall w, exists tr,
    trace (snd (run env m w)) = trace w ++ tr /\ forallb ok tr = true.
Proof.
  induction 1 as [a|c Hc|R op k Hop Hk IH]; intros w.
  - exists []. simpl. rewrite app_nil_r. auto.
  - exists [EvExit c]. simpl. rewrite Hc. auto.
  - cbn [run]. unfold handle. cbn [fst snd].
    destruct (IH (fst (perform env op w))
                (record (Ev op (fst (perform env op w))) (snd (perform env op w))))
      as (tr & Htr & Hok).
    exists (Ev op (fst (perform env op w)) :: tr). split.
    + rewrite Htr. cbn [trace record]. rewrite trace_perform, <- app_assoc.
      reflexivity.
    + cbn [forallb]. rewrite Hop, Hok. reflexivity.
Qed.

(** An invocation that cannot exit settles. *)
Lemma run_settles env ok A (m : IO A) :
  calls_only ok m -> (forall c, ok (EvExit c) = false) ->
  forall w, exists a, fst (run env m w) = Settled a.
Proof.
  intros Hm Hex. induction Hm as [a|c Hc|R op k Hop Hk IH]; intros w.
  - exists a. reflexivity.
  - rewrite Hex in Hc. discriminate.
  - cbn [run]. apply IH.
Qed.

(** What [ok] excludes is not added to the trace. *)
Lemma filter_calls_only env ok (p : Event -> bool) A (m : IO A) w :
  calls_only ok m ->
  (forall e, ok e = true -> p e = false) ->
  filter p (trace (snd (run env m w))) = filter p (trace w).
Proof.
  intros Hm Hp. destruct (run_calls_only env Hm w) as (tr & -> & Hok).
  rewrite filter_app.
  replace (filter p tr) with (@nil Event); [now rewrite app_nil_r|].
  symmetry. induction tr as [|e tr IH]; [reflexivity|].
  cbn [forallb] in Hok. apply andb_true_iff in Hok. destruct Hok as [He Htr].
  cbn [filter]. rewrite (Hp e He). auto.
Qed.

Section Only.
Variable ok : Event -> bool.

Lemma only_io_bind A B (m : IO A) (k : A -> IO B) :
  calls_only ok m -> (forall a, calls_only ok (k a)) ->
  calls_only ok (io_bind m k).
Proof.
  intros Hm Hk. induction Hm as [a|c Hc|R op k' Hop Hk' IH]; cbn [io_bind].
  - apply Hk.
  - constructor. exact Hc.
  - constructor; auto.
Qed.

Context {F : Type}.

Lemma only_ret A (a : A) : stmt_only ok (@ret F A a).
Proof. intros f. constructor. Qed.

Lemma only_throw A e : stmt_only ok (@throw F A e).
Proof. intros f. constructor. Qed.

Lemma only_return A : stmt_only ok (@return_ F A).
Proof. intros f. constructor. Qed.

Lemma only_get : stmt_only ok (@get F).
Proof. intros f. constructor. Qed.

Lemma only_modify g : stmt_only ok (@modify F g).
Proof. intros f. constructor. Qed.

Lemma only_await R (op : Op R) :
  (forall r, ok (Ev op r) = true) -> stmt_only ok (@await F R op).
Proof. intros Hop f. constructor; [exact Hop|]. intros r. constructor. Qed.

Lemma only_call R (op : Op R) :
  (forall r, ok (Ev op r) = true) -> stmt_only ok (@call F R op).
Proof. apply only_await. Qed.

Lemma only_exit A c : ok (EvExit c) = true -> stmt_only ok (@process_exit F A c).
Proof. intros Hc f. constructor. exact Hc. Qed.

Lemma only_bind A B (m : Stmt F A) (k : A -> Stmt F B) :
  stmt_only ok m -> (forall a, stmt_only ok (k a)) -> stmt_only ok (bind m k).
Proof.
  intros Hm Hk f. unfold bind. apply only_io_bind; [apply Hm|].
  intros [f' [a| |e]]; cbn [fst snd]; [apply Hk|constructor|constructor].
Qed.

Lemma only_try_catch A (body : Stmt F A) handler :
  stmt_only ok body -> (forall e, stmt_only ok (handler e)) ->
  stmt_only ok (try_catch body handler).
Proof.
  intros Hb Hh f. unfold try_catch. apply only_io_bind; [apply Hb|].
  intros [f' [a| |e]]; cbn [fst snd]; [constructor|constructor|apply Hh].
Qed.

Lemma only_try_finally A (body : Stmt F A) fin :
  stmt_only ok body -> stmt_only ok fin -> stmt_only ok (try_finally body fin).
Proof.
  intros Hb Hf f. unfold try_finally. apply only_io_bind; [apply Hb|].
  intros [f' c]. apply only_io_bind; [apply Hf|].
  intros [f'' [a| |e]]; constructor.
Qed.

Lemma only_for_of X (xs : list X) body :
  (forall x, stmt_only ok (body x)) -> stmt_only ok (@for_of F X xs body).
Proof.
  intros Hb. induction xs as [|x xs IH]; cbn [for_of].
  - apply only_ret.
  - apply only_bind; auto.
Qed.
End Only.

Lemma only_client_do ok R (m : Client -> Op R) :
  (forall c r, ok (Ev (m c) r) = true) -> stmt_only ok (client_do m).
Proof.
  intros Hm. unfold client_do. apply only_bind; [apply only_get|].
  intros f. destruct (client f); [apply only_await; auto|apply only_throw].
Qed.

(** Splits a statement along its combinators, leaving the operations. *)
Ltac calls :=
  repeat first
    [ apply only_ret | apply only_throw | apply only_return | apply only_get
    | apply only_modify
    | apply only_bind; [|intro]
    | apply only_try_catch; [|intro]
    | apply only_try_finally
    | apply only_for_of; intro
    | apply only_client_do; intros; reflexivity
    | apply only_call; intros; reflexivity
    | apply only_await; intros; reflexivity
    | apply only_exit; reflexivity
    | match goal with
      | |- stmt_only _ (match ?x with _ => _ end) => destruct x
      | |- stmt_only _ (if ?x then _ else _) => destruct x
      end ].

(** ** What a cycle calls *)

Lemma on_cycle_error_calls ok e :
  (forall l t r, ok (Ev (console l t) r) = true) ->
  (forall c r, ok (Ev (client_query c ROLLBACK) r) = true) ->
  stmt_only ok (on_cycle_error e).
Proof.
  intros Hlog Hq. unfold on_cycle_error.
  apply only_bind; [apply only_call, Hlog|intros _].
  apply only_bind; [apply only_get|intros f].
  destruct (client f); [|apply only_ret].
  apply only_try_catch.
  - apply only_bind; [apply only_await, Hq|intros _]. apply only_call, Hlog.
  - intros _. apply only_call, Hlog.
Qed.

Lemma release_client_calls ok :
  (forall c r, ok (Ev (client_release c) r) = true) ->
  stmt_only ok release_client.
Proof.
  intros Hr. unfold release_client.
  apply only_bind; [apply only_get|intros f].
  destruct (client f); [apply only_call, Hr|apply only_ret].
Qed.

Lemma DbPoll_processRequest_calls row :
  stmt_only before_release (DbPoll.processRequest row).
Proof. unfold DbPoll.processRequest. calls. Qed.

Lemma AnimatedDice_processRequest_calls row :
  stmt_only before_release (AnimatedDice.processRequest row).
Proof. unfold AnimatedDice.processRequest. calls. Qed.

Lemma AnimatedEmoji_processRequest_calls row :
  stmt_only before_release (AnimatedEmoji.processRequest row).
Proof. unfold AnimatedEmoji.processRequest. calls. Qed.

Lemma DbPoll_cycle_calls MAX :
  stmt_only plain_cycle_call (DbPoll.checkAndProcessRollRequests MAX).
Proof.
  unfold DbPoll.checkAndProcessRollRequests, try_catch_finally.
  apply only_bind; [apply only_modify|intros _].
  apply only_try_finally;
    [|apply release_client_calls; intros; reflexivity].
  apply only_try_catch;
    [|intros e; apply on_cycle_error_calls; intros; reflexivity].
  unfold DbPoll.processRequest. calls.
Qed.

Lemma AnimatedDice_cycle_calls MAX :
  stmt_only animated_cycle_call (AnimatedDice.checkAndProcessRollRequests MAX).
Proof.
  unfold AnimatedDice.checkAndProcessRollRequests, try_catch_finally.
  apply only_bind; [apply only_modify|intros _].
  apply only_try_finally;
    [|apply release_client_calls; intros; reflexivity].
  apply only_try_catch;
    [|intros e; apply on_cycle_error_calls; intros; reflexivity].
  unfold AnimatedDice.processRequest. calls.
Qed.

Lemma AnimatedEmoji_cycle_calls MAX :
  stmt_only animated_cycle_call (AnimatedEmoji.checkAndProcessRollRequests MAX).
Proof.
  unfold AnimatedEmoji.checkAndProcessRollRequests, try_catch_finally.
  apply only_bind; [apply only_modify|intros _].
  apply only_try_finally;
    [|apply release_client_calls; intros; reflexivity].
  apply only_try_catch;
    [|intros e; apply on_cycle_error_calls; intros; reflexivity].
  unfold AnimatedEmoji.processRequest. calls.
Qed.

(** ** How a cycle ends *)

Lemma run_connect_error env F (f : F) w e :
  connect_error env w = Some e ->
  exists w1,
    run env (await pool_connect f) w = (Settled (f, Thrown e), w1) /\
    trace w1 = trace w ++ [Ev pool_connect (inl e)] /\
    table w1 = table w /\ txn w1 = txn w /\
    client_released w1 = client_released w.
Proof.
  unfold connect_error. intros He. rewrite run_connect.
  destruct (pool_ended w).
  - injection He as <-. eexists. split; [reflexivity|]. proj. auto.
  - rewrite He. eexists. split; [reflexivity|]. proj. auto.
Qed.

(** Without a client the cycle logs the error and ends. *)
Lemma cycle_gives_up env with_emoji early body MAX w e :
  connect_error env w = Some e ->
  gave_up w e (run env (cycle with_emoji early body MAX entry) w).
Proof.
  intros He. unfold cycle, try_catch_finally, try_block.
  rewrite run_bind, run_modify, run_try_finally, run_try_catch, run_bind.
  destruct (run_connect_error env (set_client None entry) w He)
    as (w1 & Hrun & Htr & Htab & Htx & Hr).
  rewrite Hrun. cbv beta iota. unfold on_cycle_error.
  rewrite run_bind, run_console, run_bind, run_get.
  cbn [client set_client entry]. rewrite run_ret.
  unfold release_client. rewrite run_bind, run_get.
  cbn [client set_client entry]. rewrite run_ret.
  red. cbn [fst snd]. proj. rewrite Htr, <- app_assoc.
  repeat split; auto.
Qed.

Lemma release_calls_snoc tr c r :
  release_calls (tr ++ [Ev (client_release c) r]) = S (release_calls tr).
Proof.
  unfold release_calls. rewrite filter_app, length_app. simpl. lia.
Qed.

Lemma release_calls_quiet env A (m : IO A) w :
  calls_only before_release m ->
  release_calls (trace (snd (run env m w))) = release_calls (trace w).
Proof.
  intros Hm. unfold release_calls. f_equal.
  apply filter_calls_only with (ok := before_release); [exact Hm|].
  intros [R op r|c]; [destruct op|]; simpl; congruence.
Qed.

Section Release.
Variable env : Env.
Variable Q : nat -> Status -> option Z -> Prop.
Variable sends : nat.
Variable body : request.t -> Stmt Frame unit.
Hypothesis body_step : row_step env Q sends body.
Hypothesis body_calls : forall row, stmt_only before_release (body row).
Variable with_emoji : bool.
Variable MAX : JsInt.

Lemma try_block_calls :
  stmt_only before_release (try_block with_emoji false body MAX).
Proof. unfold try_block, process_batch. calls. apply body_calls. Qed.

(** A cycle whose empty branch leaves the release to the [finally]
    calls [release] once when it got a client, and not at all
    otherwise. *)
Lemma cycle_releases_once w :
  release_calls
    (trace (snd (run env (cycle with_emoji false body MAX entry) w)))
  = (release_calls (trace w)
     + match connect_error env w with Some _ => 0 | None => 1 end)%nat.
Proof.
  destruct (connect_error env w) as [e|] eqn:He.
  - destruct (@cycle_gives_up env with_emoji false body MAX w e He)
      as (_ & Htr & _).
    rewrite Htr. unfold release_calls.
    rewrite filter_app, length_app. simpl. reflexivity.
  - assert (Hquiet :
      release_calls
        (trace (snd (run env
           (try_catch (try_block with_emoji false body MAX) on_cycle_error
              (set_client None entry)) w)))
      = release_calls (trace w)).
    { apply release_calls_quiet. apply only_try_catch; [apply try_block_calls|].
      intros e. apply on_cycle_error_calls; intros; reflexivity. }
    unfold cycle, try_catch_finally.
    rewrite run_bind, run_modify, run_try_finally.
    rewrite run_try_catch in Hquiet |- *.
    destruct (try_block_run body_step with_emoji false MAX
                (set_client None entry) w eq_refl)
      as (f1 & cpl1 & w1 & Hrun & _ & Hcase).
    rewrite Hrun in Hquiet |- *.
    unfold connect_error in He.
    destruct Hcase as [(_ & _ & _ & _ & _ & Hev)
                      |[(Hc & (e & ->) & _)|(n & Hc & _ & Hlen)]].
    + exfalso. destruct (pool_ended w); [discriminate|].
      destruct Hev; congruence.
    + cbv beta iota in Hquiet |- *.
      destruct (on_cycle_error_run env e f1 w1 Hc) as (w2 & r & Hrun2 & _).
      rewrite Hrun2 in Hquiet |- *. cbn [snd] in Hquiet.
      unfold release_client. rewrite run_bind, run_get, Hc, run_release.
      destruct (client_released w2); cbn [snd]; proj;
        rewrite release_calls_snoc, Hquiet; lia.
    + cbv zeta in Hlen. unfold release_client.
      destruct Hlen as [(_ & -> & _)|(_ & -> & _)];
        cbv beta iota in Hquiet |- *; cbn [snd] in Hquiet;
        rewrite run_bind, run_get, Hc, run_release;
        destruct (client_released w1); cbn [snd]; proj;
        rewrite release_calls_snoc, Hquiet; lia.
Qed.
End Release.

(** A cycle that leaves the release to the [finally] never rejects. *)
Lemma cycle_fulfilled env Q sends body with_emoji MAX w :
  row_step env Q sends body ->
  fulfilled w (run env (cycle with_emoji false body MAX entry) w).
Proof.
  intros Hstep.
  destruct (cycle_run Hstep with_emoji false MAX w)
    as (f1 & cpl & w1 & Hrun & Hp & [(_ & -> & _)|(n & _ & _ & ->)]);
    rewrite Hrun; exists f1; eexists; (split; [reflexivity|]); (split; [|exact Hp]).
  - left. reflexivity.
  - destruct (_ =? _)%nat; auto.
Qed.

(** A cycle leaves the tuples outside its batch as they were. *)
Lemma cycle_keeps_others env Q sends body with_emoji early MAX w t :
  row_step env Q sends body ->
  txn w = None ->
  In t (table w) ->
  (forall n, limit_of MAX = Some n ->
     ~ In (id_of t)
         (map id_of (claimed_tuples (leased_elsewhere env) n (table w)))) ->
  In t (table (snd (run env (cycle with_emoji early body MAX entry) w))).
Proof.
  intros Hstep Htx Hin Hout.
  destruct (cycle_run Hstep with_emoji early MAX w)
    as (f1 & cpl & w1 & Hrun & _ & [(Htab & _)|(n & Hcom & _)]);
    rewrite Hrun; cbn [snd].
  - rewrite Htab. exact Hin.
  - destruct Hcom as (Hlim & _ & _ & _ & _ & _ & Hpost & _).
    unfold view in Hpost. rewrite Htx in Hpost.
    eapply loop_post_keeps; [exact Hpost| |exact Hin].
    rewrite map_map.
    rewrite (map_ext _ id_of (fun x => request_id_project with_emoji x)).
    apply Hout, Hlim.
Qed.

(** ** Startup *)

(** The [catch] block of [startHelperBot]: the pool is closed, a failure
    to do so ignored, and the process exits with code 1. *)
Lemma startup_handler_run env msg w :
  startup_failed w
    (run env
       ((call (console console_error msg) ;;
         try_catch (await pool_end) (fun _ => ret tt) ;;
         process_exit 1) tt) w).
Proof.
  rewrite run_bind, run_console, run_bind, run_try_catch, run_pool_end. proj.
  destruct (pool_ended w);
    [|destruct (store_fault env (n_store w))];
    cbv beta iota; rewrite ?run_ret, run_exit;
    red; cbn [fst snd]; (split; [reflexivity|]); (split; [actions|]);
    proj; auto.
Qed.

Lemma startup_failed_from w w1 r :
  startup_failed w1 r ->
  actions_of (trace w1) = actions_of (trace w) ->
  active_timers w1 = active_timers w ->
  dbPollingIntervalId w1 = dbPollingIntervalId w ->
  table w1 = table w ->
  startup_failed w r.
Proof.
  intros (H1 & H2 & H3 & H4 & H5) Ha Ht Hi Htab.
  red. rewrite H2, H3, H4, H5, Ha. auto.
Qed.

(** The [catch] block of [startHelperBot] checks out and releases
    nothing. *)
Lemma startup_handler_client env msg w :
  client_released
    (snd (run env
       ((call (console console_error msg) ;;
         try_catch (await pool_end) (fun _ => ret tt) ;;
         process_exit 1 : Stmt unit unit) tt) w))
  = client_released w.
Proof.
  rewrite run_bind, run_console, run_bind, run_try_catch, run_pool_end. proj.
  destruct (pool_ended w);
    [|destruct (store_fault env (n_store w))];
    cbv beta iota; rewrite ?run_ret, run_exit; reflexivity.
Qed.

Ltac exit_without_client :=
  cbv beta iota; split;
  [ eapply startup_failed_from;
    [ apply startup_handler_run
    | actions
    | proj; reflexivity
    | proj; reflexivity
    | proj; reflexivity ]
  | rewrite startup_handler_client; proj; first [reflexivity | assumption] ].

Ltac start_or_exit env w Hr H :=
  rewrite run_bind, run_console;
  rewrite run_bind, run_console;
  rewrite run_try_catch;
  rewrite run_bind, run_console;
  rewrite run_bind, run_connect; proj;
  unfold connect_error in H;
  destruct (pool_ended w); [exit_without_client|];
  destruct (store_fault env (n_store w)); [exit_without_client|];
  destruct H as [H|(_ & Hq & Hme)]; [now elim H|];
  rewrite run_bind, run_console;
  rewrite run_bind, run_query; proj;
  rewrite Hq;
  cbn [exec_sql fst snd]; proj;
  rewrite run_bind, run_console;
  rewrite run_bind, run_release; proj;
  rewrite run_bind, run_console;
  rewrite run_bind, run_getMe;
  destruct (getMe_fault env); [exit_without_client|now elim Hme].

(** When the connect fails, or Telegram does not answer [getMe] after
    the test client was released, [startHelperBot] sets no timer,
    closes the pool with no client checked out, and exits. *)
Lemma startHelperBot_exits env w :
  client_released w = true ->
  connect_error env w <> None \/
  (connect_error env w = None /\
   store_fault env (S (n_store w)) = None /\
   getMe_fault env <> None) ->
  exits_without_client w (run env (AnimatedEmoji.startHelperBot tt) w) /\
  exits_without_client w (run env (AnimatedDice.startHelperBot tt) w).
Proof.
  intros Hr H. split; red.
  - unfold AnimatedEmoji.startHelperBot. start_or_exit env w Hr H.
  - unfold AnimatedDice.startHelperBot. start_or_exit env w Hr H.
Qed.

(** ** Process-level handlers *)

Lemma run_invoke env F (callee : Stmt unit unit) (f : F) w :
  run env (invoke callee f) w =
  match run env (callee tt) w with
  | (Settled (_, c), w') =>
      (Settled (f, match c with Return => Normal tt | c' => c' end), w')
  | (Exited x, w') => (Exited x, w')
  end.
Proof.
  unfold invoke. rewrite run_io_bind.
  destruct (run env (callee tt) w) as [[[u [a| |e]]|x] w']; reflexivity.
Qed.

Lemma plain_cycle_call_sends tr :
  forallb plain_cycle_call tr = true -> sends_of tr = [].
Proof.
  induction tr as [|e tr IH]; [reflexivity|].
  cbn [forallb]. intros H. apply andb_true_iff in H. destruct H as [He Htr].
  unfold sends_of. cbn [flat_map]. fold (sends_of tr). rewrite (IH Htr).
  destruct e as [R op r|c]; [destruct op|]; simpl in *; congruence.
Qed.

(** ** What a cycle sends *)

Lemma sends_quiet env A (m : IO A) w :
  calls_only no_sendDice m ->
  sends_of (trace (snd (run env m w))) = sends_of (trace w).
Proof.
  intros Hm. destruct (run_calls_only env Hm w) as (tr & -> & Hok).
  rewrite sends_of_app.
  replace (sends_of tr) with (@nil (Z * option string)); [now rewrite app_nil_r|].
  symmetry. induction tr as [|e tr IH]; [reflexivity|].
  cbn [forallb] in Hok. apply andb_true_iff in Hok. destruct Hok as [He Htr].
  unfold sends_of. cbn [flat_map]. fold (sends_of tr). rewrite (IH Htr).
  unfold no_sendDice in He.
  destruct e as [R op r|c]; [destruct op|]; simpl in *;
    first [reflexivity | discriminate He].
Qed.

Section QuietParts.
Variable env : Env.
Context {F : Type}.

(** A [finally] block and a [catch] block that send nothing add nothing
    to what the [try] block sent. *)
Lemma sends_try_finally A (body : Stmt F A) fin f w :
  stmt_only no_sendDice fin ->
  sends_of (trace (snd (run env (try_finally body fin f) w)))
  = sends_of (trace (snd (run env (body f) w))).
Proof.
  intros Hfin. rewrite run_try_finally.
  destruct (run env (body f) w) as [[[f1 c1]|x] w1]; [|reflexivity].
  pose proof (sends_quiet env w1 (Hfin f1)) as Hq.
  destruct (run env (fin f1) w1) as [[[f2 [a| |e]]|x] w2]; exact Hq.
Qed.

Lemma sends_try_catch A (body : Stmt F A) handler f w :
  (forall e, stmt_only no_sendDice (handler e)) ->
  sends_of (trace (snd (run env (try_catch body handler f) w)))
  = sends_of (trace (snd (run env (body f) w))).
Proof.
  intros Hh. rewrite run_try_catch.
  destruct (run env (body f) w) as [[[f1 [a| |e]]|x] w1]; try reflexivity.
  apply (sends_quiet env w1 (Hh e f1)).
Qed.
End QuietParts.

(** An iteration of the animated-dice worker calls [sendDice] once,
    without an emoji option. *)
Lemma AnimatedDice_sends env row f w :
  sends_of (trace (snd (run env (AnimatedDice.processRequest row f) w)))
  = sends_of (trace w) ++ [(request.chat_id row, None)].
Proof.
  unfold AnimatedDice.processRequest.
  rewrite run_bind, run_console.
  rewrite run_bind, run_modify.
  rewrite run_bind, run_modify.
  rewrite run_bind, run_try_catch.
  rewrite run_bind, run_console.
  rewrite run_bind, run_await. cbn [perform fst snd]. proj.
  destruct (channel env (n_sent w)) as [e|[[[d|]]|]] eqn:Hch.
  - rewrite run_bind, run_console.
    destruct (response_body e).
    + rewrite run_console. update_any env w.
    + rewrite run_ret. update_any env w.
  - rewrite run_bind, run_modify, run_bind, run_modify, run_console.
    update_any env w.
  - rewrite run_console. update_any env w.
  - rewrite run_console. update_any env w.
Qed.

Section Sends.
Variable env : Env.
Variable Q : nat -> Status -> option Z -> Prop.
Variable sends : nat.
Variable body : request.t -> Stmt Frame unit.
Variable target : request.t -> Z * option string.
Hypothesis body_step : row_step env Q sends body.
Hypothesis body_sends : forall row f w,
  sends_of (trace (snd (run env (body row f) w)))
  = sends_of (trace w) ++ [target row].
Variables with_emoji early : bool.
Variable MAX : JsInt.

(** The loop, while its updates succeed: one call per row, in order. *)
Lemma loop_sends rows : forall f w c,
  client f = Some c ->
  (forall k, (k < List.length rows)%nat -> store_fault env (n_store w + k) = None) ->
  exists f1 w1,
    run env (for_of rows body f) w = (Settled (f1, Normal tt), w1) /\
    client f1 = Some c /\
    n_store w1 = (n_store w + List.length rows)%nat /\
    client_released w1 = client_released w /\
    sends_of (trace w1) = sends_of (trace w) ++ map target rows.
Proof.
  induction rows as [|row rest IH]; intros f w c Hc Hok.
  - exists f, w. cbn [for_of List.length map]. rewrite run_ret, app_nil_r.
    repeat split; auto.
  - cbn [for_of]. rewrite run_bind.
    destruct (body_step row f w Hc)
      as (f1 & cpl & w1 & st & v & Hrun & Hc1 & _ & Hq & _ & Hr & _ & Hcase).
    pose proof (body_sends row f w) as Hs. rewrite Hrun in Hs |- *.
    cbn [snd] in Hs.
    rewrite <- (Nat.add_0_r (n_store w)), (Hok 0%nat) in Hcase
      by (cbn [List.length]; lia).
    destruct Hcase as (-> & _).
    destruct (IH f1 w1 c Hc1) as (f2 & w2 & Hrun2 & Hc2 & Hq2 & Hr2 & Hs2).
    { intros k Hk. rewrite Hq.
      replace (S (n_store w) + k)%nat with (n_store w + S k)%nat by lia.
      apply Hok. cbn [List.length]. lia. }
    exists f2, w2. split; [exact Hrun2|]. split; [exact Hc2|].
    split; [rewrite Hq2, Hq; cbn [List.length]; lia|].
    split; [congruence|].
    rewrite Hs2, Hs, <- app_assoc. reflexivity.
Qed.

(** From the claim's answer on: whatever the commit does, the dice of
    the batch were sent. *)
Lemma process_batch_sends result f W c :
  client f = Some c ->
  (forall k, (k < List.length (rows result))%nat ->
     store_fault env (n_store W + k) = None) ->
  sends_of (trace (snd (run env (process_batch early body result f) W)))
  = sends_of (trace W) ++ map target (rows result).
Proof.
  intros Hc Hok. unfold process_batch.
  rewrite run_bind.
  destruct (rows result) as [|row rest] eqn:Hrows.
  - cbn [List.length Nat.eqb map]. rewrite app_nil_r.
    rewrite run_bind, run_client_do, Hc, run_query.
    destruct (store_fault env (n_store W)); [sends_done|].
    cbn [exec_sql fst snd].
    destruct early.
    + rewrite run_bind, run_client_do, Hc.
      fold (@call Frame unit (client_release c)).
      rewrite run_release. proj.
      destruct (client_released W); [sends_done|].
      rewrite run_return. sends_done.
    + rewrite run_return. sends_done.
  - cbn [List.length Nat.eqb]. rewrite run_ret.
    rewrite run_bind, run_console, run_bind.
    destruct (@loop_sends (row :: rest) f
                (record (Ev (console console_log "[DB_POLL]") (inr tt)) W) c Hc)
      as (f1 & w1 & Hrun & Hc1 & _ & _ & Hs).
    { intros k Hk. proj. apply Hok. exact Hk. }
    rewrite Hrun. proj in Hs. rewrite sends_of_app in Hs.
    cbn [sends_of flat_map sent_to app] in Hs. rewrite app_nil_r in Hs.
    rewrite run_bind, run_client_do, Hc1, run_query.
    destruct (store_fault env (n_store w1)).
    + proj. rewrite sends_of_app. cbn [sends_of flat_map sent_to app].
      rewrite app_nil_r. exact Hs.
    + cbn [exec_sql fst snd]. rewrite run_ret. proj.
      rewrite sends_of_app. cbn [sends_of flat_map sent_to app].
      rewrite app_nil_r. exact Hs.
Qed.

(** A cycle whose connect, [BEGIN], claim and updates succeed sends one
    dice per claimed row, oldest first, whatever the commit does. *)
Lemma cycle_sends w n :
  pool_ended w = false ->
  limit_of MAX = Some n ->
  (forall k, (k < 3 + List.length
                     (claimed_tuples (leased_elsewhere env) n (view w)))%nat ->
     store_fault env (n_store w + k) = None) ->
  sends_of (trace (snd (run env (cycle with_emoji early body MAX entry) w)))
  = sends_of (trace w)
    ++ map target (map (project with_emoji)
                     (claimed_tuples (leased_elsewhere env) n (view w))).
Proof.
  intros Hpe Hlim Hok.
  assert (Hf0 : store_fault env (n_store w) = None).
  { rewrite <- (Nat.add_0_r (n_store w)). apply Hok. lia. }
  assert (Hf1 : store_fault env (S (n_store w)) = None).
  { replace (S (n_store w)) with (n_store w + 1)%nat by lia. apply Hok. lia. }
  assert (Hf2 : store_fault env (S (S (n_store w))) = None).
  { replace (S (S (n_store w))) with (n_store w + 2)%nat by lia.
    apply Hok. lia. }
  unfold cycle, try_catch_finally.
  rewrite run_bind, run_modify.
  rewrite sends_try_finally
    by (apply release_client_calls; intros; reflexivity).
  rewrite sends_try_catch
    by (intros e; apply on_cycle_error_calls; intros; reflexivity).
  unfold try_block.
  rewrite run_bind, run_connect, Hpe, Hf0.
  rewrite run_bind, run_modify.
  rewrite run_bind, run_client_do. proj.
  rewrite run_query. proj. rewrite Hf1.
  cbn [exec_sql fst snd]. proj. views.
  rewrite run_bind, run_client_do. proj. rewrite run_query. proj.
  rewrite Hf2.
  rewrite exec_select. views. rewrite Hlim. cbv zeta. cbn [fst snd].
  rewrite process_batch_sends with (c := clock w); [|reflexivity|].
  - proj. rewrite !sends_of_app. cbn [sends_of flat_map sent_to app rows].
    rewrite !app_nil_r. reflexivity.
  - cbn [rows]. rewrite length_map. intros k Hk. proj.
    replace (S (S (S (n_store w))) + k)%nat with (n_store w + (3 + k))%nat
      by lia.
    apply Hok. lia.
Qed.
End Sends.

(** ** A served request is not served again *)

Lemma loop_post_ids env Q sends rows s q V V1 cpl q1 :
  loop_post env Q sends rows s q V V1 cpl q1 ->
  map id_of V1 = map id_of V.
Proof.
  induction 1 as [s q V|row rest s q V e Hf
                 |row rest s q V V1 st v cpl q1 Hf Hq Hp IH]; auto.
  rewrite IH, map_map. apply map_ext. intros t. apply id_of_update_tuple.
Qed.

(** After a cycle without store failures every tuple that bears the id
    of a claimed row has a terminal status. *)
Lemma cycle_batch_terminal env Q sends body with_emoji early MAX n w t t' :
  row_step env Q sends body ->
  (forall s st v, Q s st v -> st <> pending) ->
  txn w = None ->
  pool_ended w = false ->
  limit_of MAX = Some n ->
  (forall k, store_fault env k = None) ->
  NoDup (map id_of (table w)) ->
  In t (claimed_tuples (leased_elsewhere env) n (table w)) ->
  In t' (table (snd (run env (cycle with_emoji early body MAX entry) w))) ->
  id_of t' = id_of t ->
  status t' <> pending.
Proof.
  intros Hstep HQ Htx Hpe Hlim Hok Hnd Ht Ht' Hid.
  destruct (@cycle_commits env Q sends body with_emoji early MAX n w
              Hstep Hpe Hlim Hok) as (f1 & cpl & w1 & Hrun & Hcom & _).
  rewrite Hrun in Ht'. cbn [snd] in Ht'.
  destruct Hcom as (_ & _ & _ & _ & _ & _ & Hpost & _).
  unfold view in Hpost. rewrite Htx in Hpost.
  destruct (claimed_tuples_spec (leased_elsewhere env) n (table w))
    as (_ & Hall & _).
  apply In_nth_error in Ht. destruct Ht as (i & Hi).
  edestruct loop_post_each_row as (st & v & Hq & Hin);
    [ exact Hpost
    | apply claimed_tuples_NoDup, Hnd
    | eapply Forall_impl; [|exact Hall]; intros x (Hx & Hp & _); auto
    | exact Hi
    | ].
  assert (Hnd1 : NoDup (map id_of (table w1))).
  { rewrite (loop_post_ids Hpost). exact Hnd. }
  rewrite (NoDup_map_same id_of _ _ _ Hnd1 Ht' Hin Hid). cbn [status].
  eapply HQ, Hq.
Qed.

(** X1. With the pool open, the connect and the test query succeeding
    and Telegram answering [getMe], [startHelperBot] of part_005 and of
    part_001 returns normally, has released its test client, and has set
    one poll timer whose id it keeps in the variable the shutdown
    handler reads. *)
Theorem X1_startHelperBot_starts_polling env w :
  pool_ended w = false ->
  store_fault env (n_store w) = None ->
  store_fault env (S (n_store w)) = None ->
  getMe_fault env = None ->
  polling_started w (run env (AnimatedEmoji.startHelperBot tt) w) /\
  polling_started w (run env (AnimatedDice.startHelperBot tt) w).
Proof.
  intros Hpe Hf0 Hf1 Hme. now apply startHelperBot_starts_polling.
Qed.

Lemma X1_startHelperBot_starts_polling_witness :
  pool_ended not_started = false /\
  store_fault no_faults (n_store not_started) = None /\
  store_fault no_faults (S (n_store not_started)) = None /\
  getMe_fault no_faults = None /\
  polling_started not_started (run no_faults (AnimatedEmoji.startHelperBot tt) not_started) /\
  polling_started not_started (run no_faults (AnimatedDice.startHelperBot tt) not_started).
Proof.
  split; [reflexivity|]. split; [reflexivity|]. split; [reflexivity|].
  split; [reflexivity|].
  exact (@X1_startHelperBot_starts_polling no_faults not_started
           eq_refl eq_refl eq_refl eq_refl).
Defined.

(** X2. When [pool.connect()] fails, or when [getMe] fails after the
    test query succeeded and the test client was released,
    [startHelperBot] of part_005 and of part_001 closes the pool,
    ignoring a failure of that, and exits the process with code 1; no
    client is checked out when the pool is closed, no timer was set and
    the table is untouched. *)
Theorem X2_startHelperBot_failure_exits env w :
  client_released w = true ->
  connect_error env w <> None \/
  (connect_error env w = None /\
   store_fault env (S (n_store w)) = None /\
   getMe_fault env <> None) ->
  exits_without_client w (run env (AnimatedEmoji.startHelperBot tt) w) /\
  exits_without_client w (run env (AnimatedDice.startHelperBot tt) w).
Proof. apply startHelperBot_exits. Qed.

Lemma X2_startHelperBot_failure_exits_witness :
  client_released not_started = true /\
  (connect_error telegram_down not_started <> None \/
   (connect_error telegram_down not_started = None /\
    store_fault telegram_down (S (n_store not_started)) = None /\
    getMe_fault telegram_down <> None)) /\
  exits_without_client not_started
    (run telegram_down (AnimatedEmoji.startHelperBot tt) not_started) /\
  exits_without_client not_started
    (run telegram_down (AnimatedDice.startHelperBot tt) not_started).
Proof.
  assert (H : connect_error telegram_down not_started <> None \/
              (connect_error telegram_down not_started = None /\
               store_fault telegram_down (S (n_store not_started)) = None /\
               getMe_fault telegram_down <> None)).
  { right. split; [reflexivity|]. split; [reflexivity|]. simpl. discriminate. }
  split; [reflexivity|]. split; [exact H|].
  exact (@X2_startHelperBot_failure_exits telegram_down not_started eq_refl H).
Defined.

(** X3. Startup and shutdown fit together: after a [startHelperBot] that
    succeeded, the first shutdown signal clears exactly the timer that
    startup set, so that it is no longer active, and exits the process
    with code 0 (part_005 and part_001). *)
Theorem X3_shutdown_clears_the_started_timer env signal w :
  pool_ended w = false ->
  store_fault env (n_store w) = None ->
  store_fault env (S (n_store w)) = None ->
  getMe_fault env = None ->
  isShuttingDownHelper w = false ->
  (let w1 := snd (run env (AnimatedEmoji.startHelperBot tt) w) in
   let r := run env (AnimatedEmoji.shutdownHelper signal tt) w1 in
   In (clock w + 11)%nat (active_timers w1) /\
   fst r = Exited 0 /\
   ~ In (clock w + 11)%nat (active_timers (snd r)) /\
   actions_of (trace (snd r))
   = actions_of (trace w1) ++ [StopTimer (clock w + 11)%nat]
     ++ (if polling w1 then [StopListener] else [])
     ++ [ClosePool; ExitProcess 0]) /\
  (let w1 := snd (run env (AnimatedDice.startHelperBot tt) w) in
   let r := run env (AnimatedDice.shutdown signal tt) w1 in
   In (clock w + 11)%nat (active_timers w1) /\
   fst r = Exited 0 /\
   ~ In (clock w + 11)%nat (active_timers (snd r)) /\
   actions_of (trace (snd r))
   = actions_of (trace w1) ++ [StopTimer (clock w + 11)%nat]
     ++ (if polling w1 then [StopListener] else [])
     ++ [ClosePool; ExitProcess 0]).
Proof.
  intros Hpe Hf0 Hf1 Hme Hflag.
  destruct (startHelperBot_starts_polling env w Hpe Hf0 Hf1 Hme)
    as [(_ & Hid & Hat & _ & _ & Hfl) (_ & Hid' & Hat' & _ & _ & Hfl')].
  split; cbv zeta.
  - rewrite Hflag in Hfl.
    destruct (shutdownHelper_first env signal _ Hfl)
      as (Hex & Hact & _ & Hcl & _).
    split; [rewrite Hat; left; reflexivity|].
    split; [exact Hex|]. split; [apply Hcl, Hid|].
    rewrite Hact, Hid. reflexivity.
  - rewrite Hflag in Hfl'.
    destruct (shutdown_first env signal _ Hfl')
      as (Hex & Hact & _ & Hcl & _).
    split; [rewrite Hat'; left; reflexivity|].
    split; [exact Hex|]. split; [apply Hcl, Hid'|].
    rewrite Hact, Hid'. reflexivity.
Qed.

Lemma X3_shutdown_clears_the_started_timer_witness :
  pool_ended not_started = false /\
  store_fault no_faults (n_store not_started) = None /\
  store_fault no_faults (S (n_store not_started)) = None /\
  getMe_fault no_faults = None /\
  isShuttingDownHelper not_started = false /\
  (let w1 := snd (run no_faults (AnimatedEmoji.startHelperBot tt) not_started) in
   let r := run no_faults (AnimatedEmoji.shutdownHelper "SIGTERM" tt) w1 in
   In (clock not_started + 11)%nat (active_timers w1) /\
   fst r = Exited 0 /\
   ~ In (clock not_started + 11)%nat (active_timers (snd r)) /\
   actions_of (trace (snd r))
   = actions_of (trace w1) ++ [StopTimer (clock not_started + 11)%nat]
     ++ (if polling w1 then [StopListener] else [])
     ++ [ClosePool; ExitProcess 0]) /\
  (let w1 := snd (run no_faults (AnimatedDice.startHelperBot tt) not_started) in
   let r := run no_faults (AnimatedDice.shutdown "SIGTERM" tt) w1 in
   In (clock not_started + 11)%nat (active_timers w1) /\
   fst r = Exited 0 /\
   ~ In (clock not_started + 11)%nat (active_timers (snd r)) /\
   actions_of (trace (snd r))
   = actions_of (trace w1) ++ [StopTimer (clock not_started + 11)%nat]
     ++ (if polling w1 then [StopListener] else [])
     ++ [ClosePool; ExitProcess 0]).
Proof.
  split; [reflexivity|]. split; [reflexivity|]. split; [reflexivity|].
  split; [reflexivity|]. split; [reflexivity|].
  exact (@X3_shutdown_clears_the_started_timer no_faults "SIGTERM" not_started
           eq_refl eq_refl eq_refl eq_refl eq_refl).
Defined.

(** X4. While no store call fails by losing the connection, a cycle of
    part_001 and of part_002 never rejects and never exits the process:
    whatever else the store and the channel do, the invocation runs to
    its end and settles with its promise fulfilled, and the timers, the
    listener, the pool's state and the shutdown flag are as before. *)
Theorem X4_cycle_never_rejects env lost MAX w :
  connection_kept env lost ->
  (ran_as (run_in_process env lost
             (AnimatedDice.checkAndProcessRollRequests MAX entry) w)
     (run env (AnimatedDice.checkAndProcessRollRequests MAX entry) w) /\
   fulfilled w
     (run env (AnimatedDice.checkAndProcessRollRequests MAX entry) w)) /\
  (ran_as (run_in_process env lost
             (DbPoll.checkAndProcessRollRequests MAX entry) w)
     (run env (DbPoll.checkAndProcessRollRequests MAX entry) w) /\
   fulfilled w (run env (DbPoll.checkAndProcessRollRequests MAX entry) w)).
Proof.
  intros Hkept. split; (split; [now apply run_in_process_kept|]).
  - rewrite AnimatedDice_cycle.
    exact (cycle_fulfilled false MAX w (AnimatedDice_row_step env)).
  - rewrite DbPoll_cycle.
    exact (cycle_fulfilled false MAX w (DbPoll_row_step env)).
Qed.

Lemma X4_cycle_never_rejects_witness :
  connection_kept second_update_refused never_lost /\
  (ran_as (run_in_process second_update_refused never_lost
             (AnimatedDice.checkAndProcessRollRequests (Int 5) entry)
             three_pending)
     (run second_update_refused
        (AnimatedDice.checkAndProcessRollRequests (Int 5) entry)
        three_pending) /\
   fulfilled three_pending
     (run second_update_refused
        (AnimatedDice.checkAndProcessRollRequests (Int 5) entry)
        three_pending)) /\
  (ran_as (run_in_process second_update_refused never_lost
             (DbPoll.checkAndProcessRollRequests (Int 5) entry) three_pending)
     (run second_update_refused
        (DbPoll.checkAndProcessRollRequests (Int 5) entry) three_pending) /\
   fulfilled three_pending
     (run second_update_refused
        (DbPoll.checkAndProcessRollRequests (Int 5) entry) three_pending)).
Proof.
  assert (Hkept : connection_kept second_update_refused never_lost).
  { intros k _. reflexivity. }
  split; [exact Hkept|].
  exact (@X4_cycle_never_rejects second_update_refused never_lost (Int 5)
           three_pending Hkept).
Defined.

(** X5. When [pool.connect()] fails (the pool was ended, or the
    connection is refused) a cycle of any of the three workers logs the
    error and ends: no [ROLLBACK] and no [release] on the null client,
    no other call, the table untouched, the promise fulfilled. *)
Theorem X5_no_client_no_work env MAX w e :
  connect_error env w = Some e ->
  gave_up w e (run env (AnimatedEmoji.checkAndProcessRollRequests MAX entry) w) /\
  gave_up w e (run env (AnimatedDice.checkAndProcessRollRequests MAX entry) w) /\
  gave_up w e (run env (DbPoll.checkAndProcessRollRequests MAX entry) w).
Proof.
  intros He. split; [|split].
  - rewrite AnimatedEmoji_cycle. now apply cycle_gives_up.
  - rewrite AnimatedDice_cycle. now apply cycle_gives_up.
  - rewrite DbPoll_cycle. now apply cycle_gives_up.
Qed.

Lemma X5_no_client_no_work_witness :
  connect_error db_down three_pending
  = Some (mkError "connect ECONNREFUSED" None) /\
  gave_up three_pending (mkError "connect ECONNREFUSED" None)
    (run db_down (AnimatedEmoji.checkAndProcessRollRequests (Int 5) entry)
       three_pending) /\
  gave_up three_pending (mkError "connect ECONNREFUSED" None)
    (run db_down (AnimatedDice.checkAndProcessRollRequests (Int 5) entry)
       three_pending) /\
  gave_up three_pending (mkError "connect ECONNREFUSED" None)
    (run db_down (DbPoll.checkAndProcessRollRequests (Int 5) entry)
       three_pending).
Proof.
  split; [reflexivity|].
  exact (@X5_no_client_no_work db_down (Int 5) three_pending
           (mkError "connect ECONNREFUSED" None) eq_refl).
Defined.

(** X6. While no store call fails by losing the connection, a cycle of
    part_001 and of part_002 runs to its end and calls
    [client.release()] exactly once when [pool.connect()] gave it a
    client, on every path (empty batch, committed batch, rollback,
    failed rollback), and not at all when the connect failed. *)
Theorem X6_client_released_exactly_once env lost MAX w :
  connection_kept env lost ->
  (ran_as (run_in_process env lost
             (AnimatedDice.checkAndProcessRollRequests MAX entry) w)
     (run env (AnimatedDice.checkAndProcessRollRequests MAX entry) w) /\
   release_calls
     (trace (snd (run env
        (AnimatedDice.checkAndProcessRollRequests MAX entry) w)))
   = (release_calls (trace w)
      + match connect_error env w with Some _ => 0 | None => 1 end)%nat) /\
  (ran_as (run_in_process env lost
             (DbPoll.checkAndProcessRollRequests MAX entry) w)
     (run env (DbPoll.checkAndProcessRollRequests MAX entry) w) /\
   release_calls
     (trace (snd (run env (DbPoll.checkAndProcessRollRequests MAX entry) w)))
   = (release_calls (trace w)
      + match connect_error env w with Some _ => 0 | None => 1 end)%nat).
Proof.
  intros Hkept. split; (split; [now apply run_in_process_kept|]).
  - rewrite AnimatedDice_cycle.
    apply cycle_releases_once with (Q := channel_outcome env) (sends := 1%nat);
      [apply AnimatedDice_row_step|apply AnimatedDice_processRequest_calls].
  - rewrite DbPoll_cycle.
    apply cycle_releases_once with (Q := local_roll) (sends := 0%nat);
      [apply DbPoll_row_step|apply DbPoll_processRequest_calls].
Qed.

Lemma X6_client_released_exactly_once_witness :
  connection_kept second_update_refused never_lost /\
  (ran_as (run_in_process second_update_refused never_lost
             (AnimatedDice.checkAndProcessRollRequests (Int 5) entry)
             three_pending)
     (run second_update_refused
        (AnimatedDice.checkAndProcessRollRequests (Int 5) entry)
        three_pending) /\
   release_calls
     (trace (snd (run second_update_refused
        (AnimatedDice.checkAndProcessRollRequests (Int 5) entry)
        three_pending)))
   = (release_calls (trace three_pending)
      + match connect_error second_update_refused three_pending with
        | Some _ => 0
        | None => 1
        end)%nat) /\
  (ran_as (run_in_process second_update_refused never_lost
             (DbPoll.checkAndProcessRollRequests (Int 5) entry) three_pending)
     (run second_update_refused
        (DbPoll.checkAndProcessRollRequests (Int 5) entry) three_pending) /\
   release_calls
     (trace (snd (run second_update_refused
        (DbPoll.checkAndProcessRollRequests (Int 5) entry) three_pending)))
   = (release_calls (trace three_pending)
      + match connect_error second_update_refused three_pending with
        | Some _ => 0
        | None => 1
        end)%nat).
Proof.
  assert (Hkept : connection_kept second_update_refused never_lost).
  { intros k _. reflexivity. }
  split; [exact Hkept|].
  exact (@X6_client_released_exactly_once second_update_refused never_lost
           (Int 5) three_pending Hkept).
Defined.

(** X7. A cycle changes no row outside the batch its claim returned:
    a tuple of the table whose [request_id] is not among the claimed
    ones is in the table after the cycle exactly as it was, whatever
    fails (the three workers). *)
Theorem X7_rows_outside_batch_untouched env MAX w t :
  txn w = None ->
  In t (table w) ->
  (forall n, limit_of MAX = Some n ->
     ~ In (id_of t)
         (map id_of (claimed_tuples (leased_elsewhere env) n (table w)))) ->
  In t (table (snd (run env
          (AnimatedEmoji.checkAndProcessRollRequests MAX entry) w))) /\
  In t (table (snd (run env
          (AnimatedDice.checkAndProcessRollRequests MAX entry) w))) /\
  In t (table (snd (run env
          (DbPoll.checkAndProcessRollRequests MAX entry) w))).
Proof.
  intros Htx Hin Hout. split; [|split].
  - rewrite AnimatedEmoji_cycle.
    exact (cycle_keeps_others true true MAX w t
             (AnimatedEmoji_row_step env) Htx Hin Hout).
  - rewrite AnimatedDice_cycle.
    exact (cycle_keeps_others false false MAX w t
             (AnimatedDice_row_step env) Htx Hin Hout).
  - rewrite DbPoll_cycle.
    exact (cycle_keeps_others false false MAX w t
             (DbPoll_row_step env) Htx Hin Hout).
Qed.

Lemma X7_rows_outside_batch_untouched_witness :
  txn three_pending = None /\
  In (mkTuple (request.mk 3 10 23 30 None) pending None 7 None)
    (table three_pending) /\
  (forall n, limit_of (Int 2) = Some n ->
     ~ In (id_of (mkTuple (request.mk 3 10 23 30 None) pending None 7 None))
         (map id_of (claimed_tuples (leased_elsewhere no_faults) n
                       (table three_pending)))) /\
  In (mkTuple (request.mk 3 10 23 30 None) pending None 7 None)
    (table (snd (run no_faults
       (AnimatedEmoji.checkAndProcessRollRequests (Int 2) entry) three_pending))) /\
  In (mkTuple (request.mk 3 10 23 30 None) pending None 7 None)
    (table (snd (run no_faults
       (AnimatedDice.checkAndProcessRollRequests (Int 2) entry) three_pending))) /\
  In (mkTuple (request.mk 3 10 23 30 None) pending None 7 None)
    (table (snd (run no_faults
       (DbPoll.checkAndProcessRollRequests (Int 2) entry) three_pending))).
Proof.
  assert (Hin : In (mkTuple (request.mk 3 10 23 30 None) pending None 7 None)
                  (table three_pending)).
  { simpl. right. right. left. reflexivity. }
  assert (Hout : forall n, limit_of (Int 2) = Some n ->
     ~ In (id_of (mkTuple (request.mk 3 10 23 30 None) pending None 7 None))
         (map id_of (claimed_tuples (leased_elsewhere no_faults) n
                       (table three_pending)))).
  { intros n Hn. injection Hn as <-. vm_compute.
    intros [H|[H|[]]]; discriminate H. }
  split; [reflexivity|]. split; [exact Hin|]. split; [exact Hout|].
  exact (@X7_rows_outside_batch_untouched no_faults (Int 2) three_pending
           (mkTuple (request.mk 3 10 23 30 None) pending None 7 None)
           eq_refl Hin Hout).
Defined.

(** X8. What a cycle calls: a cycle of the plain worker (part_002)
    performs nothing but [pool.connect], [client.query],
    [client.release], [Math.random] and console output, so it never
    calls the channel; a cycle of the animated workers performs nothing
    but the pool and client calls, [bot.sendDice] and console output.
    No cycle sets or clears a timer, stops the listener, ends the pool
    or exits the process. *)
Theorem X8_cycle_calls env MAX w :
  (exists tr,
     trace (snd (run env (DbPoll.checkAndProcessRollRequests MAX entry) w))
     = trace w ++ tr /\
     forallb plain_cycle_call tr = true /\ sends_of tr = []) /\
  (exists tr,
     trace (snd (run env (AnimatedDice.checkAndProcessRollRequests MAX entry) w))
     = trace w ++ tr /\
     forallb animated_cycle_call tr = true) /\
  (exists tr,
     trace (snd (run env (AnimatedEmoji.checkAndProcessRollRequests MAX entry) w))
     = trace w ++ tr /\
     forallb animated_cycle_call tr = true).
Proof.
  split; [|split].
  - destruct (run_calls_only env (DbPoll_cycle_calls MAX entry) w)
      as (tr & Htr & Hok).
    exists tr. auto using plain_cycle_call_sends.
  - exact (run_calls_only env (AnimatedDice_cycle_calls MAX entry) w).
  - exact (run_calls_only env (AnimatedEmoji_cycle_calls MAX entry) w).
Qed.

(** ** Process-level handlers *)

(** The handler of part_005 on an uncaught exception. *)
Lemma on_uncaughtException_run env w :
  let r := run env (AnimatedEmoji_on_uncaughtException tt) w in
  (isShuttingDownHelper w = false ->
   fst r = Exited 0 /\ In ClosePool (actions_of (trace (snd r)))) /\
  (isShuttingDownHelper w = true ->
   fst r = Settled (tt, Normal tt) /\
   actions_of (trace (snd r)) = actions_of (trace w) /\
   active_timers (snd r) = active_timers w /\
   pool_ended (snd r) = pool_ended w).
Proof.
  cbv zeta. unfold AnimatedEmoji_on_uncaughtException.
  rewrite run_bind, run_console, run_try_catch, run_invoke.
  split; intros Hflag.
  - destruct (@shutdownHelper_first env "uncaughtException_exit"
                (record (Ev (console console_error
                               "HELPER BOT UNCAUGHT EXCEPTION AT:") (inr tt)) w)
                Hflag) as (Hex & Hact & _).
    destruct (run env (AnimatedEmoji.shutdownHelper "uncaughtException_exit" tt)
                (record (Ev (console console_error
                               "HELPER BOT UNCAUGHT EXCEPTION AT:") (inr tt)) w))
      as [o w1].
    cbn [fst snd] in Hex, Hact. subst o. cbn [fst snd].
    split; [reflexivity|]. rewrite Hact.
    apply in_or_app. right. apply in_or_app. right.
    apply in_or_app. right. left. reflexivity.
  - destruct (@shutdownHelper_in_progress env "uncaughtException_exit"
                (record (Ev (console console_error
                               "HELPER BOT UNCAUGHT EXCEPTION AT:") (inr tt)) w)
                Hflag) as (Hex & Hact & Hat & _ & Hpe & _).
    destruct (run env (AnimatedEmoji.shutdownHelper "uncaughtException_exit" tt)
                (record (Ev (console console_error
                               "HELPER BOT UNCAUGHT EXCEPTION AT:") (inr tt)) w))
      as [o w1].
    cbn [fst snd] in Hex, Hact, Hat, Hpe. subst o. cbn [fst snd].
    split; [reflexivity|]. rewrite Hact, Hat, Hpe. proj.
    split; [actions|]. split; reflexivity.
Qed.

(** X9. On an uncaught exception the handler of part_005 runs the
    graceful shutdown and the process exits with code 0; its
    [process.exit(1)] is never reached, since [shutdownHelper] catches
    the failures of its own steps. While a shutdown is already in
    progress the handler only logs: it neither exits nor touches the
    timer or the pool. The handler of part_001 exits with code 1 at
    once. *)
Theorem X9_uncaught_exception_exit_code env w :
  fst (run env (AnimatedEmoji_on_uncaughtException tt) w) <> Exited 1 /\
  (isShuttingDownHelper w = false ->
   fst (run env (AnimatedEmoji_on_uncaughtException tt) w) = Exited 0 /\
   In ClosePool
     (actions_of (trace (snd (run env (AnimatedEmoji_on_uncaughtException tt) w))))) /\
  (isShuttingDownHelper w = true ->
   fst (run env (AnimatedEmoji_on_uncaughtException tt) w)
   = Settled (tt, Normal tt) /\
   actions_of (trace (snd (run env (AnimatedEmoji_on_uncaughtException tt) w)))
   = actions_of (trace w)) /\
  fst (run env (AnimatedDice_on_uncaughtException tt) w) = Exited 1.
Proof.
  destruct (on_uncaughtException_run env w) as [Hfirst Hagain].
  split; [|split; [|split]].
  - destruct (isShuttingDownHelper w).
    + destruct (Hagain eq_refl) as (-> & _). discriminate.
    + destruct (Hfirst eq_refl) as (-> & _). discriminate.
  - exact Hfirst.
  - intros Hflag. destruct (Hagain Hflag) as (H1 & H2 & _). auto.
  - reflexivity.
Qed.

(** X10. In a cycle whose connect, [BEGIN], claim query and updates
    succeed, the animated workers call [sendDice] exactly once per
    claimed row, in the order of the claim (oldest request first), each
    for its row's chat: part_005 with the row's [emoji_type] or the
    default die, part_001 without an emoji option. Whether the commit
    then succeeds makes no difference to what was sent. *)
Theorem X10_one_dice_per_claimed_row env MAX n w :
  pool_ended w = false ->
  limit_of MAX = Some n ->
  (forall k, (k < 3 + List.length
                     (claimed_tuples (leased_elsewhere env) n (view w)))%nat ->
     store_fault env (n_store w + k) = None) ->
  sends_of (trace (snd (run env
     (AnimatedEmoji.checkAndProcessRollRequests MAX entry) w)))
  = sends_of (trace w)
    ++ map (fun t => (request.chat_id (cols t),
                      Some (js_or (request.emoji_type (cols t)) "🎲")))
         (claimed_tuples (leased_elsewhere env) n (view w)) /\
  sends_of (trace (snd (run env
     (AnimatedDice.checkAndProcessRollRequests MAX entry) w)))
  = sends_of (trace w)
    ++ map (fun t => (request.chat_id (cols t), None))
         (claimed_tuples (leased_elsewhere env) n (view w)).
Proof.
  intros Hpe Hlim Hok. split.
  - rewrite AnimatedEmoji_cycle.
    rewrite (@cycle_sends env (channel_outcome env) 1%nat
               AnimatedEmoji.processRequest
               (fun row => (request.chat_id row,
                            Some (AnimatedEmoji.emojiToSend row)))
               (AnimatedEmoji_row_step env) (AnimatedEmoji_sends env)
               true true MAX w n Hpe Hlim Hok).
    rewrite map_map. reflexivity.
  - rewrite AnimatedDice_cycle.
    rewrite (@cycle_sends env (channel_outcome env) 1%nat
               AnimatedDice.processRequest
               (fun row => (request.chat_id row, None))
               (AnimatedDice_row_step env) (AnimatedDice_sends env)
               false false MAX w n Hpe Hlim Hok).
    rewrite map_map. reflexivity.
Qed.

Lemma X10_one_dice_per_claimed_row_witness :
  pool_ended three_pending = false /\
  limit_of (Int 2) = Some 2%nat /\
  (forall k, (k < 3 + List.length
                     (claimed_tuples (leased_elsewhere no_faults) 2
                        (view three_pending)))%nat ->
     store_fault no_faults (n_store three_pending + k) = None) /\
  sends_of (trace (snd (run no_faults
     (AnimatedEmoji.checkAndProcessRollRequests (Int 2) entry) three_pending)))
  = sends_of (trace three_pending)
    ++ map (fun t => (request.chat_id (cols t),
                      Some (js_or (request.emoji_type (cols t)) "🎲")))
         (claimed_tuples (leased_elsewhere no_faults) 2 (view three_pending)) /\
  sends_of (trace (snd (run no_faults
     (AnimatedDice.checkAndProcessRollRequests (Int 2) entry) three_pending)))
  = sends_of (trace three_pending)
    ++ map (fun t => (request.chat_id (cols t), None))
         (claimed_tuples (leased_elsewhere no_faults) 2 (view three_pending)).
Proof.
  split; [reflexivity|]. split; [reflexivity|].
  split; [intros k Hk; reflexivity|].
  exact (@X10_one_dice_per_claimed_row no_faults (Int 2) 2%nat three_pending
           eq_refl eq_refl (fun k Hk => eq_refl)).
Defined.

(** X11. Delivery is at least once: when every call of a cycle of the
    animated workers succeeds but the final [COMMIT], the dice of the
    whole batch have been sent and yet the table is exactly as before
    the cycle, so the same rows are still pending for the next one. *)
Theorem X11_failed_commit_after_sending env MAX n w :
  pool_ended w = false ->
  limit_of MAX = Some n ->
  (forall k, (k < 3 + List.length
                     (claimed_tuples (leased_elsewhere env) n (view w)))%nat ->
     store_fault env (n_store w + k) = None) ->
  store_fault env
    (n_store w + (3 + List.length
                        (claimed_tuples (leased_elsewhere env) n (view w))))
  <> None ->
  (table (snd (run env
      (AnimatedEmoji.checkAndProcessRollRequests MAX entry) w)) = table w /\
   sends_of (trace (snd (run env
      (AnimatedEmoji.checkAndProcessRollRequests MAX entry) w)))
   = sends_of (trace w)
     ++ map (fun t => (request.chat_id (cols t),
                       Some (js_or (request.emoji_type (cols t)) "🎲")))
          (claimed_tuples (leased_elsewhere env) n (view w))) /\
  (table (snd (run env
      (AnimatedDice.checkAndProcessRollRequests MAX entry) w)) = table w /\
   sends_of (trace (snd (run env
      (AnimatedDice.checkAndProcessRollRequests MAX entry) w)))
   = sends_of (trace w)
     ++ map (fun t => (request.chat_id (cols t), None))
          (claimed_tuples (leased_elsewhere env) n (view w))).
Proof.
  intros Hpe Hlim Hok Hcommit.
  assert (Hf0 : store_fault env (n_store w) = None).
  { rewrite <- (Nat.add_0_r (n_store w)). apply Hok. lia. }
  assert (Hfail : cycle_fails env MAX w).
  { right. exists n, (3 + List.length
                          (claimed_tuples (leased_elsewhere env) n (view w)))%nat.
    split; [exact Hlim|]. split; [lia|exact Hcommit]. }
  split; split.
  - rewrite AnimatedEmoji_cycle.
    apply (cycle_rolls_back true true (AnimatedEmoji_row_step env) Hpe Hf0 Hfail).
  - rewrite AnimatedEmoji_cycle.
    rewrite (@cycle_sends env (channel_outcome env) 1%nat
               AnimatedEmoji.processRequest
               (fun row => (request.chat_id row,
                            Some (AnimatedEmoji.emojiToSend row)))
               (AnimatedEmoji_row_step env) (AnimatedEmoji_sends env)
               true true MAX w n Hpe Hlim Hok).
    rewrite map_map. reflexivity.
  - rewrite AnimatedDice_cycle.
    apply (cycle_rolls_back false false (AnimatedDice_row_step env) Hpe Hf0 Hfail).
  - rewrite AnimatedDice_cycle.
    rewrite (@cycle_sends env (channel_outcome env) 1%nat
               AnimatedDice.processRequest
               (fun row => (request.chat_id row, None))
               (AnimatedDice_row_step env) (AnimatedDice_sends env)
               false false MAX w n Hpe Hlim Hok).
    rewrite map_map. reflexivity.
Qed.

Lemma X11_failed_commit_after_sending_witness :
  pool_ended three_pending = false /\
  limit_of (Int 5) = Some 5%nat /\
  (forall k, (k < 3 + List.length
                     (claimed_tuples (leased_elsewhere commit_fails) 5
                        (view three_pending)))%nat ->
     store_fault commit_fails (n_store three_pending + k) = None) /\
  store_fault commit_fails
    (n_store three_pending
     + (3 + List.length
              (claimed_tuples (leased_elsewhere commit_fails) 5
                 (view three_pending))))
  <> None /\
  (table (snd (run commit_fails
      (AnimatedEmoji.checkAndProcessRollRequests (Int 5) entry) three_pending))
   = table three_pending /\
   sends_of (trace (snd (run commit_fails
      (AnimatedEmoji.checkAndProcessRollRequests (Int 5) entry) three_pending)))
   = sends_of (trace three_pending)
     ++ map (fun t => (request.chat_id (cols t),
                       Some (js_or (request.emoji_type (cols t)) "🎲")))
          (claimed_tuples (leased_elsewhere commit_fails) 5
             (view three_pending))) /\
  (table (snd (run commit_fails
      (AnimatedDice.checkAndProcessRollRequests (Int 5) entry) three_pending))
   = table three_pending /\
   sends_of (trace (snd (run commit_fails
      (AnimatedDice.checkAndProcessRollRequests (Int 5) entry) three_pending)))
   = sends_of (trace three_pending)
     ++ map (fun t => (request.chat_id (cols t), None))
          (claimed_tuples (leased_elsewhere commit_fails) 5
             (view three_pending))).
Proof.
  assert (Hok : forall k,
            (k < 3 + List.length
                   (claimed_tuples (leased_elsewhere commit_fails) 5
                      (view three_pending)))%nat ->
            store_fault commit_fails (n_store three_pending + k) = None).
  { vm_compute. intros k Hk.
    do 6 (destruct k as [|k]; [reflexivity|]). lia. }
  assert (Hc : store_fault commit_fails
                 (n_store three_pending
                  + (3 + List.length
                           (claimed_tuples (leased_elsewhere commit_fails) 5
                              (view three_pending))))
               <> None).
  { vm_compute. discriminate. }
  split; [reflexivity|]. split; [reflexivity|]. split; [exact Hok|].
  split; [exact Hc|].
  exact (@X11_failed_commit_after_sending commit_fails (Int 5) 5%nat
           three_pending eq_refl eq_refl Hok Hc).
Defined.

(** X12. No request is served twice: after a cycle without store
    failures on a table with unique ids, every tuple bearing the
    [request_id] of a claimed row has a terminal status, so no later
    claim, whatever its limit and whatever is locked then, returns that
    request again (the three workers). *)
Theorem X12_served_request_not_claimed_again env MAX n w :
  txn w = None ->
  pool_ended w = false ->
  limit_of MAX = Some n ->
  (forall k, store_fault env k = None) ->
  NoDup (map id_of (table w)) ->
  forall t, In t (claimed_tuples (leased_elsewhere env) n (table w)) ->
  forall leased n' t',
    (In t' (claimed_tuples leased n'
              (table (snd (run env
                 (AnimatedEmoji.checkAndProcessRollRequests MAX entry) w)))) ->
     id_of t' <> id_of t) /\
    (In t' (claimed_tuples leased n'
              (table (snd (run env
                 (AnimatedDice.checkAndProcessRollRequests MAX entry) w)))) ->
     id_of t' <> id_of t) /\
    (In t' (claimed_tuples leased n'
              (table (snd (run env
                 (DbPoll.checkAndProcessRollRequests MAX entry) w)))) ->
     id_of t' <> id_of t).
Proof.
  intros Htx Hpe Hlim Hok Hnd t Ht leased n' t'.
  assert (Hclaim : forall T, In t' (claimed_tuples leased n' T) ->
                     In t' T /\ status t' = pending).
  { intros T HT.
    destruct (claimed_tuples_spec leased n' T) as (_ & Hall & _).
    rewrite Forall_forall in Hall. destruct (Hall t' HT) as (H1 & H2 & _).
    auto. }
  split; [|split]; intros Hin Hid; destruct (Hclaim _ Hin) as (Hin' & Hp).
  - rewrite AnimatedEmoji_cycle in Hin'.
    refine (@cycle_batch_terminal env (channel_outcome env) 1%nat _ true true
              MAX n w t t' (AnimatedEmoji_row_step env) _
              Htx Hpe Hlim Hok Hnd Ht Hin' Hid Hp).
    intros s st v Hq. apply (channel_outcome_from_channel Hq).
  - rewrite AnimatedDice_cycle in Hin'.
    refine (@cycle_batch_terminal env (channel_outcome env) 1%nat _ false false
              MAX n w t t' (AnimatedDice_row_step env) _
              Htx Hpe Hlim Hok Hnd Ht Hin' Hid Hp).
    intros s st v Hq. apply (channel_outcome_from_channel Hq).
  - rewrite DbPoll_cycle in Hin'.
    refine (@cycle_batch_terminal env local_roll 0%nat _ false false
              MAX n w t t' (DbPoll_row_step env) _
              Htx Hpe Hlim Hok Hnd Ht Hin' Hid Hp).
    intros s st v Hq. apply (local_roll_outcome_local Hq).
Qed.

Lemma X12_served_request_not_claimed_again_witness :
  txn three_pending = None /\
  pool_ended three_pending = false /\
  limit_of (Int 2) = Some 2%nat /\
  (forall k, store_fault no_faults k = None) /\
  NoDup (map id_of (table three_pending)) /\
  In (mkTuple (request.mk 1 10 21 30 None) pending None 5 None)
    (claimed_tuples (leased_elsewhere no_faults) 2 (table three_pending)) /\
  (forall leased n' t',
    (In t' (claimed_tuples leased n'
              (table (snd (run no_faults
                 (AnimatedEmoji.checkAndProcessRollRequests (Int 2) entry)
                 three_pending)))) ->
     id_of t' <> id_of (mkTuple (request.mk 1 10 21 30 None) pending None 5 None)) /\
    (In t' (claimed_tuples leased n'
              (table (snd (run no_faults
                 (AnimatedDice.checkAndProcessRollRequests (Int 2) entry)
                 three_pending)))) ->
     id_of t' <> id_of (mkTuple (request.mk 1 10 21 30 None) pending None 5 None)) /\
    (In t' (claimed_tuples leased n'
              (table (snd (run no_faults
                 (DbPoll.checkAndProcessRollRequests (Int 2) entry)
                 three_pending)))) ->
     id_of t' <> id_of (mkTuple (request.mk 1 10 21 30 None) pending None 5 None))).
Proof.
  assert (Hnd : NoDup (map id_of (table three_pending))).
  { simpl. repeat constructor; simpl; intuition discriminate. }
  assert (Hin : In (mkTuple (request.mk 1 10 21 30 None) pending None 5 None)
                  (claimed_tuples (leased_elsewhere no_faults) 2
                     (table three_pending))).
  { vm_compute. left. reflexivity. }
  split; [reflexivity|]. split; [reflexivity|]. split; [reflexivity|].
  split; [intros k; reflexivity|]. split; [exact Hnd|]. split; [exact Hin|].
  exact (@X12_served_request_not_claimed_again no_faults (Int 2) 2%nat
           three_pending eq_refl eq_refl eq_refl (fun _ => eq_refl) Hnd
           (mkTuple (request.mk 1 10 21 30 None) pending None 5 None) Hin).
Defined.

(** * Properties of the message-triggered bots *)

(** ** The fallback die *)

Lemma roll_range x : 0 <= x < 2 ^ 53 -> 1 <= Trigger.roll x <= 6.
Proof.
  intros Hx. unfold Trigger.roll.
  rewrite <- (Z.mod_small x (2 ^ 53)) by exact Hx.
  apply local_roll_range.
Qed.

Lemma roll_faces v :
  1 <= v <= 6 -> exists x, 0 <= x < 2 ^ 53 /\ Trigger.roll x = v.
Proof.
  intros Hv.
  exists (((v - 1) * 2 ^ 53 + 5) / 6).
  assert (H : v = 1 \/ v = 2 \/ v = 3 \/ v = 4 \/ v = 5 \/ v = 6) by lia.
  destruct H as [->|[->|[->|[->|[->| ->]]]]]; vm_compute; intuition congruence.
Qed.

(** ** Matching *)

Lemma ascii_lower_app a b :
  Trigger.ascii_lower (a ++ b)
  = (Trigger.ascii_lower a ++ Trigger.ascii_lower b)%string.
Proof. induction a as [|c a IH]; simpl; [reflexivity|]. now rewrite IH. Qed.

Lemma prefix_app p s : prefix p (p ++ s)%string = true.
Proof.
  induction p as [|c p IH]; simpl; [destruct s; reflexivity|].
  destruct (ascii_dec c c) as [_|Hc]; [exact IH|now elim Hc].
Qed.

Lemma occurs_app p a b : Trigger.occurs p (a ++ p ++ b)%string = true.
Proof.
  induction a as [|c a IH].
  - cbn [append]. destruct (p ++ b)%string eqn:E; cbn [Trigger.occurs];
      rewrite <- E, prefix_app; reflexivity.
  - cbn [append Trigger.occurs]. rewrite IH. apply orb_true_r.
Qed.

Lemma prefix_refl p : prefix p p = true.
Proof.
  induction p as [|c p IH]; simpl; [reflexivity|].
  destruct (ascii_dec c c) as [_|Hc]; [exact IH|now elim Hc].
Qed.

(** A text that is the word, in any letter case, matches it. *)
Lemma matches_word_exact word t :
  Trigger.ascii_lower t = word -> Trigger.matches_word word t = true.
Proof.
  intros H. unfold Trigger.matches_word. rewrite H.
  destruct word; cbn [Trigger.occurs]; rewrite prefix_refl; reflexivity.
Qed.

(** So does a text that has it somewhere. *)
Lemma matches_word_inside word pre cmd post :
  Trigger.ascii_lower cmd = word ->
  Trigger.matches_word word (pre ++ cmd ++ post)%string = true.
Proof.
  intros H. unfold Trigger.matches_word.
  rewrite !ascii_lower_app, H. apply occurs_app.
Qed.

(** A [/roll] command is no help request. *)
Lemma roll_command_no_help msg :
  Trigger.is_roll_command msg = true -> Trigger.is_help_request msg = false.
Proof.
  unfold Trigger.is_roll_command, Trigger.is_help_request, Trigger.matches_word.
  destruct (Trigger.text msg) as [t|]; [|reflexivity].
  intros H. apply String.eqb_eq in H. rewrite H. reflexivity.
Qed.

Lemma length_ascii_lower s :
  String.length (Trigger.ascii_lower s) = String.length s.
Proof. induction s as [|c s IH]; simpl; congruence. Qed.

Lemma length_string_app a b :
  String.length (a ++ b)%string = (String.length a + String.length b)%nat.
Proof. induction a as [|c a IH]; simpl; congruence. Qed.

(** A text that has more than the command is not the command. *)
Lemma longer_text_no_command pre cmd post :
  Trigger.ascii_lower cmd = "/roll" ->
  (pre ++ post)%string <> EmptyString ->
  String.eqb (Trigger.ascii_lower (pre ++ cmd ++ post)) "/roll" = false.
Proof.
  intros Hcmd Hmore. apply String.eqb_neq. intros H.
  apply (f_equal String.length) in H.
  rewrite length_ascii_lower, !length_string_app in H.
  apply (f_equal String.length) in Hcmd. rewrite length_ascii_lower in Hcmd.
  cbn [String.length] in H, Hcmd.
  destruct pre, post; cbn [String.length append] in *;
    first [now elim Hmore | lia].
Qed.

(** ** Which texts are the command *)

Ltac each_ascii c :=
  destruct c as [[] [] [] [] [] [] [] []]; vm_compute; intros H;
  first [discriminate H | auto].

Lemma lower_slash c : Trigger.lower c = "/"%char -> c = "/"%char.
Proof. each_ascii c. Qed.

Lemma lower_r c : Trigger.lower c = "r"%char -> c = "r"%char \/ c = "R"%char.
Proof. each_ascii c. Qed.

Lemma lower_o c : Trigger.lower c = "o"%char -> c = "o"%char \/ c = "O"%char.
Proof. each_ascii c. Qed.

Lemma lower_l c : Trigger.lower c = "l"%char -> c = "l"%char \/ c = "L"%char.
Proof. each_ascii c. Qed.

(** A text lowers to [/roll] exactly when it is one of the sixteen
    spellings. *)
Lemma ascii_lower_roll t :
  Trigger.ascii_lower t = "/roll" <-> In t roll_spellings.
Proof.
  split.
  - destruct t as [|c0 [|c1 [|c2 [|c3 [|c4 [|c5 t]]]]]]; try discriminate.
    cbn [Trigger.ascii_lower]. intros H.
    injection H as H0 H1 H2 H3 H4.
    apply lower_slash in H0. apply lower_r in H1. apply lower_o in H2.
    apply lower_l in H3. apply lower_l in H4. subst c0.
    destruct H1 as [-> | ->], H2 as [-> | ->], H3 as [-> | ->],
             H4 as [-> | ->];
      unfold roll_spellings; cbn [In]; tauto.
  - unfold roll_spellings. cbn [In]. intros H.
    repeat (destruct H as [<-|H]; [reflexivity|]). destruct H.
Qed.

Lemma standard_die_value msg v :
  Trigger.msg_dice msg = Some (mkDice "🎲" v) ->
  Trigger.standard_die msg = Some v.
Proof. unfold Trigger.standard_die. intros ->. reflexivity. Qed.

Lemma standard_die_none msg :
  (forall v, Trigger.msg_dice msg <> Some (mkDice "🎲" v)) ->
  Trigger.standard_die msg = None.
Proof.
  unfold Trigger.standard_die. intros H.
  destruct (Trigger.msg_dice msg) as [[e v]|]; [|reflexivity].
  cbn [emoji value].
  destruct (String.eqb_spec e "🎲") as [->|]; [|reflexivity].
  now elim (H v).
Qed.

(** ** The listeners *)

(** X13. The message listener of part_001's second script, for a
    message with a sender: a message that carries a die with the emoji
    🎲 is answered, in the same chat, with the die's value as text,
    whatever the message's text and whatever [Math.random] holds; a
    message without such a die whose text is [/roll] in one of its
    sixteen letter-case spellings is answered with a face from 1 to 6,
    and does not match the help expression; a message without such a
    die and with no text or any other text gets no answer. A message
    without a sender makes the listener throw before it answers. *)
Theorem X13_emoji_mode_answers msg x :
  (Trigger.from msg = None ->
   Trigger.EmojiMode_on_message msg x = inl TypeError) /\
  (forall uid, Trigger.from msg = Some uid -> 0 <= x < 2 ^ 53 ->
   (forall v, Trigger.msg_dice msg = Some (mkDice "🎲" v) ->
      Trigger.EmojiMode_on_message msg x
      = inr (Some (Trigger.mkSend (Trigger.chat_id msg)
                     (Trigger.decimal v) None))) /\
   ((forall v, Trigger.msg_dice msg <> Some (mkDice "🎲" v)) ->
    (forall t, Trigger.text msg = Some t -> In t roll_spellings ->
       (exists face, 1 <= face <= 6 /\
          Trigger.EmojiMode_on_message msg x
          = inr (Some (Trigger.mkSend (Trigger.chat_id msg)
                         (Trigger.decimal face) None))) /\
       Trigger.is_help_request msg = false) /\
    ((forall t, Trigger.text msg = Some t -> ~ In t roll_spellings) ->
     Trigger.EmojiMode_on_message msg x = inr None))).
Proof.
  unfold Trigger.EmojiMode_on_message. split.
  - intros ->. reflexivity.
  - intros uid -> Hx. split.
    + intros v Hdie. rewrite (standard_die_value msg Hdie). reflexivity.
    + intros Hno. rewrite (standard_die_none msg Hno). split.
      * intros t Ht Hin.
        assert (Hroll : Trigger.is_roll_command msg = true).
        { unfold Trigger.is_roll_command. rewrite Ht.
          apply String.eqb_eq, ascii_lower_roll, Hin. }
        rewrite Hroll. split; [|now apply roll_command_no_help].
        exists (Trigger.roll x). split; [now apply roll_range|reflexivity].
      * intros Hother.
        assert (Hroll : Trigger.is_roll_command msg = false).
        { unfold Trigger.is_roll_command.
          destruct (Trigger.text msg) as [t|]; [|reflexivity].
          apply String.eqb_neq. intros H.
          apply (Hother t eq_refl), ascii_lower_roll, H. }
        rewrite Hroll. reflexivity.
Qed.

Lemma X13_emoji_mode_answers_witness :
  Trigger.from Trigger.roll_message = Some 7 /\
  0 <= 2 ^ 52 < 2 ^ 53 /\
  (forall v, Trigger.msg_dice Trigger.roll_message <> Some (mkDice "🎲" v)) /\
  Trigger.text Trigger.roll_message = Some "/RoLl" /\
  In "/RoLl" roll_spellings /\
  (exists face, 1 <= face <= 6 /\
     Trigger.EmojiMode_on_message Trigger.roll_message (2 ^ 52)
     = inr (Some (Trigger.mkSend 5 (Trigger.decimal face) None))) /\
  Trigger.is_help_request Trigger.roll_message = false /\
  Trigger.EmojiMode_on_message Trigger.die_message (2 ^ 52)
  = inr (Some (Trigger.mkSend 5 "3" None)).
Proof.
  assert (Hx : 0 <= 2 ^ 52 < 2 ^ 53) by (vm_compute; split; congruence).
  assert (Hno : forall v,
            Trigger.msg_dice Trigger.roll_message <> Some (mkDice "🎲" v)).
  { intros v. discriminate. }
  assert (Hin : In "/RoLl" roll_spellings).
  { unfold roll_spellings. cbn [In]. tauto. }
  split; [reflexivity|]. split; [exact Hx|]. split; [exact Hno|].
  split; [reflexivity|]. split; [exact Hin|].
  refine (let H := proj1 (proj2 (proj2 (@X13_emoji_mode_answers
                      Trigger.roll_message (2 ^ 52)) 7 eq_refl Hx) Hno)
                     "/RoLl" eq_refl Hin in
          conj (proj1 H) (conj (proj2 H) _)).
  exact (proj1 (proj2 (@X13_emoji_mode_answers Trigger.die_message (2 ^ 52))
                  7 eq_refl Hx) 3 eq_refl).
Defined.

(** X14. The listeners of part_001's second script, of part_003 and of
    part_000 decide alike on every message; where the first sends a
    number, part_003 sends the same number after the mention
    [@SolanaChatBot], and part_000 sends what part_003 sends as a reply
    to the triggering message. *)
Theorem X14_listener_variants_agree msg x :
  Trigger.Mention_on_message msg x
  = Trigger.answer_map
      (fun s => Trigger.mkSend (Trigger.to s)
                  ("@SolanaChatBot " ++ Trigger.body s) None)
      (Trigger.EmojiMode_on_message msg x) /\
  Trigger.Reply_on_message msg x
  = Trigger.answer_map
      (fun s => Trigger.mkSend (Trigger.to s) (Trigger.body s)
                  (Some (Trigger.message_id msg)))
      (Trigger.Mention_on_message msg x).
Proof.
  unfold Trigger.Mention_on_message, Trigger.Reply_on_message,
    Trigger.EmojiMode_on_message.
  destruct (Trigger.from msg); [|split; reflexivity].
  destruct (Trigger.standard_die msg); [split; reflexivity|].
  destruct (Trigger.is_roll_command msg); split; reflexivity.
Qed.

(** X15. [Math.floor(Math.random() * 6) + 1], the die of the [/roll]
    fallback and of the plain worker, computed on doubles: every value
    of [Math.random()] in [0,1) gives a face from 1 to 6 (the rounding
    of the product never reaches 6.0), and each of the six faces is
    given by some value. *)
Theorem X15_fallback_die_has_six_faces :
  (forall x, 0 <= x < 2 ^ 53 -> 1 <= Trigger.roll x <= 6) /\
  (forall v, 1 <= v <= 6 -> exists x, 0 <= x < 2 ^ 53 /\ Trigger.roll x = v).
Proof. split; [exact roll_range|exact roll_faces]. Qed.

(** X16. The [/roll] expression of part_004 matches anywhere in a text
    and in any letter case: a message whose text has the command
    somewhere gets a face from 1 to 6 as the answer, while the listener
    of part_001's second script, which compares the whole text, leaves
    such a message unanswered as soon as there is text around the
    command. *)
Theorem X16_roll_expression_matches_inside msg x uid pre cmd post :
  Trigger.from msg = Some uid ->
  0 <= x < 2 ^ 53 ->
  Trigger.ascii_lower cmd = "/roll" ->
  Trigger.text msg = Some (pre ++ cmd ++ post)%string ->
  (exists v, 1 <= v <= 6 /\
     Trigger.Simple_on_text msg x
     = inr (Some (Trigger.mkSend (Trigger.chat_id msg) (Trigger.decimal v) None))) /\
  ((pre ++ post)%string <> EmptyString ->
   Trigger.standard_die msg = None ->
   Trigger.EmojiMode_on_message msg x = inr None).
Proof.
  intros Hfrom Hx Hcmd Htext. split.
  - unfold Trigger.Simple_on_text.
    rewrite Htext, (@matches_word_inside "/roll" pre cmd post Hcmd), Hfrom.
    exists (Trigger.roll x). split; [now apply roll_range|reflexivity].
  - intros Hmore Hdie.
    unfold Trigger.EmojiMode_on_message, Trigger.is_roll_command.
    rewrite Hfrom, Hdie, Htext, (@longer_text_no_command pre cmd post Hcmd Hmore).
    reflexivity.
Qed.

Lemma X16_roll_expression_matches_inside_witness :
  Trigger.from Trigger.rollback_message = Some 7 /\
  0 <= 0 < 2 ^ 53 /\
  Trigger.ascii_lower "/ROLL" = "/roll" /\
  Trigger.text Trigger.rollback_message
  = Some ("please " ++ "/ROLL" ++ "back now")%string /\
  (exists v, 1 <= v <= 6 /\
     Trigger.Simple_on_text Trigger.rollback_message 0
     = inr (Some (Trigger.mkSend (Trigger.chat_id Trigger.rollback_message)
                    (Trigger.decimal v) None))) /\
  (("please " ++ "back now")%string <> EmptyString ->
   Trigger.standard_die Trigger.rollback_message = None ->
   Trigger.EmojiMode_on_message Trigger.rollback_message 0 = inr None).
Proof.
  assert (Hx : 0 <= 0 < 2 ^ 53) by (vm_compute; split; congruence).
  split; [reflexivity|]. split; [exact Hx|]. split; [reflexivity|].
  split; [reflexivity|].
  exact (@X16_roll_expression_matches_inside Trigger.rollback_message 0 7
           "please " "/ROLL" "back now" eq_refl Hx eq_refl eq_refl).
Defined.

(** ** The pool's TLS options *)

(** X17. The pool verifies the server's certificate only when
    [DB_REJECT_UNAUTHORIZED] is exactly the text [true] and [DB_SSL] is
    unset or exactly [true]; TLS is off only when [DB_SSL] is set to
    something other than [true]; with both variables unset the pool
    uses TLS without verification. *)
Theorem X17_tls_options a b :
  (ssl_option a b = Some true <->
   (a = None \/ a = Some "true") /\ b = Some "true") /\
  (ssl_option a b = None <-> exists s, a = Some s /\ s <> "true") /\
  ssl_option None None = Some false.
Proof.
  unfold ssl_option, useSslHelper, rejectUnauthorizedSslHelper.
  split; [|split; [|reflexivity]].
  - destruct a as [s|]; [destruct (String.eqb_spec s "true") as [->|Hs]|];
      (destruct b as [s'|]; [destruct (String.eqb_spec s' "true") as [->|Hs']|]);
      split; try solve [intros H; discriminate H];
      try solve [intros ([H|H] & H'); congruence]; auto.
  - destruct a as [s|]; [destruct (String.eqb_spec s "true") as [->|Hs]|]; split;
      try solve [intros H; discriminate H]; eauto.
    + intros (s & [= <-] & H). now elim H.
    + intros (s & H & _). discriminate H.
Qed.
